(** * Export ordering and dataset-type registration in the data butler

    A shallow embedding of two classes of [lsst.daf.butler]:

    - [RepoExportContext] ([transfers/_context.py]): the accumulation of
      dimension records, datasets and collections during an export, and
      [_finish], which hands them to the export backend in a fixed order;
    - [ByDimensionsDatasetRecordStorageManager]
      ([registry/datasets/byDimensions/_manager.py]): the cache of dataset
      types in front of the dataset-type directory table.

    Python dictionaries keep insertion order and the code iterates over them,
    so they are association lists here; the manager's caches are only looked
    up by key and are finite maps.  Exceptions are values of [Exc]; a call
    that raises keeps the mutations it made before raising. *)

From Stdlib Require Import String Ascii ZArith List Sorting.Sorted.
From stdpp Require Import base tactics option list sorting gmap strings.

Set Warnings "-clear-no-such-hyp".

Open Scope string_scope.
Open Scope Z_scope.
Open Scope list_scope.

(** ** Python's ordering protocol and [sorted] *)

(** [py_lt x y] is [x < y], the only comparison [sorted] uses. *)
Class PyOrd (A : Type) := py_lt : A -> A -> bool.

(** [x <= y] as [sorted] sees it: [y] is not below [x]. *)
Definition py_le {A} `{PyOrd A} (x y : A) : Prop := py_lt y x = false.

(** Orders under which two elements may tie (an order on a sort key). *)
Class PyWeakOrder (A : Type) `{PyOrd A} : Prop := {
  py_lt_asym : forall x y : A, py_lt x y = true -> py_lt y x = false;
  py_le_trans : forall x y z : A, py_le x y -> py_le y z -> py_le x z
}.

(** Orders without ties. *)
Class PyTotalOrder (A : Type) `{PyOrd A} : Prop := {
  py_total_weak :: PyWeakOrder A;
  py_le_antisym : forall x y : A, py_le x y -> py_le y x -> x = y
}.

#[global] Instance string_PyOrd : PyOrd string := String.ltb.

(** One step of a stable insertion: [x] goes before the first element that
    is not below it, so it stays ahead of the elements it ties with. *)
Fixpoint insort {A} `{PyOrd A} (x : A) (l : list A) : list A :=
  match l with
  | [] => [x]
  | y :: l' => if py_lt y x then y :: insort x l' else x :: y :: l'
  end.

(** [sorted(l)]: a stable sort that compares with [<] only. *)
Definition sorted {A} `{PyOrd A} (l : list A) : list A :=
  foldr insort [] l.

(** ** Python dictionaries, in insertion order *)

Definition dict (K V : Type) : Type := list (K * V).

Definition dict_keys {K V} (d : dict K V) : list K := map fst d.
Definition dict_values {K V} (d : dict K V) : list V := map snd d.

(** [d.get(k)] *)
Fixpoint dict_get {K V} `{EqDecision K} (k : K) (d : dict K V) : option V :=
  match d with
  | [] => None
  | (k', v) :: d' => if decide (k = k') then Some v else dict_get k d'
  end.

(** [d[k] = v]: an existing key keeps its place, a new one goes last. *)
Fixpoint dict_set {K V} `{EqDecision K} (k : K) (v : V) (d : dict K V)
  : dict K V :=
  match d with
  | [] => [(k, v)]
  | (k', v') :: d' =>
      if decide (k = k') then (k', v) :: d' else (k', v') :: dict_set k v d'
  end.

(** [d.setdefault(k, v)], for its effect on [d]. *)
Definition dict_setdefault {K V} `{EqDecision K} (k : K) (v : V)
  (d : dict K V) : dict K V :=
  match dict_get k d with
  | Some _ => d
  | None => dict_set k v d
  end.

(** [del d[k]] for a key that is present. *)
Fixpoint dict_del {K V} `{EqDecision K} (k : K) (d : dict K V) : dict K V :=
  match d with
  | [] => []
  | (k', v) :: d' => if decide (k = k') then d' else (k', v) :: dict_del k d'
  end.

(** [k in d] *)
Definition dict_mem {K V} `{EqDecision K} (k : K) (d : dict K V) : bool :=
  bool_decide (k ∈ dict_keys d).

(** [d[k]] of a [defaultdict] followed by an update of the value in place:
    a missing key is first given the default. *)
Definition defaultdict_update {K V} `{EqDecision K} (default : V) (k : K)
  (f : V -> V) (d : dict K V) : dict K V :=
  match dict_get k d with
  | Some v => dict_set k (f v) d
  | None => dict_set k (f default) d
  end.

(** [s.add(x)] on a set kept as a list without repeats. *)
Definition set_add {A} `{EqDecision A} (x : A) (s : list A) : list A :=
  if decide (x ∈ s) then s else s ++ [x].

(** A dictionary holds a key once. *)
Definition dict_wf {K V} (d : dict K V) : Prop := NoDup (dict_keys d).

(** Two dictionaries with the same items, whatever the insertion order. *)
Definition dict_same {K V} (d1 d2 : dict K V) : Prop :=
  dict_wf d1 /\ dict_wf d2 /\ d1 ≡ₚ d2.

(** ** The data model *)

Inductive CollectionType : Type := RUN | TAGGED | CALIBRATION | CHAINED.

#[global] Instance CollectionType_eq_dec : EqDecision CollectionType.
Proof. solve_decision. Defined.

(** [CollectionRecord]; [cr_children] is read for CHAINED records only. *)
Record CollectionRecord : Type := {
  cr_name : string;
  cr_type : CollectionType;
  cr_children : list string
}.

#[global] Instance CollectionRecord_eq_dec : EqDecision CollectionRecord.
Proof. solve_decision. Defined.

(** [DimensionElement], with what [hasTable()] and [viewOf] answer. *)
Record DimensionElement : Type := {
  el_name : string;
  el_hasTable : bool;
  el_viewOf : option string
}.

#[global] Instance DimensionElement_eq_dec : EqDecision DimensionElement.
Proof. solve_decision. Defined.

(** A storage class and the storage classes of its components. *)
#[warnings="-register-all"]
Inductive StorageClass : Type :=
  mkStorageClass (sc_name : string)
                 (sc_components : list (string * StorageClass)).

Definition sc_name (sc : StorageClass) : string :=
  match sc with mkStorageClass n _ => n end.

Definition sc_components (sc : StorageClass) : list (string * StorageClass) :=
  match sc with mkStorageClass _ cs => cs end.

#[global] Instance StorageClass_eq_dec : EqDecision StorageClass.
Proof.
  refine (fix go (a b : StorageClass) {struct a} : Decision (a = b) :=
    match a, b with
    | mkStorageClass n cs, mkStorageClass n' cs' =>
        match decide (n = n') with
        | right _ => right _
        | left _ =>
            match
              (fix go_components (l l' : list (string * StorageClass))
                 {struct l} : Decision (l = l') :=
                 match l, l' with
                 | [], [] => left _
                 | (k, x) :: t, (k', y) :: t' =>
                     match decide (k = k'), go x y, go_components t t' with
                     | left _, left _, left _ => left _
                     | _, _, _ => right _
                     end
                 | _, _ => right _
                 end) cs cs'
            with
            | left _ => left _
            | right _ => right _
            end
        end
    end); congruence.
Defined.

(** A dimension graph, as the canonical tuple of its dimension names. *)
Definition DimensionGraph : Type := list string.

Record DatasetType : Type := {
  dt_name : string;
  dt_dimensions : DimensionGraph;
  dt_storageClass : StorageClass;
  dt_isCalibration : bool
}.

(** [datasetType.isComposite]: the storage class declares components. *)
Definition dt_isComposite (datasetType : DatasetType) : bool :=
  match sc_components (dt_storageClass datasetType) with
  | [] => false
  | _ :: _ => true
  end.

(** [a == b] on dataset types is structural. *)
#[global] Instance DatasetType_eq_dec : EqDecision DatasetType.
Proof. solve_decision. Defined.

(** Modelled from the spec: dataset types are sorted by name. *)
#[global] Instance DatasetType_PyOrd : PyOrd DatasetType :=
  fun a b => String.ltb (dt_name a) (dt_name b).

(** ** Exceptions *)

Inductive Exc : Type :=
| MissingCollectionError (name : string)
| KeyError (what : string)
| ValueError (element definition : string)
| LookupError
| AmbiguousDatasetError
| AssertionError (message : string)
  (** [RuntimeError(f"{message}{involving}.")]: the text and the set that
      the f-string interpolates into it. *)
| RuntimeError (message : string) (involving : list string)
  (** [ConflictingDefinitionError], with the two definitions it quotes. *)
| ConflictingDefinitionError (given existing : DatasetType)
| DatabaseConflictError (name : string)
  (** Not a Python exception: the bound on the iterations of a [while] loop
      was too small.  [sort_chains_cases] shows it is never produced. *)
| OutOfFuel.

Inductive Result (A : Type) : Type :=
| Ok (a : A)
| Raise (e : Exc).
Arguments Ok {A} a.
Arguments Raise {A} e.

(** ** Stateful code: a state and exception monad

    A computation gets the object's state and returns the state it leaves
    with either a value or the exception raised. *)

Definition M (S A : Type) : Type := S -> S * Result A.

Definition ret {S A} (a : A) : M S A := fun s => (s, Ok a).
Definition raise {S A} (e : Exc) : M S A := fun s => (s, Raise e).
Definition bind {S A B} (m : M S A) (k : A -> M S B) : M S B :=
  fun s => match m s with
           | (s', Ok a) => k a s'
           | (s', Raise e) => (s', Raise e)
           end.
Definition get {S} : M S S := fun s => (s, Ok s).
Definition modify {S} (f : S -> S) : M S unit := fun s => (f s, Ok tt).

#[global] Instance M_ret {S} : MRet (M S) := fun A a => ret a.
#[global] Instance M_bind {S} : MBind (M S) := fun A B k m => bind m k.

(** [for x in l: body(x)] *)
Fixpoint for_ {S A} (l : list A) (body : A -> M S unit) : M S unit :=
  match l with
  | [] => ret tt
  | x :: l' => bind (body x) (fun _ => for_ l' body)
  end.

(** [[f(x) for x in l]] where [f] may raise. *)
Fixpoint mapM {S A B} (f : A -> M S B) (l : list A) : M S (list B) :=
  match l with
  | [] => ret []
  | x :: l' =>
      bind (f x) (fun y => bind (mapM f l') (fun ys => ret (y :: ys)))
  end.

(** A loop that updates a local variable [acc]. *)
Fixpoint foldM {S A B} (body : B -> A -> M S B) (acc : B) (l : list A)
  : M S B :=
  match l with
  | [] => ret acc
  | x :: l' => bind (body acc x) (fun acc' => foldM body acc' l')
  end.

(** A call that returns or raises without touching the state. *)
Definition lift {S A} (r : Result A) : M S A := fun s => (s, r).

(** [d[k]], raising [KeyError] for a missing key. *)
Definition getitem {S K V} `{EqDecision K} (what : string) (k : K)
  (d : dict K V) : M S V :=
  match dict_get k d with
  | Some v => ret v
  | None => raise (KeyError what)
  end.

(** ** [RepoExportContext] *)

Section ExportModel.

(** Classes of the core package that the export code only passes around:
    data coordinates and file datasets, with the order [sorted] finds on
    them. *)
Context {DataCoordinate FileDataset : Type}.
Context `{DataCoordinate_eq_dec : EqDecision DataCoordinate}.
Context {DataCoordinate_PyOrd : PyOrd DataCoordinate}.
Context {FileDataset_PyOrd : PyOrd FileDataset}.

Record DimensionRecord : Type := {
  rec_definition : DimensionElement;
  rec_dataId : DataCoordinate;
  rec_fields : list (string * string)
}.

Record DatasetRef : Type := {
  ref_datasetType : DatasetType;
  ref_dataId : DataCoordinate;
  ref_id : option Z;
  ref_run : option string
}.

Definition Timespan : Type := Z * Z.

Record DatasetAssociation : Type := {
  assoc_ref : DatasetRef;
  assoc_collection : string;
  assoc_timespan : option Timespan
}.

Context {DatasetRef_PyOrd : PyOrd DatasetRef}.
Context {DatasetAssociation_PyOrd : PyOrd DatasetAssociation}.

(** The registry, as far as an export reads it. *)
Record Registry : Type := {
  (** the collections of the repository *)
  reg_collections : list CollectionRecord;
  (** [dimensions.getStaticElements()], in the universe's dependency order *)
  reg_dimensions : list DimensionElement;
  (** [element.RecordClass], applied to the fields of a record *)
  reg_RecordClass : DimensionElement -> list (string * string) -> DimensionRecord;
  (** [expandDataId(dataId).records.values()] *)
  reg_expandDataId : DataCoordinate -> Result (list (option DimensionRecord));
  (** [getCollectionDocumentation(name)] *)
  reg_documentation : string -> option string;
  (** the rows that tie a dataset to a TAGGED or CALIBRATION collection *)
  reg_associations : list DatasetAssociation
}.

(** What the export backend is asked to write, call by call. *)
Inductive BackendCall : Type :=
| Backend_saveDimensionData (element : DimensionElement)
    (data : list DimensionRecord)
| Backend_saveCollection (record : CollectionRecord) (doc : option string)
| Backend_saveDatasets (datasetType : DatasetType) (run : string)
    (datasets : list FileDataset)
| Backend_saveDatasetAssociations (collection : string)
    (collectionType : CollectionType) (associations : list DatasetAssociation)
| Backend_finish.

(** The attributes of a [RepoExportContext].  [_backend] is the list of the
    calls the backend has received; [_datastore] is [Datastore.export] on one
    ref, with the context's directory and transfer mode. *)
Record RepoExportContext : Type := {
  _registry : Registry;
  _datastore : DatasetRef -> Result (list FileDataset);
  _backend : list BackendCall;
  _records : dict DimensionElement (dict DataCoordinate DimensionRecord);
  _dataset_ids : gset Z;
  _datasets : dict DatasetType (dict string (list FileDataset));
  _collections : dict string CollectionRecord
}.

(** [RepoExportContext(registry, datastore, backend)] *)
Definition __init__ (registry : Registry)
  (datastore : DatasetRef -> Result (list FileDataset)) : RepoExportContext :=
  {| _registry := registry; _datastore := datastore; _backend := [];
     _records := []; _dataset_ids := ∅; _datasets := []; _collections := [] |}.

Definition with_backend (f : list BackendCall -> list BackendCall)
  (self : RepoExportContext) : RepoExportContext :=
  {| _registry := _registry self; _datastore := _datastore self;
     _backend := f (_backend self); _records := _records self;
     _dataset_ids := _dataset_ids self; _datasets := _datasets self;
     _collections := _collections self |}.

Definition with_records
  (f : dict DimensionElement (dict DataCoordinate DimensionRecord) ->
       dict DimensionElement (dict DataCoordinate DimensionRecord))
  (self : RepoExportContext) : RepoExportContext :=
  {| _registry := _registry self; _datastore := _datastore self;
     _backend := _backend self; _records := f (_records self);
     _dataset_ids := _dataset_ids self; _datasets := _datasets self;
     _collections := _collections self |}.

Definition with_dataset_ids (f : gset Z -> gset Z)
  (self : RepoExportContext) : RepoExportContext :=
  {| _registry := _registry self; _datastore := _datastore self;
     _backend := _backend self; _records := _records self;
     _dataset_ids := f (_dataset_ids self); _datasets := _datasets self;
     _collections := _collections self |}.

Definition with_datasets
  (f : dict DatasetType (dict string (list FileDataset)) ->
       dict DatasetType (dict string (list FileDataset)))
  (self : RepoExportContext) : RepoExportContext :=
  {| _registry := _registry self; _datastore := _datastore self;
     _backend := _backend self; _records := _records self;
     _dataset_ids := _dataset_ids self; _datasets := f (_datasets self);
     _collections := _collections self |}.

Definition with_collections
  (f : dict string CollectionRecord -> dict string CollectionRecord)
  (self : RepoExportContext) : RepoExportContext :=
  {| _registry := _registry self; _datastore := _datastore self;
     _backend := _backend self; _records := _records self;
     _dataset_ids := _dataset_ids self; _datasets := _datasets self;
     _collections := f (_collections self) |}.

(** A call on [self._backend]. *)
Definition backend (call : BackendCall) : M RepoExportContext unit :=
  modify (with_backend (fun calls => calls ++ [call])).

(** Modelled from the spec: [CollectionManager.find(name)], which is not
    among the sources, returns the record of the collection of that name and
    raises for a name the repository does not have. *)
Definition find_collection (registry : Registry) (name : string)
  : option CollectionRecord :=
  List.find (fun record => bool_decide (cr_name record = name))
    (reg_collections registry).

Definition registry_collections_find (name : string)
  : M RepoExportContext CollectionRecord :=
  self ← get;
  match find_collection (_registry self) name with
  | Some record => mret record
  | None => raise (MissingCollectionError name)
  end.

(** Modelled from the spec: [registry.dimensions[name]], which is not among
    the sources, is the element of that name. *)
Definition registry_dimensions_getitem (name : string)
  : M RepoExportContext DimensionElement :=
  self ← get;
  match List.find (fun element => bool_decide (el_name element = name))
          (reg_dimensions (_registry self)) with
  | Some element => mret element
  | None => raise (KeyError name)
  end.

(** Modelled from the spec: [DimensionUniverse.sorted(elements)], which is
    not among the sources, lists the given elements in the universe's
    dependency order. *)
Definition dimensions_sorted (registry : Registry)
  (elements : list DimensionElement) : list DimensionElement :=
  List.filter (fun element => bool_decide (element ∈ elements))
    (reg_dimensions registry).

(** [self._collections[name] = self._registry._collections.find(name)] *)
Definition saveCollection (name : string) : M RepoExportContext unit :=
  record ← registry_collections_find name;
  modify (with_collections (dict_set name record)).

(** [self._records[element].setdefault(dataId, record)] *)
Definition records_setdefault (element : DimensionElement)
  (dataId : DataCoordinate) (record : DimensionRecord)
  : M RepoExportContext unit :=
  modify (with_records
            (defaultdict_update [] element (dict_setdefault dataId record))).

Definition saveDimensionData (element : string + DimensionElement)
  (records : list (list (string * string) + DimensionRecord))
  : M RepoExportContext unit :=
  element ← match element with
             | inr element => mret element
             | inl name => registry_dimensions_getitem name
             end;
  for_ records (fun record =>
    self ← get;
    record ← match record with
              | inl fields =>
                  mret (reg_RecordClass (_registry self) element fields)
              | inr record =>
                  if decide (rec_definition record = element)
                  then mret record
                  else raise (ValueError (el_name element)
                                (el_name (rec_definition record)))
              end;
    records_setdefault element (rec_dataId record) record).

(** The loop of [saveDataIds] that turns the given elements into the set of
    elements to export. *)
Definition standardize_elements (elements : list (string + DimensionElement))
  (standardized : list DimensionElement)
  : M RepoExportContext (list DimensionElement) :=
  foldM (fun standardized element =>
           element ← match element with
                      | inr element => mret element
                      | inl name => registry_dimensions_getitem name
                      end;
           if el_hasTable element && bool_decide (el_viewOf element = None)
           then mret (set_add element standardized)
           else mret standardized)
        standardized elements.

Definition saveDataIds (dataIds : list DataCoordinate)
  (elements : option (list (string + DimensionElement)))
  : M RepoExportContext unit :=
  self ← get;
  elements ← match elements with
              | None =>
                  mret (List.filter
                          (fun element =>
                             el_hasTable element
                             && bool_decide (el_viewOf element = None))
                          (reg_dimensions (_registry self)))
              | Some _ =>
                  (* [elements = set()] rebinds the name of the argument,
                     and [for element in elements] runs over the new set *)
                  let elements : list (string + DimensionElement) := [] in
                  standardize_elements elements []
              end;
  for_ dataIds (fun dataId =>
    self ← get;
    records ← lift (reg_expandDataId (_registry self) dataId);
    for_ records (fun record =>
      match record with
      | Some record =>
          if bool_decide (rec_definition record ∈ elements)
          then records_setdefault (rec_definition record) (rec_dataId record)
                 record
          else mret tt
      | None => mret tt
      end)).

(** [ref.id in self._dataset_ids] *)
Definition id_in (id : option Z) (ids : gset Z) : bool :=
  match id with
  | Some i => bool_decide (i ∈ ids)
  | None => false
  end.

Definition saveDatasets (refs : list DatasetRef)
  (elements : option (list (string + DimensionElement)))
  (rewrite : option (FileDataset -> FileDataset))
  : M RepoExportContext unit :=
  dataIds ← foldM (fun (dataIds : list DataCoordinate) ref =>
    self ← get;
    if id_in (ref_id ref) (_dataset_ids self) then mret dataIds
    else
      let dataIds := set_add (ref_dataId ref) dataIds in
      exports ← lift (_datastore self ref);
      let exports := match rewrite with
                     | Some rewrite => map rewrite exports
                     | None => exports
                     end in
      id ← match ref_id ref with
            | Some id => mret id
            | None => raise AmbiguousDatasetError
            end;
      modify (with_dataset_ids (fun ids => ids ∪ {[id]}));;
      run ← match ref_run ref with
             | Some run => mret run
             | None => raise (AssertionError "ref.run is not None")
             end;
      modify (with_datasets
                (defaultdict_update [] (ref_datasetType ref)
                   (defaultdict_update [] run (fun l => l ++ exports))));;
      mret dataIds) [] (sorted refs);
  saveDataIds dataIds elements.

(** The first loop of [_computeSortedCollections]: the CHAINED records go
    to [chains] with their children, the names of the others to [result]. *)
Definition split_collections (records : list CollectionRecord)
  : dict string (list string) * list string :=
  foldl (fun '(chains, result) record =>
           if decide (cr_type record = CHAINED)
           then (dict_set (cr_name record) (cr_children record) chains, result)
           else (chains, result ++ [cr_name record]))
        ([], []) records.

(** [{parent for parent, children in chains.items()
      if not any(child in chains.keys() for child in children)}] *)
Definition unblocked_chains (chains : dict string (list string))
  : list string :=
  dict_keys
    (List.filter
       (fun '(parent, children) =>
          negb (existsb (fun child => dict_mem child chains) children))
       chains).

Definition cycle_message : string :=
  "Apparent cycle in CHAINED collection dependencies involving ".

(** The [while chains:] loop, with a bound on its iterations. *)
Fixpoint sort_chains (fuel : nat) (chains : dict string (list string))
  (result : list string) : Result (list string) :=
  match chains with
  | [] => Ok result
  | _ :: _ =>
      match fuel with
      | O => Raise OutOfFuel
      | S fuel' =>
          let unblocked := unblocked_chains chains in
          match unblocked with
          | [] => Raise (RuntimeError cycle_message unblocked)
          | _ :: _ =>
              sort_chains fuel'
                (foldl (fun chains name => dict_del name chains)
                   chains unblocked)
                (result ++ sorted unblocked)
          end
      end
  end.

(** [_computeSortedCollections] on the value of [self._collections].  Each
    iteration of the loop deletes a chain, so the number of chains bounds
    the iterations. *)
Definition computeSortedCollections
  (collections : dict string CollectionRecord) : Result (list string) :=
  let '(chains, result) := split_collections (dict_values collections) in
  let result := sorted result in
  sort_chains (length chains) chains result.

Definition _computeSortedCollections : M RepoExportContext (list string) :=
  self ← get;
  lift (computeSortedCollections (_collections self)).

(** Modelled from the spec: [Registry.queryDatasetAssociations], which is
    not among the sources, goes through the given collections, keeps those
    of one of the given types, does not look into the children of a chain,
    and yields the associations of the dataset type with each. *)
Definition queryDatasetAssociations (registry : Registry)
  (datasetType : DatasetType) (collections : list string)
  (collectionTypes : list CollectionType) : list DatasetAssociation :=
  flat_map
    (fun collection =>
       match find_collection registry collection with
       | Some record =>
           if bool_decide (cr_type record ∈ collectionTypes)
           then List.filter
                  (fun association =>
                     bool_decide (assoc_collection association = collection)
                     && bool_decide
                          (ref_datasetType (assoc_ref association)
                           = datasetType))
                  (reg_associations registry)
           else []
       | None => []
       end)
    collections.

Definition _computeDatasetAssociations (self : RepoExportContext)
  : dict string (list DatasetAssociation) :=
  foldl (fun results datasetType =>
           let collectionTypes :=
             if dt_isCalibration datasetType
             then [TAGGED; CALIBRATION] else [TAGGED] in
           let associationIter :=
             queryDatasetAssociations (_registry self) datasetType
               (dict_keys (_collections self)) collectionTypes in
           foldl (fun results association =>
                    if id_in (ref_id (assoc_ref association))
                         (_dataset_ids self)
                    then defaultdict_update []
                           (assoc_collection association)
                           (fun l => l ++ [association]) results
                    else results)
                 results associationIter)
        [] (dict_keys (_datasets self)).

Definition _finish : M RepoExportContext unit :=
  self ← get;
  for_ (dimensions_sorted (_registry self) (dict_keys (_records self)))
    (fun element =>
       r ← getitem "element" element (_records self);
       data ← mapM (fun dataId => getitem "dataId" dataId r)
                (sorted (dict_keys r));
       backend (Backend_saveDimensionData element data));;
  for_ (dict_values (_datasets self))
    (fun datasetsByRun =>
       for_ (dict_keys datasetsByRun)
         (fun run =>
            record ← registry_collections_find run;
            modify (with_collections (dict_set run record))));;
  names ← _computeSortedCollections;
  for_ names
    (fun collectionName =>
       self ← get;
       let doc := reg_documentation (_registry self) collectionName in
       record ← getitem collectionName collectionName (_collections self);
       backend (Backend_saveCollection record doc));;
  self ← get;
  for_ (sorted (dict_keys (_datasets self)))
    (fun datasetType =>
       byRun ← getitem (dt_name datasetType) datasetType (_datasets self);
       for_ (sorted (dict_keys byRun))
         (fun run =>
            records ← getitem run run byRun;
            backend (Backend_saveDatasets datasetType run (sorted records))));;
  self ← get;
  let datasetAssociations := _computeDatasetAssociations self in
  for_ (sorted (dict_keys datasetAssociations))
    (fun collection =>
       record ← getitem collection collection (_collections self);
       associations ← getitem collection collection datasetAssociations;
       backend (Backend_saveDatasetAssociations collection (cr_type record)
                  (sorted associations)));;
  backend Backend_finish.

End ExportModel.

(** ** [ByDimensionsDatasetRecordStorageManager] *)

(** Functions of the package that the manager calls and that are not among
    its sources: the storage-class factory behind [DatasetType(name,
    dimensions, storageClassName)], the encoding of dimension graphs, the
    name of the table of a dimension group, [storage.getDataId] and the
    collection manager's lookup of a run by its key. *)
Class Collaborators (DataCoordinate : Type) : Type := {
  getStorageClass : string -> StorageClass;
  DimensionGraph_encode : DimensionGraph -> string;
  DimensionGraph_decode : string -> DimensionGraph;
  makeDynamicTableName : DatasetType -> string;
  storage_getDataId : option string -> Z -> DataCoordinate;
  collections_getitem : Z -> option CollectionRecord
}.

(** A row of the dataset-type directory table. *)
Record DatasetTypeRow : Type := {
  row_id : Z;
  row_name : string;
  row_dimensions_encoded : string;
  row_storage_class : string
}.

(** A row of the dataset directory table: id, run key, dataset type. *)
Record DatasetRow : Type := {
  dataset_id : Z;
  dataset_run : Z;
  dataset_type_id : Z
}.

Inductive DatabaseCall : Type :=
| Db_query_dataset_type
| Db_query_dataset (id : Z)
| Db_query_dynamic (table : option string) (id : Z)
| Db_sync (name : string)
| Db_ensureTableExists (table : string)
| Db_getExistingTable (table : string).

#[global] Instance DatabaseCall_eq_dec : EqDecision DatabaseCall.
Proof. solve_decision. Defined.

(** The database behind the manager: the two static tables, the names of
    the dynamic tables, the autoincrement counter of the directory, and the
    calls received so far. *)
Record Database : Type := {
  db_dataset_type : list DatasetTypeRow;
  db_dataset : list DatasetRow;
  db_tables : list string;
  db_next_id : Z;
  db_calls : list DatabaseCall
}.

(** [ByDimensionsDatasetRecordStorage], as the manager builds it. *)
Record ByDimensionsDatasetRecordStorage : Type := {
  st_datasetType : DatasetType;
  st_dynamic : option string;
  _dataset_type_id : Z
}.

Record ByDimensionsDatasetRecordStorageManager : Type := {
  _db : Database;
  _byName : gmap string ByDimensionsDatasetRecordStorage;
  _byId : gmap Z ByDimensionsDatasetRecordStorage
}.

Definition with_db (f : Database -> Database)
  (self : ByDimensionsDatasetRecordStorageManager)
  : ByDimensionsDatasetRecordStorageManager :=
  {| _db := f (_db self); _byName := _byName self; _byId := _byId self |}.

Definition with_byName
  (f : gmap string ByDimensionsDatasetRecordStorage ->
       gmap string ByDimensionsDatasetRecordStorage)
  (self : ByDimensionsDatasetRecordStorageManager)
  : ByDimensionsDatasetRecordStorageManager :=
  {| _db := _db self; _byName := f (_byName self); _byId := _byId self |}.

Definition with_byId
  (f : gmap Z ByDimensionsDatasetRecordStorage ->
       gmap Z ByDimensionsDatasetRecordStorage)
  (self : ByDimensionsDatasetRecordStorageManager)
  : ByDimensionsDatasetRecordStorageManager :=
  {| _db := _db self; _byName := _byName self; _byId := f (_byId self) |}.

Definition db_log (call : DatabaseCall) (db : Database) : Database :=
  {| db_dataset_type := db_dataset_type db; db_dataset := db_dataset db;
     db_tables := db_tables db; db_next_id := db_next_id db;
     db_calls := db_calls db ++ [call] |}.

Definition db_insert_dataset_type (row : DatasetTypeRow) (db : Database)
  : Database :=
  {| db_dataset_type := db_dataset_type db ++ [row];
     db_dataset := db_dataset db; db_tables := db_tables db;
     db_next_id := db_next_id db + 1; db_calls := db_calls db |}.

Definition db_create_table (table : string) (db : Database) : Database :=
  {| db_dataset_type := db_dataset_type db; db_dataset := db_dataset db;
     db_tables := table :: db_tables db; db_next_id := db_next_id db;
     db_calls := db_calls db |}.

Section Manager.

Context {DataCoordinate : Type} `{Collaborators DataCoordinate}.

Abbreviation Manager := ByDimensionsDatasetRecordStorageManager.

(** Modelled from the spec: [Database.sync] on the directory table, keyed by
    name and comparing the dimensions and storage-class columns.  It is not
    among the sources; it inserts the row if no row has the name, returns
    the row it finds otherwise, and fails if that row differs in a compared
    column.  The id of a new row comes from the table's counter. *)
Definition db_sync (name dimensions_encoded storage_class : string)
  : M Manager (DatasetTypeRow * bool) :=
  modify (with_db (db_log (Db_sync name)));;
  self ← get;
  match List.find (fun row => bool_decide (row_name row = name))
          (db_dataset_type (_db self)) with
  | Some row =>
      if bool_decide (row_dimensions_encoded row = dimensions_encoded)
         && bool_decide (row_storage_class row = storage_class)
      then mret (row, false)
      else raise (DatabaseConflictError name)
  | None =>
      let row := {| row_id := db_next_id (_db self); row_name := name;
                    row_dimensions_encoded := dimensions_encoded;
                    row_storage_class := storage_class |} in
      modify (with_db (db_insert_dataset_type row));;
      mret (row, true)
  end.

(** Modelled from the spec: [Database.ensureTableExists], which is not among
    the sources, creates the table unless it exists. *)
Definition db_ensureTableExists (table : string) : M Manager string :=
  modify (with_db (db_log (Db_ensureTableExists table)));;
  self ← get;
  if bool_decide (table ∈ db_tables (_db self)) then mret table
  else modify (with_db (db_create_table table));; mret table.

(** Modelled from the spec: [Database.getExistingTable], which is not among
    the sources, returns the table if it exists. *)
Definition db_getExistingTable (table : string) : M Manager (option string) :=
  modify (with_db (db_log (Db_getExistingTable table)));;
  self ← get;
  if bool_decide (table ∈ db_tables (_db self)) then mret (Some table)
  else mret None.

(** [self._db.query(self._static.dataset_type.select()).fetchall()] *)
Definition db_query_dataset_type : M Manager (list DatasetTypeRow) :=
  modify (with_db (db_log Db_query_dataset_type));;
  self ← get;
  mret (db_dataset_type (_db self)).

(** [self._db.query(sql).fetchone()] for the dataset row of an id. *)
Definition db_query_dataset (id : Z) : M Manager (option DatasetRow) :=
  modify (with_db (db_log (Db_query_dataset id)));;
  self ← get;
  mret (List.find (fun row => bool_decide (dataset_id row = id))
          (db_dataset (_db self))).

(** [recordsForType.getDataId(id=id)], a query on the dynamic table. *)
Definition getDataId (storage : ByDimensionsDatasetRecordStorage) (id : Z)
  : M Manager DataCoordinate :=
  modify (with_db (db_log (Db_query_dynamic (st_dynamic storage) id)));;
  mret (storage_getDataId (st_dynamic storage) id).

(** The body of the loop of [refresh]: the storage of one row of the
    directory goes into the two new caches. *)
Definition refresh_row
  (caches : gmap string ByDimensionsDatasetRecordStorage
            * gmap Z ByDimensionsDatasetRecordStorage)
  (row : DatasetTypeRow)
  : M Manager (gmap string ByDimensionsDatasetRecordStorage
               * gmap Z ByDimensionsDatasetRecordStorage) :=
  let '(byName, byId) := caches in
  let name := row_name row in
  let dimensions := DimensionGraph_decode (row_dimensions_encoded row) in
  let datasetType :=
    {| dt_name := name; dt_dimensions := dimensions;
       dt_storageClass := getStorageClass (row_storage_class row);
       dt_isCalibration := false |} in
  dynamic ← db_getExistingTable (makeDynamicTableName datasetType);
  let storage :=
    {| st_datasetType := datasetType; st_dynamic := dynamic;
       _dataset_type_id := row_id row |} in
  mret (<[dt_name datasetType := storage]> byName,
        <[_dataset_type_id storage := storage]> byId).

Definition refresh : M Manager unit :=
  rows ← db_query_dataset_type;
  caches ← foldM refresh_row (∅, ∅) rows;
  modify (with_byName (fun _ => caches.1));;
  modify (with_byId (fun _ => caches.2)).

(** [self._byName.get(name)] *)
Definition find (name : string)
  : M Manager (option ByDimensionsDatasetRecordStorage) :=
  self ← get;
  mret (_byName self !! name).

(** Modelled from the spec: [datasetType.makeComponentDatasetType], which is
    not among the sources, is the dataset type of a declared component: the
    parent's name with the component's, the parent's dimensions, and the
    component's storage class. *)
Definition makeComponentDatasetType (datasetType : DatasetType)
  (component : string) (storageClass : StorageClass) : DatasetType :=
  {| dt_name := dt_name datasetType ++ "." ++ component;
     dt_dimensions := dt_dimensions datasetType;
     dt_storageClass := storageClass;
     dt_isCalibration := dt_isCalibration datasetType |}.

(** [register], by recursion on the storage class of the dataset type:
    [storageClass] is [datasetType.storageClass]. *)
Fixpoint register_at (storageClass : StorageClass) (datasetType : DatasetType)
  {struct storageClass} : M Manager (ByDimensionsDatasetRecordStorage * bool) :=
  match storageClass with
  | mkStorageClass storageClassName components =>
      self ← get;
      registered ←
        match _byName self !! dt_name datasetType with
        | None =>
            synced ← db_sync (dt_name datasetType)
                       (DimensionGraph_encode (dt_dimensions datasetType))
                       storageClassName;
            let '(row, inserted) := synced in
            dynamic ← db_ensureTableExists (makeDynamicTableName datasetType);
            let storage :=
              {| st_datasetType := datasetType; st_dynamic := Some dynamic;
                 _dataset_type_id := row_id row |} in
            modify (with_byName (<[dt_name datasetType := storage]>));;
            modify (with_byId (<[_dataset_type_id storage := storage]>));;
            mret (storage, inserted)
        | Some storage =>
            if decide (datasetType = st_datasetType storage)
            then mret (storage, false)
            else raise (ConflictingDefinitionError datasetType
                          (st_datasetType storage))
        end;
      let '(storage, inserted) := registered in
      (if inserted && dt_isComposite datasetType
       then (fix for_components (components : list (string * StorageClass))
               : M Manager unit :=
               match components with
               | [] => mret tt
               | (component, componentStorageClass) :: components' =>
                   register_at componentStorageClass
                     (makeComponentDatasetType datasetType component
                        componentStorageClass);;
                   for_components components'
               end) components
       else mret tt);;
      mret (storage, inserted)
  end.

Definition register (datasetType : DatasetType)
  : M Manager (ByDimensionsDatasetRecordStorage * bool) :=
  register_at (dt_storageClass datasetType) datasetType.

Definition getDatasetRef (id : Z)
  : M Manager (option (@DatasetRef DataCoordinate)) :=
  row ← db_query_dataset id;
  match row with
  | None => mret None
  | Some row =>
      self ← get;
      recordsForType ←
        match _byId self !! dataset_type_id row with
        | Some recordsForType => mret recordsForType
        | None =>
            refresh;;
            self ← get;
            match _byId self !! dataset_type_id row with
            | Some recordsForType => mret recordsForType
            | None =>
                raise (AssertionError
                         "Should be guaranteed by foreign key constraints.")
            end
        end;
      dataId ← getDataId recordsForType id;
      run ← match collections_getitem (dataset_run row) with
             | Some record => mret record
             | None => raise (KeyError "runKey")
             end;
      mret (Some {| ref_datasetType := st_datasetType recordsForType;
                    ref_dataId := dataId; ref_id := Some id;
                    ref_run := Some (cr_name run) |})
  end.

End Manager.

(** ** The vocabulary of the properties *)

(** Two dictionaries with the same keys and related values, whatever the
    order of insertion. *)
Definition dict_equiv {K V} `{EqDecision K} (R : V -> V -> Prop)
  (d1 d2 : dict K V) : Prop :=
  dict_wf d1 /\ dict_wf d2 /\
  forall k, option_Forall2 R (dict_get k d1) (dict_get k d2).

(** [x] comes before [y] in [l]. *)
Definition before {A} (x y : A) (l : list A) : Prop :=
  exists l1 l2 l3, l = l1 ++ x :: l2 ++ y :: l3.

(** The collections an export has accumulated: one record per name, filed
    under its own name. *)
Definition collections_wf (collections : dict string CollectionRecord)
  : Prop :=
  dict_wf collections /\
  forall name record, (name, record) ∈ collections -> cr_name record = name.

Definition is_chain (collections : dict string CollectionRecord)
  (name : string) : Prop :=
  exists record, (name, record) ∈ collections /\ cr_type record = CHAINED.

(** [child] is an accumulated chain that the accumulated chain [parent]
    lists as a child. *)
Definition chain_edge (collections : dict string CollectionRecord)
  (parent child : string) : Prop :=
  exists record,
    (parent, record) ∈ collections /\ cr_type record = CHAINED /\
    child ∈ cr_children record /\ is_chain collections child.

(** No chain reaches itself through children. *)
Definition acyclic (collections : dict string CollectionRecord) : Prop :=
  forall name, ~ tc (chain_edge collections) name name.

(** The children of an accumulated collection. *)
Definition children_of (collections : dict string CollectionRecord)
  (name : string) : list string :=
  match dict_get name collections with
  | Some record => cr_children record
  | None => []
  end.

Definition strictly_sorted (l : list string) : Prop :=
  StronglySorted (fun x y => String.ltb x y = true) l.

(** [batches] resolves the [pending] chains level by level: a batch holds,
    in lexicographic order, exactly the pending chains none of whose
    children is pending, and the next batches resolve what is left. *)
Fixpoint levels (children : string -> list string) (pending : string -> Prop)
  (batches : list (list string)) : Prop :=
  match batches with
  | [] => forall name, ~ pending name
  | batch :: batches' =>
      batch <> [] /\ strictly_sorted batch /\
      (forall name,
         name ∈ batch <->
         pending name /\
         forall child, child ∈ children name -> ~ pending child) /\
      levels children (fun name => pending name /\ name ∉ batch) batches'
  end.

(** ** Sample repositories *)

Definition chained (name : string) (children : list string)
  : CollectionRecord :=
  {| cr_name := name; cr_type := CHAINED; cr_children := children |}.

Definition collection (name : string) (type : CollectionType)
  : CollectionRecord :=
  {| cr_name := name; cr_type := type; cr_children := [] |}.

(** Three chains over a run and a tagged collection, inserted out of
    order; ["q"] is a child that was not exported. *)
Definition sample_collections : dict string CollectionRecord :=
  [("z", chained "z" ["a"; "m"]); ("b", collection "b" RUN);
   ("m", chained "m" ["b"; "q"]); ("a", collection "a" TAGGED);
   ("c", chained "c" [])].

(** Two chains that list each other. *)
Definition cyclic_collections : dict string CollectionRecord :=
  [("A", chained "A" ["B"]); ("B", chained "B" ["A"])].

(** Integer data IDs in their usual order, file datasets as their paths,
    and refs and associations in the order of the dataset id. *)
#[global] Instance Z_PyOrd : PyOrd Z := Z.ltb.

#[global] Instance sample_DatasetRef_PyOrd : PyOrd (@DatasetRef Z) :=
  fun a b => Z.ltb (default 0 (ref_id a)) (default 0 (ref_id b)).

#[global] Instance sample_DatasetAssociation_PyOrd
  : PyOrd (@DatasetAssociation Z) :=
  fun a b =>
    Z.ltb (default 0 (ref_id (assoc_ref a)))
      (default 0 (ref_id (assoc_ref b))).

Definition instrument : DimensionElement :=
  {| el_name := "instrument"; el_hasTable := true; el_viewOf := None |}.

Definition visit : DimensionElement :=
  {| el_name := "visit"; el_hasTable := true; el_viewOf := None |}.

Definition sample_record (element : DimensionElement) (dataId : Z)
  : @DimensionRecord Z :=
  {| rec_definition := element; rec_dataId := dataId; rec_fields := [] |}.

(** A calibration dataset type and a plain one. *)
Definition flat : DatasetType :=
  {| dt_name := "flat"; dt_dimensions := ["instrument"];
     dt_storageClass := mkStorageClass "Image" [];
     dt_isCalibration := true |}.

Definition raw : DatasetType :=
  {| dt_name := "raw"; dt_dimensions := ["instrument"; "visit"];
     dt_storageClass := mkStorageClass "Image" [];
     dt_isCalibration := false |}.

(** Dataset [id] of a dataset type, at visit [100 + id], in run ["run1"]. *)
Definition sample_ref (datasetType : DatasetType) (id : Z) : @DatasetRef Z :=
  {| ref_datasetType := datasetType; ref_dataId := 100 + id;
     ref_id := Some id; ref_run := Some "run1" |}.

Definition sample_association (datasetType : DatasetType) (id : Z)
  (collection : string) : @DatasetAssociation Z :=
  {| assoc_ref := sample_ref datasetType id; assoc_collection := collection;
     assoc_timespan := None |}.

(** A repository with a run, a tagged and a calibration collection, a chain
    over them, and two chains that list each other. *)
Definition sample_registry : @Registry Z :=
  {| reg_collections :=
       [collection "run1" RUN; collection "tagged" TAGGED;
        collection "calib" CALIBRATION; chained "chain" ["tagged"; "run1"];
        chained "A" ["B"]; chained "B" ["A"]];
     reg_dimensions := [instrument; visit];
     reg_RecordClass := fun element _ => sample_record element 0;
     reg_expandDataId := fun dataId =>
       Ok [Some (sample_record instrument 1);
           Some (sample_record visit dataId)];
     reg_documentation := fun name =>
       if decide (name = "run1") then Some "first run" else None;
     reg_associations :=
       [sample_association raw 1 "tagged"; sample_association raw 2 "tagged";
        sample_association raw 3 "tagged"; sample_association flat 4 "calib";
        sample_association raw 1 "untagged"] |}.

(** The datastore exports every dataset to one file named after its id. *)
Definition sample_datastore (ref : @DatasetRef Z)
  : Result (list string) :=
  Ok [match ref_id ref with
      | Some 1 => "a.fits"
      | Some 2 => "b.fits"
      | Some 4 => "d.fits"
      | _ => "z.fits"
      end].

Definition new_export : @RepoExportContext Z string :=
  __init__ sample_registry sample_datastore.

(** Two sessions that export the same collections and datasets, given in
    different orders and in differently split calls. *)
Definition session_one : @RepoExportContext Z string :=
  ((saveCollection "tagged";;
    saveCollection "calib";;
    saveCollection "chain";;
    saveDatasets [sample_ref raw 1; sample_ref raw 2; sample_ref flat 4]
      None None) new_export).1.

Definition session_two : @RepoExportContext Z string :=
  ((saveDatasets [sample_ref flat 4; sample_ref raw 2] None None;;
    saveCollection "chain";;
    saveCollection "calib";;
    saveDatasets [sample_ref raw 1] None None;;
    saveCollection "tagged") new_export).1.

(** A session that exports the two chains that list each other. *)
Definition cyclic_session : @RepoExportContext Z string :=
  ((saveCollection "A";;
    saveCollection "B";;
    saveDatasets [sample_ref raw 1] None None) new_export).1.

(** A configuration of the collaborators of the manager, over integer data
    IDs: storage classes without components come from the factory, a graph
    is encoded by its names joined with a plus sign, and run 1 is the only
    run. *)
#[global] Instance sample_Collaborators : Collaborators Z := {|
  getStorageClass := fun name => mkStorageClass name [];
  DimensionGraph_encode := String.concat "+";
  DimensionGraph_decode := fun encoded => [encoded];
  makeDynamicTableName := fun datasetType =>
    ("dataset_collection_" ++ String.concat "+" (dt_dimensions datasetType))%string;
  storage_getDataId := fun _ id => id;
  collections_getitem := fun key =>
    if decide (key = 1) then Some (collection "run1" RUN) else None
|}.

(** A composite storage class with two components. *)
Definition Exposure : StorageClass :=
  mkStorageClass "Exposure"
    [("wcs", mkStorageClass "Wcs" []); ("image", mkStorageClass "Image" [])].

Definition calexp : DatasetType :=
  {| dt_name := "calexp"; dt_dimensions := ["instrument"];
     dt_storageClass := Exposure; dt_isCalibration := false |}.

(** A dataset type of the same name with other dimensions. *)
Definition calexp_by_visit : DatasetType :=
  {| dt_name := "calexp"; dt_dimensions := ["visit"];
     dt_storageClass := Exposure; dt_isCalibration := false |}.

Definition empty_database : Database :=
  {| db_dataset_type := []; db_dataset := []; db_tables := [];
     db_next_id := 1; db_calls := [] |}.

(** The manager of a new repository. *)
Definition new_manager : ByDimensionsDatasetRecordStorageManager :=
  {| _db := empty_database; _byName := ∅; _byId := ∅ |}.

(** The manager after it has registered [calexp], and the storage it has
    cached for it. *)
Definition registered_manager : ByDimensionsDatasetRecordStorageManager :=
  (register calexp new_manager).1.

Definition calexp_storage : ByDimensionsDatasetRecordStorage :=
  {| st_datasetType := calexp;
     st_dynamic := Some "dataset_collection_instrument";
     _dataset_type_id := 1 |}.

(** The manager of a second process on a repository in which a first
    process has registered [calexp] and stored dataset 7 of that type in run
    1: the database has the rows, the caches of this manager are empty. *)
Definition stale_manager : ByDimensionsDatasetRecordStorageManager :=
  let db := _db (register calexp new_manager).1 in
  {| _db := {| db_dataset_type := db_dataset_type db;
               db_dataset := [{| dataset_id := 7; dataset_run := 1;
                                 dataset_type_id := 1 |}];
               db_tables := db_tables db; db_next_id := db_next_id db;
               db_calls := [] |};
     _byName := ∅; _byId := ∅ |}.

(** * Properties *)

(** ** Sorting *)

Lemma ascii_compare_N (a b : ascii) :
  Ascii.compare a b = N.compare (N_of_ascii a) (N_of_ascii b).
Proof. reflexivity. Qed.

Lemma string_compare_refl (s : string) : String.compare s s = Eq.
Proof. induction s as [|a s IH]; simpl; [done|].
  rewrite ascii_compare_N, N.compare_refl. exact IH. Qed.

Lemma string_compare_trans_not_Gt (x y z : string) :
  String.compare x y <> Gt -> String.compare y z <> Gt ->
  String.compare x z <> Gt.
Proof.
  revert y z. induction x as [|a x IH]; intros [|b y] [|c z]; simpl; try done.
  rewrite !ascii_compare_N.
  destruct (N.compare_spec (N_of_ascii a) (N_of_ascii b)) as [Hab|Hab|Hab];
    destruct (N.compare_spec (N_of_ascii b) (N_of_ascii c)) as [Hbc|Hbc|Hbc];
    destruct (N.compare_spec (N_of_ascii a) (N_of_ascii c)) as [Hac|Hac|Hac];
    try done; try lia.
  apply IH.
Qed.

Lemma string_ltb_false (x y : string) :
  String.ltb x y = false <-> String.compare x y <> Lt.
Proof. unfold String.ltb. destruct (String.compare x y); split; done. Qed.

#[global] Instance string_PyTotalOrder : PyTotalOrder string.
Proof.
  split; [split|]; unfold py_le, py_lt, string_PyOrd.
  - intros x y Hxy. apply string_ltb_false.
    unfold String.ltb in Hxy. rewrite String.compare_antisym.
    by destruct (String.compare x y).
  - intros x y z Hxy Hyz. apply string_ltb_false.
    apply string_ltb_false in Hxy, Hyz.
    rewrite String.compare_antisym in Hxy, Hyz |- *.
    pose proof (string_compare_trans_not_Gt x y z) as Ht.
    destruct (String.compare x y), (String.compare y z),
      (String.compare x z); simpl in *; try done;
      exfalso; by apply Ht.
  - intros x y Hxy Hyx. apply string_ltb_false in Hxy, Hyx.
    apply String.compare_eq_iff. rewrite String.compare_antisym in Hxy.
    by destruct (String.compare x y).
Qed.

#[global] Instance string_PyWeakOrder : PyWeakOrder string :=
  @py_total_weak string _ string_PyTotalOrder.

(** Dataset types are compared by name: they tie when the names agree. *)
#[global] Instance DatasetType_PyWeakOrder : PyWeakOrder DatasetType.
Proof.
  split; unfold py_le, py_lt, DatasetType_PyOrd.
  - intros x y. apply (py_lt_asym (A:=string)).
  - intros x y z. apply (py_le_trans (A:=string)).
Qed.

Section Sorting.

Context {A : Type} `{PyOrd A}.

Lemma insort_Permutation (x : A) (l : list A) : insort x l ≡ₚ x :: l.
Proof.
  induction l as [|y l IH]; simpl; [done|].
  destruct (py_lt y x); [|done].
  rewrite IH. apply Permutation_swap.
Qed.

Lemma sorted_Permutation (l : list A) : sorted l ≡ₚ l.
Proof.
  induction l as [|x l IH]; simpl; [done|].
  by rewrite insort_Permutation, IH.
Qed.

Lemma sorted_elem_of (x : A) (l : list A) : x ∈ sorted l <-> x ∈ l.
Proof. by rewrite sorted_Permutation. Qed.

Lemma sorted_length (l : list A) : length (sorted l) = length l.
Proof. by rewrite sorted_Permutation. Qed.

Lemma sorted_nil_inv (l : list A) : sorted l = [] -> l = [].
Proof.
  intros Hs. apply Permutation_nil_r. rewrite <- Hs.
  symmetry. apply sorted_Permutation.
Qed.

Context `{!PyWeakOrder A}.

Lemma insort_StronglySorted (x : A) (l : list A) :
  StronglySorted py_le l -> StronglySorted py_le (insort x l).
Proof.
  induction 1 as [|y l Hl IH Hy]; simpl.
  - repeat constructor.
  - destruct (py_lt y x) eqn:Hyx.
    + constructor; [done|].
      rewrite insort_Permutation. constructor; [|done].
      by apply py_lt_asym.
    + constructor; [by constructor|].
      constructor; [done|].
      eapply Forall_impl; [exact Hy|].
      intros z Hz. by eapply py_le_trans.
Qed.

Lemma sorted_StronglySorted (l : list A) : StronglySorted py_le (sorted l).
Proof.
  induction l as [|x l IH]; simpl; [constructor|].
  by apply insort_StronglySorted.
Qed.

(** Two lists with the same elements sort to the same list, when no two
    different elements of them tie. *)
Lemma sorted_unique (l1 l2 : list A) :
  (forall x y, x ∈ l1 -> y ∈ l1 -> py_le x y -> py_le y x -> x = y) ->
  l1 ≡ₚ l2 -> sorted l1 = sorted l2.
Proof.
  intros Hanti Hperm.
  apply (StronglySorted_unique_strong py_le).
  - intros x y Hx Hy. rewrite sorted_elem_of in Hx, Hy.
    rewrite <- Hperm in Hy. by apply Hanti.
  - apply sorted_StronglySorted.
  - apply sorted_StronglySorted.
  - by rewrite !sorted_Permutation.
Qed.

End Sorting.

Lemma sorted_total_unique {A} `{PyTotalOrder A} (l1 l2 : list A) :
  l1 ≡ₚ l2 -> sorted l1 = sorted l2.
Proof.
  apply sorted_unique. intros x y _ _. apply py_le_antisym.
Qed.

(** ** Dictionaries *)

Section Dict.

Context {K V : Type} `{EqDecision K}.
Implicit Types (d : dict K V) (k : K) (v : V).

Lemma dict_get_None k d : dict_get k d = None <-> k ∉ dict_keys d.
Proof.
  induction d as [|[k' v'] d IH]; cbn [dict_get dict_keys map fst].
  - split; [intros _; apply not_elem_of_nil|done].
  - rewrite not_elem_of_cons. destruct (decide (k = k')) as [->|Hne].
    + split; [done|]. by intros [? _].
    + unfold dict_keys in IH. rewrite IH. split; [done|]. by intros [_ ?].
Qed.

Lemma dict_get_Some_elem_of k v d : dict_get k d = Some v -> (k, v) ∈ d.
Proof.
  induction d as [|[k' v'] d IH]; simpl; [done|].
  case_decide; [intros [= ->]; subst; left|right; auto].
Qed.

Lemma dict_get_elem_of k v d :
  dict_wf d -> (k, v) ∈ d -> dict_get k d = Some v.
Proof.
  unfold dict_wf. induction d as [|[k' v'] d IH]; simpl.
  - by intros _ ?%elem_of_nil.
  - rewrite NoDup_cons. intros [Hk Hd] Hin.
    apply elem_of_cons in Hin as [Heq|Hin].
    + injection Heq as -> ->. by rewrite decide_True.
    + rewrite decide_False; [auto|].
      intros ->. apply Hk. apply (list_elem_of_fmap_2 fst _ _ Hin).
Qed.

Lemma dict_get_is_Some k d : is_Some (dict_get k d) <-> k ∈ dict_keys d.
Proof.
  rewrite <- not_eq_None_Some, dict_get_None.
  destruct (decide (k ∈ dict_keys d)); naive_solver.
Qed.

Lemma dict_set_fresh k v d :
  k ∉ dict_keys d -> dict_set k v d = d ++ [(k, v)].
Proof.
  induction d as [|[k' v'] d IH]; simpl; [done|].
  rewrite not_elem_of_cons. intros [Hne Hk].
  rewrite decide_False by done. by rewrite IH.
Qed.

Lemma dict_keys_set k v d :
  dict_keys (dict_set k v d)
  = if decide (k ∈ dict_keys d) then dict_keys d else dict_keys d ++ [k].
Proof.
  induction d as [|[k' v'] d IH].
  - destruct (decide (k ∈ dict_keys [])) as [Hin|_]; [|done].
    by apply elem_of_nil in Hin.
  - unfold dict_keys in *. cbn [dict_set map fst] in *.
    destruct (decide (k = k')) as [->|Hne].
    + destruct (decide (k' ∈ k' :: map fst d)) as [_|Hn]; [done|].
      exfalso. apply Hn. left.
    + cbn [map fst]. rewrite IH.
      destruct (decide (k ∈ map fst d)) as [Hin|Hin];
        destruct (decide (k ∈ k' :: map fst d)) as [Hin'|Hin']; try done.
      * exfalso. apply Hin'. by right.
      * apply elem_of_cons in Hin' as [?|?]; done.
Qed.

Lemma dict_set_wf k v d : dict_wf d -> dict_wf (dict_set k v d).
Proof.
  unfold dict_wf. rewrite dict_keys_set. case_decide; [done|].
  intros Hd. apply NoDup_app. split_and!; [done| |apply NoDup_singleton].
  intros x Hx ->%list_elem_of_singleton. done.
Qed.

Lemma dict_get_set k k' v d :
  dict_get k' (dict_set k v d)
  = if decide (k' = k) then Some v else dict_get k' d.
Proof.
  induction d as [|[k0 v0] d IH]; simpl.
  - by destruct (decide (k' = k)).
  - destruct (decide (k = k0)) as [->|Hne]; simpl.
    + by destruct (decide (k' = k0)).
    + rewrite IH. destruct (decide (k' = k0)) as [->|]; [|done].
      rewrite decide_False; [done|congruence].
Qed.

Lemma elem_of_dict_set k v k' v' d :
  dict_wf d ->
  (k', v') ∈ dict_set k v d <->
  (k' = k /\ v' = v) \/ (k' <> k /\ (k', v') ∈ d).
Proof.
  intros Hd. split.
  - intros Hin. apply dict_get_elem_of in Hin; [|by apply dict_set_wf].
    rewrite dict_get_set in Hin. case_decide; [naive_solver|].
    right. split; [done|]. by apply dict_get_Some_elem_of.
  - intros [[-> ->]|[Hne Hin]]; apply dict_get_Some_elem_of;
      rewrite dict_get_set.
    + by rewrite decide_True.
    + rewrite decide_False by done. by apply dict_get_elem_of.
Qed.

Lemma dict_del_filter k d :
  dict_wf d ->
  dict_del k d = List.filter (fun kv => bool_decide (kv.1 <> k)) d.
Proof.
  unfold dict_wf. induction d as [|[k' v'] d IH]; simpl; [done|].
  rewrite NoDup_cons. intros [Hk Hd].
  destruct (decide (k = k')) as [->|Hne].
  - rewrite bool_decide_false by naive_solver.
    symmetry. apply forallb_filter_id. apply forallb_forall.
    intros [k0 v0] Hin%list_elem_of_In. apply bool_decide_eq_true_2. simpl.
    intros ->. apply Hk. apply (list_elem_of_fmap_2 fst _ _ Hin).
  - rewrite bool_decide_true by naive_solver. by rewrite IH.
Qed.

Lemma dict_same_get k d1 d2 :
  dict_same d1 d2 -> dict_get k d1 = dict_get k d2.
Proof.
  intros (Hd1 & Hd2 & Hperm).
  destruct (dict_get k d1) as [v|] eqn:Hg.
  - symmetry. apply dict_get_elem_of; [done|].
    rewrite <- Hperm. by apply dict_get_Some_elem_of.
  - symmetry. apply dict_get_None. apply dict_get_None in Hg.
    unfold dict_keys. by rewrite <- Hperm.
Qed.

Lemma dict_same_keys d1 d2 : dict_same d1 d2 -> dict_keys d1 ≡ₚ dict_keys d2.
Proof. intros (_ & _ & Hperm). unfold dict_keys. by rewrite Hperm. Qed.

Lemma dict_same_refl d : dict_wf d -> dict_same d d.
Proof. by intros Hd. Qed.

Lemma dict_same_sym d1 d2 : dict_same d1 d2 -> dict_same d2 d1.
Proof. by intros (? & ? & ?). Qed.

End Dict.

(** ** A finite graph without sinks has a cycle *)

Lemma list_nonempty_elem_of {A} (l : list A) : l <> [] -> exists x, x ∈ l.
Proof. destruct l as [|x l]; [done|]. intros _. exists x. left. Qed.

Section Walk.

Context {A : Type} `{EqDecision A} (R : relation A) (nodes : list A).
Hypothesis successor : forall x, x ∈ nodes -> exists y, y ∈ nodes /\ R x y.

Lemma walk_finds_cycle (n : nat) (visited : list A) (x : A) :
  NoDup (x :: visited) ->
  (forall v, v ∈ x :: visited -> v ∈ nodes) ->
  (forall v, v ∈ visited -> tc R v x) ->
  (length nodes <= n + length (x :: visited))%nat ->
  exists y, tc R y y.
Proof.
  revert visited x.
  induction n as [|n IH]; intros visited x Hnd Hsub Hreach Hlen.
  - destruct (successor x) as (y & Hy & Hxy); [apply Hsub; left|].
    destruct (decide (y ∈ x :: visited)) as [Hin|Hnin].
    + apply elem_of_cons in Hin as [->|Hin]; [exists x; by apply tc_once|].
      exists y. eapply tc_r; [by apply Hreach|done].
    + exfalso.
      assert (length (y :: x :: visited) <= length nodes)%nat as Hle.
      { apply submseteq_length, NoDup_submseteq.
        - by apply NoDup_cons.
        - intros v [->|Hv]%elem_of_cons; [done|by apply Hsub]. }
      simpl in *. lia.
  - destruct (successor x) as (y & Hy & Hxy); [apply Hsub; left|].
    destruct (decide (y ∈ x :: visited)) as [Hin|Hnin].
    + apply elem_of_cons in Hin as [->|Hin]; [exists x; by apply tc_once|].
      exists y. eapply tc_r; [by apply Hreach|done].
    + apply (IH (x :: visited) y).
      * by apply NoDup_cons.
      * intros v [->|Hv]%elem_of_cons; [done|by apply Hsub].
      * intros v [->|Hv]%elem_of_cons; [by apply tc_once|].
        eapply tc_r; [by apply Hreach|done].
      * simpl in *. lia.
Qed.

Lemma no_sink_cycle : nodes <> [] -> exists y, tc R y y.
Proof.
  intros [x Hx]%list_nonempty_elem_of.
  apply (walk_finds_cycle (length nodes) [] x).
  - apply NoDup_singleton.
  - by intros v ->%list_elem_of_singleton.
  - by intros v ?%elem_of_nil.
  - simpl. lia.
Qed.

End Walk.

(** ** The loop of [_computeSortedCollections] *)

(** The dependencies among the chains that are still pending. *)
Definition chains_edge (chains : dict string (list string))
  (parent child : string) : Prop :=
  exists children,
    (parent, children) ∈ chains /\ child ∈ children /\
    child ∈ dict_keys chains.

Definition chains_children (chains : dict string (list string))
  (name : string) : list string :=
  default [] (dict_get name chains).

Lemma dict_mem_true {K V} `{EqDecision K} (k : K) (d : dict K V) :
  dict_mem k d = true <-> k ∈ dict_keys d.
Proof. unfold dict_mem. apply bool_decide_eq_true. Qed.

Lemma existsb_mem_false (chains : dict string (list string))
  (children : list string) :
  existsb (fun child => dict_mem child chains) children = false <->
  forall child, child ∈ children -> child ∉ dict_keys chains.
Proof.
  rewrite <- Bool.not_true_iff_false, existsb_exists. split.
  - intros Hn child Hin Hmem. apply Hn. exists child.
    split; [by apply list_elem_of_In|by apply dict_mem_true].
  - intros Hall (child & Hin%list_elem_of_In & Hmem%dict_mem_true).
    by apply (Hall child).
Qed.

Lemma elem_of_unblocked_chains (chains : dict string (list string))
  (parent : string) :
  parent ∈ unblocked_chains chains <->
  exists children,
    (parent, children) ∈ chains /\
    forall child, child ∈ children -> child ∉ dict_keys chains.
Proof.
  unfold unblocked_chains, dict_keys. rewrite list_elem_of_fmap. split.
  - intros ([p children] & -> & Hin). apply list_elem_of_In in Hin.
    apply filter_In in Hin as [Hin Hf]. exists children.
    split; [by apply list_elem_of_In|].
    apply existsb_mem_false. by apply Bool.negb_true_iff.
  - intros (children & Hin & Hall). exists (parent, children).
    split; [done|]. apply list_elem_of_In, filter_In.
    split; [by apply list_elem_of_In|].
    apply Bool.negb_true_iff. by apply existsb_mem_false.
Qed.

Lemma elem_of_unblocked_chains_wf (chains : dict string (list string))
  (parent : string) :
  dict_wf chains ->
  parent ∈ unblocked_chains chains <->
  parent ∈ dict_keys chains /\
  forall child,
    child ∈ chains_children chains parent -> child ∉ dict_keys chains.
Proof.
  intros Hwf. rewrite elem_of_unblocked_chains. unfold chains_children.
  split.
  - intros (children & Hin & Hall).
    rewrite (dict_get_elem_of _ _ _ Hwf Hin). simpl.
    split; [|done]. apply (list_elem_of_fmap_2 fst _ _ Hin).
  - intros [Hkey Hall]. apply dict_get_is_Some in Hkey as [children Hget].
    rewrite Hget in Hall. exists children.
    split; [by apply dict_get_Some_elem_of|done].
Qed.

(** When every pending chain is blocked, some chain reaches itself. *)
Lemma unblocked_chains_nil_cycle (chains : dict string (list string)) :
  chains <> [] -> unblocked_chains chains = [] ->
  exists name, tc (chains_edge chains) name name.
Proof.
  intros Hne Hnil.
  apply (no_sink_cycle (chains_edge chains) (dict_keys chains)).
  - intros parent ([p children] & -> & Hin)%list_elem_of_fmap. simpl.
    destruct (existsb (fun child => dict_mem child chains) children)
      eqn:Hex.
    + apply existsb_exists in Hex
        as (child & Hc%list_elem_of_In & Hmem%dict_mem_true).
      exists child. split; [done|]. by exists children.
    + exfalso. pose proof (proj1 (existsb_mem_false _ _) Hex) as Hall.
      assert (p ∈ unblocked_chains chains) as Hp.
      { apply elem_of_unblocked_chains. by exists children. }
      rewrite Hnil in Hp. by apply elem_of_nil in Hp.
  - unfold dict_keys. by destruct chains.
Qed.

Lemma dict_wf_filter {K V} (f : K * V -> bool) (d : dict K V) :
  dict_wf d -> dict_wf (List.filter f d).
Proof.
  unfold dict_wf, dict_keys. induction d as [|[k v] d IH]; simpl; [done|].
  rewrite NoDup_cons. intros [Hk Hd]. destruct (f (k, v)); simpl; [|auto].
  apply NoDup_cons. split; [|auto].
  intros ([k' v'] & Heq & Hin%list_elem_of_In)%list_elem_of_fmap.
  simpl in Heq. subst k'. apply filter_In in Hin as [Hin%list_elem_of_In _].
  apply Hk. apply (list_elem_of_fmap_2 fst _ _ Hin).
Qed.

(** Deleting the names of a batch leaves the chains outside the batch. *)
Lemma delete_batch (chains : dict string (list string))
  (names : list string) :
  dict_wf chains ->
  foldl (fun chains name => dict_del name chains) chains names
  = List.filter (fun kv => bool_decide (kv.1 ∉ names)) chains.
Proof.
  revert chains. induction names as [|name names IH]; intros chains Hwf.
  - simpl. symmetry. apply forallb_filter_id, forallb_forall.
    intros kv _. reflexivity.
  - simpl. rewrite IH, dict_del_filter by
      (try rewrite dict_del_filter by done; try apply dict_wf_filter; done).
    clear. induction chains as [|[k v] chains IHc]; simpl; [done|].
    destruct (decide (k = name)) as [->|Hne].
    + rewrite bool_decide_false by naive_solver.
      rewrite (bool_decide_false (name ∉ name :: names)); [done|].
      intros Hn. apply Hn. left.
    + rewrite bool_decide_true by done. simpl.
      destruct (decide (k ∈ names)) as [Hin|Hnin].
      * rewrite !bool_decide_false; [done| |]; intros Hn; apply Hn;
          [by right|done].
      * rewrite !bool_decide_true; [by rewrite IHc| |done].
        by intros [?|?]%elem_of_cons.
Qed.

Lemma filter_Permutation_bool {A} (f : A -> bool) (l1 l2 : list A) :
  l1 ≡ₚ l2 -> List.filter f l1 ≡ₚ List.filter f l2.
Proof.
  induction 1 as [|x l1 l2 _ IH|x y l|l1 l2 l3 _ IH1 _ IH2]; simpl.
  - done.
  - destruct (f x); by rewrite IH.
  - destruct (f x), (f y); try done. apply Permutation_swap.
  - by rewrite IH1.
Qed.

Lemma elem_of_filter_bool {A} (f : A -> bool) (l : list A) (x : A) :
  x ∈ List.filter f l <-> x ∈ l /\ f x = true.
Proof. by rewrite !list_elem_of_In, filter_In. Qed.

Lemma NoDup_filter_bool {A} (f : A -> bool) (l : list A) :
  NoDup l -> NoDup (List.filter f l).
Proof.
  induction 1 as [|x l Hx Hl IH]; simpl; [constructor|].
  destruct (f x); [|done]. constructor; [|done].
  rewrite elem_of_filter_bool. by intros [? _].
Qed.

Lemma strictly_sorted_intro (l : list string) :
  NoDup l -> StronglySorted py_le l -> strictly_sorted l.
Proof.
  intros Hnd Hs. induction Hs as [|x l Hs IH Hx]; [constructor|].
  apply NoDup_cons in Hnd as [Hxl Hnd]. constructor; [by apply IH|].
  apply Forall_forall. intros y Hy.
  rewrite Forall_forall in Hx. specialize (Hx y Hy).
  destruct (String.ltb x y) eqn:Hlt; [done|].
  exfalso. apply Hxl.
  by rewrite (py_le_antisym x y Hx Hlt).
Qed.

Lemma sorted_strictly_sorted (l : list string) :
  NoDup l -> strictly_sorted (sorted l).
Proof.
  intros Hnd. apply strictly_sorted_intro.
  - by rewrite sorted_Permutation.
  - apply sorted_StronglySorted.
Qed.

Lemma strictly_sorted_NoDup (l : list string) : strictly_sorted l -> NoDup l.
Proof.
  induction 1 as [|x l Hs IH Hx]; [constructor|].
  apply NoDup_cons. split; [|done]. intros Hin.
  rewrite Forall_forall in Hx. specialize (Hx x Hin).
  unfold String.ltb in Hx. by rewrite string_compare_refl in Hx.
Qed.

Lemma strictly_sorted_unique (l1 l2 : list string) :
  strictly_sorted l1 -> strictly_sorted l2 ->
  (forall x, x ∈ l1 <-> x ∈ l2) -> l1 = l2.
Proof.
  intros H1 H2 Hiff.
  apply (StronglySorted_unique_strong (fun x y => String.ltb x y = true));
    [|done|done|].
  - intros x y _ _ Hxy Hyx.
    pose proof (py_lt_asym (A:=string) x y Hxy) as Hn.
    unfold py_lt, string_PyOrd in Hn. congruence.
  - apply NoDup_Permutation; auto using strictly_sorted_NoDup.
Qed.

Lemma levels_ext (children children' : string -> list string)
  (pending pending' : string -> Prop) (batches : list (list string)) :
  (forall name, pending name -> children name = children' name) ->
  (forall name, pending name <-> pending' name) ->
  levels children pending batches -> levels children' pending' batches.
Proof.
  revert pending pending'. induction batches as [|batch batches IH];
    intros pending pending' Hext Hiff; simpl.
  - intros Hnone name Hn. apply (Hnone name). by apply Hiff.
  - intros (Hne & Hsorted & Hbatch & Hrest). split_and!; [done|done| |].
    + intros name. rewrite Hbatch. split.
      * intros [Hp Hall]. split; [by apply Hiff|].
        intros child Hc Hpc. apply (Hall child); [|by apply Hiff].
        by rewrite (Hext name Hp).
      * intros [Hp Hall]. apply Hiff in Hp. split; [done|].
        intros child Hc Hpc. apply (Hall child); [|by apply Hiff].
        by rewrite <- (Hext name Hp).
    + apply (IH (fun name => pending name /\ name ∉ batch)); [|  |done].
      * intros name [Hp _]. by apply Hext.
      * intros name. by rewrite Hiff.
Qed.

Lemma dict_keys_filter_fst {K V} (f : K -> bool) (d : dict K V) :
  dict_keys (List.filter (fun kv => f kv.1) d) = List.filter f (dict_keys d).
Proof.
  unfold dict_keys. induction d as [|[k v] d IH]; simpl; [done|].
  destruct (f k); simpl; by rewrite IH.
Qed.

Lemma dict_get_filter_fst {K V} `{EqDecision K} (f : K -> bool) (k : K)
  (d : dict K V) :
  f k = true -> dict_get k (List.filter (fun kv => f kv.1) d) = dict_get k d.
Proof.
  intros Hk. induction d as [|[k' v] d IH]; simpl; [done|].
  destruct (f k') eqn:Hf; simpl.
  - by rewrite IH.
  - rewrite IH. destruct (decide (k = k')) as [->|]; [congruence|done].
Qed.

Lemma filter_length_lt {A} (f : A -> bool) (l : list A) (x : A) :
  x ∈ l -> f x = false -> (length (List.filter f l) < length l)%nat.
Proof.
  induction l as [|y l IH]; [by intros ?%elem_of_nil|].
  intros [->|Hin]%elem_of_cons Hf; simpl.
  - rewrite Hf. pose proof (filter_length_le f l). lia.
  - specialize (IH Hin Hf). destruct (f y); simpl; lia.
Qed.

Lemma chains_edge_filter (f : string -> bool)
  (chains : dict string (list string)) (parent child : string) :
  chains_edge (List.filter (fun kv => f kv.1) chains) parent child ->
  chains_edge chains parent child.
Proof.
  intros (children & Hin%list_elem_of_In & Hc & Hkey). exists children.
  apply filter_In in Hin as [Hin%list_elem_of_In _]. split_and!; [done..|].
  rewrite dict_keys_filter_fst in Hkey. apply list_elem_of_In in Hkey.
  apply filter_In in Hkey as [Hkey _]. by apply list_elem_of_In.
Qed.

Lemma sort_chains_step (fuel : nat) (chains : dict string (list string))
  (result : list string) :
  chains <> [] ->
  sort_chains (S fuel) chains result
  = match unblocked_chains chains with
    | [] => Raise (RuntimeError cycle_message [])
    | _ :: _ =>
        sort_chains fuel
          (foldl (fun chains name => dict_del name chains) chains
             (unblocked_chains chains))
          (result ++ sorted (unblocked_chains chains))
    end.
Proof.
  destruct chains as [|kv chains]; [done|]. intros _. simpl.
  by destruct (unblocked_chains (kv :: chains)).
Qed.

(** With enough fuel the loop either finds every pending chain blocked,
    which happens only when some chain reaches itself, or resolves the chains
    level by level and appends the levels to the result. *)
Lemma sort_chains_cases (fuel : nat) (chains : dict string (list string))
  (result : list string) :
  dict_wf chains -> (length chains <= fuel)%nat ->
  (sort_chains fuel chains result = Raise (RuntimeError cycle_message []) /\
   exists name, tc (chains_edge chains) name name) \/
  (exists batches,
     sort_chains fuel chains result = Ok (result ++ concat batches) /\
     levels (chains_children chains) (fun name => name ∈ dict_keys chains)
       batches).
Proof.
  revert chains result.
  induction fuel as [|fuel IH]; intros chains result Hwf Hlen.
  - destruct chains; [|simpl in Hlen; lia].
    right. exists []. simpl. rewrite app_nil_r.
    split; [done|]. intros name. apply not_elem_of_nil.
  - destruct (decide (chains = [])) as [->|Hne].
    { right. exists []. simpl. rewrite app_nil_r.
      split; [done|]. intros name. apply not_elem_of_nil. }
    rewrite sort_chains_step by done.
    destruct (unblocked_chains chains) as [|u us] eqn:Hunb.
    { left. split; [done|]. by apply unblocked_chains_nil_cycle. }
    rewrite <- Hunb. rewrite delete_batch by done.
    assert (u ∈ unblocked_chains chains) as Hfirst by (rewrite Hunb; left).
    assert (unblocked_chains chains <> []) as Hbne by (by rewrite Hunb).
    clear Hunb. set (batch := unblocked_chains chains) in *.
    set (keep := fun name : string => bool_decide (name ∉ batch)).
    destruct (IH (List.filter (fun kv => keep kv.1) chains)
                (result ++ sorted batch))
      as [[Hrun (name & Hcycle)]|(batches & Hrun & Hlevels)].
    + by apply dict_wf_filter.
    + apply elem_of_unblocked_chains in Hfirst as Hf.
      destruct Hf as (children & Hin & _).
      pose proof (filter_length_lt (fun kv => keep kv.1) chains
                    (u, children) Hin) as Hlt.
      unfold keep in Hlt at 1. simpl in Hlt.
      rewrite bool_decide_false in Hlt by (intros Hn; by apply Hn).
      specialize (Hlt eq_refl). lia.
    + left. split; [exact Hrun|]. exists name.
      apply (tc_congruence id (chains_edge chains)) in Hcycle; [done|].
      intros x y. apply chains_edge_filter.
    + right. exists (sorted batch :: batches). split.
      { etrans; [exact Hrun|]. simpl. by rewrite app_assoc. }
      simpl. split_and!.
      * intros Hs. by apply sorted_nil_inv in Hs.
      * apply sorted_strictly_sorted. unfold batch, unblocked_chains.
        apply (dict_wf_filter _ _ Hwf).
      * intros name. rewrite sorted_elem_of.
        apply elem_of_unblocked_chains_wf; done.
      * eapply levels_ext; [| |exact Hlevels].
        -- intros name. rewrite dict_keys_filter_fst.
           intros [_ Hkeep]%elem_of_filter_bool.
           unfold chains_children. by rewrite dict_get_filter_fst.
        -- intros name. rewrite dict_keys_filter_fst, elem_of_filter_bool.
           unfold keep. by rewrite bool_decide_eq_true, sorted_elem_of.
Qed.

Lemma levels_Permutation (children : string -> list string)
  (pending : string -> Prop) (names : list string)
  (batches : list (list string)) :
  NoDup names -> (forall name, name ∈ names <-> pending name) ->
  levels children pending batches -> concat batches ≡ₚ names.
Proof.
  revert pending names. induction batches as [|batch batches IH];
    intros pending names Hnd Hnames; simpl.
  - intros Hnone. destruct names as [|name names]; [done|].
    exfalso. apply (Hnone name), Hnames. left.
  - intros (_ & Hsorted & Hbatch & Hrest).
    rewrite (IH (fun name => pending name /\ name ∉ batch)
               (List.filter (fun name => bool_decide (name ∉ batch)) names)
               (NoDup_filter_bool _ _ Hnd)); [| |done].
    + apply NoDup_Permutation; [|done|].
      * apply NoDup_app. split_and!.
        -- by apply strictly_sorted_NoDup.
        -- intros x Hx [_ Hf%bool_decide_eq_true]%elem_of_filter_bool. done.
        -- by apply NoDup_filter_bool.
      * intros x. rewrite elem_of_app, elem_of_filter_bool. split.
        -- intros [Hx|[Hx _]]; [|done].
           apply Hnames. by apply Hbatch in Hx as [? _].
        -- intros Hin. destruct (decide (x ∈ batch)) as [Hb|Hb]; [by left|].
           right. split; [done|]. by apply bool_decide_eq_true_2.
    + intros name. rewrite elem_of_filter_bool, bool_decide_eq_true.
      by rewrite Hnames.
Qed.

Lemma before_app_l {A} (x y : A) (l0 l : list A) :
  before x y l -> before x y (l0 ++ l).
Proof.
  intros (l1 & l2 & l3 & ->). exists (l0 ++ l1), l2, l3.
  by rewrite <- app_assoc.
Qed.

Lemma before_app {A} (x y : A) (l l' : list A) :
  x ∈ l -> y ∈ l' -> before x y (l ++ l').
Proof.
  intros (l1 & l2 & ->)%list_elem_of_split (m1 & m2 & ->)%list_elem_of_split.
  exists l1, (l2 ++ m1), m2. by rewrite <- !app_assoc.
Qed.

Lemma levels_elem_of (children : string -> list string)
  (pending : string -> Prop) (batches : list (list string)) (name : string) :
  levels children pending batches ->
  name ∈ concat batches -> pending name.
Proof.
  revert pending. induction batches as [|batch batches IH];
    intros pending; simpl.
  - by intros _ ?%elem_of_nil.
  - intros (_ & _ & Hbatch & Hrest) [Hin|Hin]%elem_of_app.
    + by apply Hbatch in Hin as [? _].
    + by apply (IH _ Hrest) in Hin as [? _].
Qed.

(** Every pending chain is resolved, in the batch after those of its
    pending children. *)
Lemma levels_complete (children : string -> list string)
  (pending : string -> Prop) (batches : list (list string)) (name : string) :
  levels children pending batches -> pending name ->
  name ∈ concat batches.
Proof.
  revert pending. induction batches as [|batch batches IH];
    intros pending; simpl.
  - intros Hnone Hp. by apply Hnone in Hp.
  - intros (_ & _ & Hbatch & Hrest) Hp. apply elem_of_app.
    destruct (decide (name ∈ batch)) as [Hb|Hb]; [by left|right].
    by apply (IH _ Hrest).
Qed.

Lemma levels_before (children : string -> list string)
  (pending : string -> Prop) (batches : list (list string))
  (parent child : string) :
  levels children pending batches ->
  pending parent -> child ∈ children parent -> pending child ->
  before child parent (concat batches).
Proof.
  revert pending. induction batches as [|batch batches IH];
    intros pending; simpl.
  - intros Hnone Hp. by apply Hnone in Hp.
  - intros (_ & Hsorted & Hbatch & Hrest) Hp Hc Hcp.
    assert (parent ∉ batch) as Hpb.
    { intros [_ Hall]%Hbatch. by apply (Hall child). }
    destruct (decide (child ∈ batch)) as [Hcb|Hcb].
    + apply before_app; [done|]. by apply (levels_complete _ _ _ _ Hrest).
    + apply before_app_l. by apply (IH _ Hrest).
Qed.

Lemma existsb_pointwise {A} (f g : A -> bool) (l : list A) :
  (forall x, f x = g x) -> existsb f l = existsb g l.
Proof. intros Hfg. induction l as [|x l IH]; simpl; [done|]. by rewrite Hfg, IH. Qed.

(** The loop does not see the order in which the chains were inserted. *)
Lemma unblocked_chains_Permutation (chains chains' : dict string (list string)) :
  chains ≡ₚ chains' ->
  unblocked_chains chains ≡ₚ unblocked_chains chains'.
Proof.
  intros Hperm. unfold unblocked_chains, dict_keys.
  apply fmap_Permutation.
  rewrite (filter_ext _
             (fun '(parent, children) =>
                negb (existsb (fun child => dict_mem child chains') children))).
  - by apply filter_Permutation_bool.
  - intros [parent children]. f_equal. apply existsb_pointwise. intros child.
    unfold dict_mem, dict_keys. apply bool_decide_ext. by rewrite Hperm.
Qed.

Lemma sort_chains_Permutation (fuel : nat)
  (chains chains' : dict string (list string)) (result : list string) :
  dict_wf chains -> chains ≡ₚ chains' ->
  sort_chains fuel chains result = sort_chains fuel chains' result.
Proof.
  revert chains chains' result.
  induction fuel as [|fuel IH]; intros chains chains' result Hwf Hperm.
  - destruct chains, chains'; try done.
    + by apply Permutation_nil_cons in Hperm.
    + symmetry in Hperm. by apply Permutation_nil_cons in Hperm.
  - assert (dict_wf chains') as Hwf'.
    { unfold dict_wf, dict_keys in *. by rewrite <- Hperm. }
    pose proof (unblocked_chains_Permutation _ _ Hperm) as Hunb.
    destruct (decide (chains = [])) as [->|Hne].
    { apply Permutation_nil in Hperm. by subst. }
    assert (chains' <> []) as Hne'.
    { intros ->. by apply Permutation_nil_r in Hperm. }
    rewrite !sort_chains_step by done.
    destruct (unblocked_chains chains) as [|u us] eqn:Hu;
      destruct (unblocked_chains chains') as [|u' us'] eqn:Hu'; try done.
    + by apply Permutation_nil_cons in Hunb.
    + symmetry in Hunb. by apply Permutation_nil_cons in Hunb.
    + rewrite (sorted_total_unique _ _ Hunb).
      rewrite !delete_batch by done. apply IH.
      * by apply dict_wf_filter.
      * rewrite (filter_ext _ (fun kv => bool_decide (kv.1 ∉ u' :: us'))).
        -- by apply filter_Permutation_bool.
        -- intros kv. apply bool_decide_ext. by rewrite Hunb.
Qed.

(** ** Positions in a list without repeats *)

Lemma before_lookup {A} (x y : A) (l : list A) :
  before x y l <->
  exists i j, (i < j)%nat /\ l !! i = Some x /\ l !! j = Some y.
Proof.
  split.
  - intros (l1 & l2 & l3 & ->).
    exists (length l1), (length (l1 ++ x :: l2)). split_and!.
    + rewrite length_app. simpl. lia.
    + by rewrite list_lookup_middle.
    + assert (l1 ++ x :: l2 ++ y :: l3 = (l1 ++ x :: l2) ++ y :: l3) as ->
        by (by rewrite <- app_assoc).
      by rewrite list_lookup_middle.
  - intros (i & j & Hij & Hi & Hj).
    exists (take i l), (take (j - S i) (drop (S i) l)), (drop (S j) l).
    rewrite <- (take_drop_middle l i x Hi) at 1. f_equal. f_equal.
    assert (drop (S i) l !! (j - S i)%nat = Some y) as Hj'.
    { rewrite lookup_drop. rewrite <- Hj. f_equal. lia. }
    rewrite <- (take_drop_middle _ _ _ Hj') at 1. f_equal. f_equal.
    rewrite drop_drop. f_equal. lia.
Qed.

Lemma before_trans {A} (x y z : A) (l : list A) :
  NoDup l -> before x y l -> before y z l -> before x z l.
Proof.
  intros Hnd. rewrite !before_lookup.
  intros (i & j & Hij & Hi & Hj) (j' & k & Hjk & Hj' & Hk).
  rewrite (NoDup_lookup l j' j y Hnd Hj' Hj) in Hjk.
  exists i, k. split_and!; [lia|done..].
Qed.

Lemma before_irrefl {A} (x : A) (l : list A) : NoDup l -> ~ before x x l.
Proof.
  intros Hnd. rewrite before_lookup. intros (i & j & Hij & Hi & Hj).
  pose proof (NoDup_lookup l i j x Hnd Hi Hj). lia.
Qed.

(** A relation whose steps all go backwards in a list without repeats has
    no cycle. *)
Lemma backwards_acyclic {A} (R : relation A) (l : list A) :
  NoDup l -> (forall x y, R x y -> before y x l) ->
  forall x, ~ tc R x x.
Proof.
  intros Hnd Hback x Hcycle.
  assert (forall a b, tc R a b -> before b a l) as Htc.
  { induction 1 as [a b Hab|a b c Hab _ IH]; [by apply Hback|].
    eapply before_trans; [done|exact IH|by apply Hback]. }
  by apply (before_irrefl x l Hnd), Htc.
Qed.

(** ** [_computeSortedCollections] on accumulated collections *)

Definition chains_of (collections : dict string CollectionRecord)
  : dict string (list string) :=
  map (fun record => (cr_name record, cr_children record))
    (List.filter (fun record => bool_decide (cr_type record = CHAINED))
       (dict_values collections)).

Definition others_of (collections : dict string CollectionRecord)
  : list string :=
  map cr_name
    (List.filter (fun record => negb (bool_decide (cr_type record = CHAINED)))
       (dict_values collections)).

Lemma split_collections_from (records : list CollectionRecord)
  (chains : dict string (list string)) (result : list string) :
  NoDup (dict_keys chains ++ map cr_name records) ->
  foldl (fun '(chains, result) record =>
           if decide (cr_type record = CHAINED)
           then (dict_set (cr_name record) (cr_children record) chains, result)
           else (chains, result ++ [cr_name record]))
        (chains, result) records
  = (chains ++ map (fun record => (cr_name record, cr_children record))
                 (List.filter
                    (fun record => bool_decide (cr_type record = CHAINED))
                    records),
     result ++ map cr_name
                 (List.filter
                    (fun record =>
                       negb (bool_decide (cr_type record = CHAINED)))
                    records)).
Proof.
  revert chains result.
  induction records as [|record records IH]; intros chains result Hnd.
  - simpl. by rewrite !app_nil_r.
  - cbn [foldl List.filter]. destruct (decide (cr_type record = CHAINED)) as [Hc|Hc].
    + rewrite (bool_decide_true _ Hc). cbn [negb map].
      rewrite dict_set_fresh.
      * rewrite IH; [by rewrite <- app_assoc|].
        unfold dict_keys in *. rewrite map_app. simpl.
        by rewrite <- app_assoc.
      * apply NoDup_app in Hnd as (_ & Hdisj & _).
        intros Hin. apply (Hdisj _ Hin). left.
    + rewrite (bool_decide_false _ Hc). cbn [negb map].
      rewrite IH; [by rewrite <- app_assoc|].
      simpl in Hnd. apply NoDup_app in Hnd as (Hk & Hdisj & Hr).
      apply NoDup_cons in Hr as [_ Hr]. apply NoDup_app. split_and!; [done| |done].
      intros x Hx Hin. apply (Hdisj x Hx). by right.
Qed.

Lemma collections_wf_names (collections : dict string CollectionRecord) :
  collections_wf collections ->
  map cr_name (dict_values collections) = dict_keys collections.
Proof.
  intros [_ Hname]. unfold dict_values, dict_keys.
  induction collections as [|[name record] collections IH]; [done|].
  simpl. rewrite (Hname name record) by left. f_equal.
  apply IH. intros name' record' Hin. apply Hname. by right.
Qed.

Lemma computeSortedCollections_unfold
  (collections : dict string CollectionRecord) :
  collections_wf collections ->
  computeSortedCollections collections
  = sort_chains (length (chains_of collections)) (chains_of collections)
      (sorted (others_of collections)).
Proof.
  intros Hwf. unfold computeSortedCollections, split_collections.
  rewrite split_collections_from; [done|].
  simpl. rewrite collections_wf_names by done. apply Hwf.
Qed.

Lemma elem_of_dict_values_wf (collections : dict string CollectionRecord)
  (record : CollectionRecord) :
  collections_wf collections ->
  record ∈ dict_values collections <-> (cr_name record, record) ∈ collections.
Proof.
  intros [_ Hname]. unfold dict_values. rewrite list_elem_of_fmap. split.
  - intros ([name record'] & -> & Hin). simpl.
    by rewrite (Hname name record' Hin).
  - intros Hin. by exists (cr_name record, record).
Qed.

Lemma elem_of_chains_of (collections : dict string CollectionRecord)
  (name : string) (children : list string) :
  collections_wf collections ->
  (name, children) ∈ chains_of collections <->
  exists record,
    (name, record) ∈ collections /\ cr_type record = CHAINED /\
    children = cr_children record.
Proof.
  intros Hwf. unfold chains_of. rewrite list_elem_of_fmap. split.
  - intros (record & [= -> ->] & [Hin Hc%bool_decide_eq_true]%elem_of_filter_bool).
    exists record. split_and!; [|done..].
    by apply elem_of_dict_values_wf.
  - intros (record & Hin & Hc & ->). exists record.
    pose proof (proj2 Hwf name record Hin) as Hname. subst name.
    split; [done|]. apply elem_of_filter_bool.
    split; [|by apply bool_decide_eq_true_2].
    by apply elem_of_dict_values_wf.
Qed.

Lemma elem_of_keys_chains_of (collections : dict string CollectionRecord)
  (name : string) :
  collections_wf collections ->
  name ∈ dict_keys (chains_of collections) <-> is_chain collections name.
Proof.
  intros Hwf. unfold dict_keys. rewrite list_elem_of_fmap. split.
  - intros ([name' children] & -> & Hin). simpl.
    apply elem_of_chains_of in Hin as (record & Hin & Hc & _); [|done].
    by exists record.
  - intros (record & Hin & Hc). exists (name, cr_children record).
    split; [done|]. apply elem_of_chains_of; [done|]. by exists record.
Qed.

Lemma NoDup_fmap_filter {A B} (f : A -> B) (g : A -> bool) (l : list A) :
  NoDup (map f l) -> NoDup (map f (List.filter g l)).
Proof.
  induction l as [|x l IH]; simpl; [done|].
  rewrite NoDup_cons. intros [Hx Hl]. destruct (g x); simpl; [|auto].
  apply NoDup_cons. split; [|auto].
  intros (y & Hxy & Hin%elem_of_filter_bool)%list_elem_of_fmap.
  apply Hx. rewrite Hxy. apply list_elem_of_fmap_2. tauto.
Qed.

Lemma chains_of_wf (collections : dict string CollectionRecord) :
  collections_wf collections -> dict_wf (chains_of collections).
Proof.
  intros Hwf. unfold dict_wf, dict_keys, chains_of.
  rewrite map_map. simpl. apply NoDup_fmap_filter.
  rewrite collections_wf_names by done. apply Hwf.
Qed.

Lemma chains_children_of (collections : dict string CollectionRecord)
  (name : string) :
  collections_wf collections -> is_chain collections name ->
  chains_children (chains_of collections) name
  = children_of collections name.
Proof.
  intros Hwf (record & Hin & Hc). unfold chains_children, children_of.
  rewrite (dict_get_elem_of name record collections) by (done || apply Hwf).
  rewrite (dict_get_elem_of name (cr_children record)); [done| |].
  - by apply chains_of_wf.
  - apply elem_of_chains_of; [done|]. by exists record.
Qed.

Lemma chains_edge_of (collections : dict string CollectionRecord)
  (parent child : string) :
  collections_wf collections ->
  chains_edge (chains_of collections) parent child <->
  chain_edge collections parent child.
Proof.
  intros Hwf. unfold chains_edge, chain_edge. split.
  - intros (children & Hin & Hc & Hkey).
    apply elem_of_chains_of in Hin as (record & Hin & Ht & ->); [|done].
    exists record. split_and!; [done..|].
    by apply elem_of_keys_chains_of.
  - intros (record & Hin & Ht & Hc & Hchain). exists (cr_children record).
    split_and!; [|done|by apply elem_of_keys_chains_of].
    apply elem_of_chains_of; [done|]. by exists record.
Qed.

Lemma elem_of_others_of (collections : dict string CollectionRecord)
  (name : string) :
  collections_wf collections ->
  name ∈ others_of collections <->
  name ∈ dict_keys collections /\ ~ is_chain collections name.
Proof.
  intros Hwf. unfold others_of. rewrite list_elem_of_fmap. split.
  - intros (record & -> & [Hin Hc%Bool.negb_true_iff]%elem_of_filter_bool).
    apply bool_decide_eq_false in Hc.
    apply elem_of_dict_values_wf in Hin; [|done]. split.
    + apply (list_elem_of_fmap_2 fst _ _ Hin).
    + intros (record' & Hin' & Hc'). apply Hc.
      pose proof (dict_get_elem_of _ _ _ (proj1 Hwf) Hin) as H1.
      pose proof (dict_get_elem_of _ _ _ (proj1 Hwf) Hin') as H2.
      congruence.
  - intros [([name' record] & -> & Hin)%list_elem_of_fmap Hnc]. simpl in *.
    exists record. split; [symmetry; by apply Hwf|].
    apply elem_of_filter_bool. split.
    + apply elem_of_dict_values_wf; [done|].
      by rewrite (proj2 Hwf name' record Hin).
    + apply Bool.negb_true_iff, bool_decide_eq_false.
      intros Hc. apply Hnc. by exists record.
Qed.

Lemma fmap_filter_partition {A B} (f : A -> B) (g : A -> bool) (l : list A) :
  map f l ≡ₚ map f (List.filter (fun x => negb (g x)) l)
             ++ map f (List.filter g l).
Proof.
  induction l as [|x l IH]; simpl; [done|].
  destruct (g x); simpl.
  - rewrite IH. apply Permutation_middle.
  - by rewrite IH.
Qed.

Lemma keys_partition (collections : dict string CollectionRecord) :
  collections_wf collections ->
  dict_keys collections
  ≡ₚ others_of collections ++ dict_keys (chains_of collections).
Proof.
  intros Hwf. rewrite <- collections_wf_names by done.
  unfold others_of, chains_of, dict_keys. rewrite map_map. simpl.
  apply fmap_filter_partition.
Qed.

Lemma collections_wf_same (collections collections' : dict string CollectionRecord) :
  collections_wf collections -> dict_same collections collections' ->
  collections_wf collections'.
Proof.
  intros [_ Hname] (_ & Hwf' & Hperm). split; [done|].
  intros name record Hin. apply Hname. by rewrite Hperm.
Qed.

(** The order of the collections is a function of the set of records. *)
Lemma computeSortedCollections_same
  (collections collections' : dict string CollectionRecord) :
  collections_wf collections -> dict_same collections collections' ->
  computeSortedCollections collections
  = computeSortedCollections collections'.
Proof.
  intros Hwf Hsame.
  pose proof (collections_wf_same _ _ Hwf Hsame) as Hwf'.
  destruct Hsame as (_ & _ & Hperm).
  rewrite !computeSortedCollections_unfold by done.
  assert (dict_values collections ≡ₚ dict_values collections') as Hvalues.
  { unfold dict_values. by rewrite Hperm. }
  assert (chains_of collections ≡ₚ chains_of collections') as Hchains.
  { unfold chains_of. apply fmap_Permutation.
    by apply filter_Permutation_bool. }
  assert (others_of collections ≡ₚ others_of collections') as Hothers.
  { unfold others_of. apply fmap_Permutation.
    by apply filter_Permutation_bool. }
  rewrite (sorted_total_unique _ _ Hothers).
  rewrite (Permutation_length Hchains).
  apply sort_chains_Permutation; [by apply chains_of_wf|done].
Qed.

Lemma computeSortedCollections_cases
  (collections : dict string CollectionRecord) :
  collections_wf collections ->
  (computeSortedCollections collections
   = Raise (RuntimeError cycle_message []) /\
   exists name, tc (chain_edge collections) name name) \/
  (exists batches,
     computeSortedCollections collections
     = Ok (sorted (others_of collections) ++ concat batches) /\
     levels (children_of collections) (is_chain collections) batches).
Proof.
  intros Hwf. rewrite computeSortedCollections_unfold by done.
  destruct (sort_chains_cases (length (chains_of collections))
              (chains_of collections) (sorted (others_of collections)))
    as [[Hrun (name & Hcycle)]|(batches & Hrun & Hlevels)].
  - by apply chains_of_wf.
  - done.
  - left. split; [done|]. exists name.
    apply (tc_congruence id (chain_edge collections)) in Hcycle; [done|].
    intros x y. by apply chains_edge_of.
  - right. exists batches. split; [done|].
    eapply levels_ext; [| |exact Hlevels].
    + intros name Hin. apply chains_children_of; [done|].
      by apply elem_of_keys_chains_of.
    + intros name. by apply elem_of_keys_chains_of.
Qed.

(** Closed decidable statements, by evaluation. *)
Ltac by_evaluation := apply (bool_decide_unpack _); vm_compute; exact I.

Lemma collections_wf_intro (collections : dict string CollectionRecord) :
  NoDup (dict_keys collections) ->
  Forall (fun kv => cr_name kv.2 = kv.1) collections ->
  collections_wf collections.
Proof.
  intros Hnd Hall. split; [done|]. intros name record Hin.
  rewrite Forall_forall in Hall. apply (Hall (name, record) Hin).
Qed.

(** Resolved levels order the chains, so no chain reaches itself. *)
Lemma levels_acyclic (collections : dict string CollectionRecord)
  (batches : list (list string)) :
  collections_wf collections ->
  levels (children_of collections) (is_chain collections) batches ->
  acyclic collections.
Proof.
  intros Hwf Hlevels. unfold acyclic.
  apply (backwards_acyclic (chain_edge collections) (concat batches)).
  - rewrite (levels_Permutation (children_of collections)
               (is_chain collections) (dict_keys (chains_of collections))
               batches (chains_of_wf _ Hwf)); [by apply chains_of_wf| |done].
    intros name. by apply elem_of_keys_chains_of.
  - intros parent child (record & Hin & Hc & Hchild & Hchain).
    apply (levels_before _ _ _ _ _ Hlevels); [by exists record| |done].
    unfold children_of.
    by rewrite (dict_get_elem_of _ _ _ (proj1 Hwf) Hin).
Qed.

(** C4: on accumulated collections whose chains contain a cycle,
    [_computeSortedCollections] raises its [RuntimeError], and the set that
    the message of the error interpolates is empty: the error names none of
    the collections of the cycle. *)
Theorem cycle_error_names_nothing
  (collections : dict string CollectionRecord) :
  collections_wf collections ->
  (exists name, tc (chain_edge collections) name name) ->
  computeSortedCollections collections
  = Raise (RuntimeError cycle_message []).
Proof.
  intros Hwf [name Hcycle].
  destruct (computeSortedCollections_cases collections Hwf)
    as [[Hrun _]|(batches & _ & Hlevels)]; [done|].
  exfalso. by apply (levels_acyclic _ _ Hwf Hlevels name).
Qed.

Lemma cyclic_collections_wf : collections_wf cyclic_collections.
Proof.
  apply collections_wf_intro; by_evaluation.
Qed.

Lemma cyclic_collections_cycle :
  tc (chain_edge cyclic_collections) "A" "A".
Proof.
  apply (tc_l _ "A" "B" "A"); [|apply tc_once].
  - exists (chained "A" ["B"]). split_and!; [left|done|left|].
    exists (chained "B" ["A"]). split; [right; left|done].
  - exists (chained "B" ["A"]). split_and!; [right; left|done|left|].
    exists (chained "A" ["B"]). split; [left|done].
Qed.

Lemma cycle_error_names_nothing_witness :
  computeSortedCollections cyclic_collections
  = Raise (RuntimeError cycle_message []).
Proof.
  apply cycle_error_names_nothing.
  - exact cyclic_collections_wf.
  - exists "A". exact cyclic_collections_cycle.
Defined.

(** C3: for accumulated collections without a cycle,
    [_computeSortedCollections] returns a list [prefix ++ concat batches]
    that holds each accumulated name exactly once; [prefix] is the
    non-CHAINED names in lexicographic order; every chain comes after each
    of its accumulated children; the chains are resolved level by level,
    each level in lexicographic order; and any dictionary with the same
    records gives the same list. *)
Theorem computeSortedCollections_acyclic
  (collections : dict string CollectionRecord) :
  collections_wf collections -> acyclic collections ->
  exists prefix batches,
    computeSortedCollections collections = Ok (prefix ++ concat batches) /\
    NoDup (prefix ++ concat batches) /\
    (forall name,
       name ∈ prefix ++ concat batches <-> name ∈ dict_keys collections) /\
    strictly_sorted prefix /\
    (forall name,
       name ∈ prefix <->
       name ∈ dict_keys collections /\ ~ is_chain collections name) /\
    (forall name, name ∈ concat batches <-> is_chain collections name) /\
    (forall parent child,
       is_chain collections parent ->
       child ∈ children_of collections parent ->
       child ∈ dict_keys collections ->
       before child parent (prefix ++ concat batches)) /\
    levels (children_of collections) (is_chain collections) batches /\
    (forall collections',
       dict_same collections collections' ->
       computeSortedCollections collections'
       = Ok (prefix ++ concat batches)).
Proof.
  intros Hwf Hacyclic.
  destruct (computeSortedCollections_cases collections Hwf)
    as [[_ (name & Hcycle)]|(batches & Hrun & Hlevels)];
    [by apply Hacyclic in Hcycle|].
  pose proof (chains_of_wf _ Hwf) as Hcwf.
  assert (concat batches ≡ₚ dict_keys (chains_of collections)) as Hchains.
  { apply (levels_Permutation _ _ _ _ Hcwf) in Hlevels; [done|].
    intros name. by apply elem_of_keys_chains_of. }
  assert (sorted (others_of collections) ++ concat batches
          ≡ₚ dict_keys collections) as Hperm.
  { rewrite Hchains, sorted_Permutation. symmetry. by apply keys_partition. }
  assert (NoDup (others_of collections)) as Hothers.
  { pose proof (proj1 Hwf) as Hnd. unfold dict_wf in Hnd.
    rewrite keys_partition in Hnd by done.
    by apply NoDup_app in Hnd as (? & _ & _). }
  assert (forall name,
            name ∈ sorted (others_of collections) <->
            name ∈ dict_keys collections /\ ~ is_chain collections name)
    as Hprefix.
  { intros name. rewrite sorted_elem_of. by apply elem_of_others_of. }
  assert (forall name,
            name ∈ concat batches <-> is_chain collections name) as Hsuffix.
  { intros name. rewrite Hchains. by apply elem_of_keys_chains_of. }
  exists (sorted (others_of collections)), batches.
  split_and!; try done.
  - rewrite Hperm. apply Hwf.
  - intros name. by rewrite Hperm.
  - by apply sorted_strictly_sorted.
  - intros parent child Hparent Hchild Hkey.
    destruct (decide (child ∈ dict_keys (chains_of collections)))
      as [Hc|Hc]; rewrite elem_of_keys_chains_of in Hc by done.
    + apply before_app_l. by apply (levels_before _ _ _ _ _ Hlevels).
    + apply before_app; [by apply Hprefix|by apply Hsuffix].
  - intros collections' Hsame.
    by rewrite <- (computeSortedCollections_same _ _ Hwf Hsame).
Qed.

Lemma sample_collections_wf : collections_wf sample_collections.
Proof.
  apply collections_wf_intro; by_evaluation.
Qed.

Lemma sample_collections_acyclic : acyclic sample_collections.
Proof.
  unfold acyclic.
  apply (backwards_acyclic (chain_edge sample_collections) ["m"; "z"]).
  - by_evaluation.
  - intros parent child (record & Hin & Hc & Hchild & record' & Hin' & Hc').
    unfold sample_collections in Hin, Hin'.
    set_unfold in Hin. set_unfold in Hin'.
    destruct_or!; simplify_eq; try done; simpl in *;
      set_unfold in Hchild; destruct_or!; simplify_eq.
    by exists [], [], [].
Qed.

Lemma computeSortedCollections_acyclic_witness :
  collections_wf sample_collections /\ acyclic sample_collections /\
  exists prefix batches,
    computeSortedCollections sample_collections
    = Ok (prefix ++ concat batches) /\
    before "m" "z" (prefix ++ concat batches).
Proof.
  split; [exact sample_collections_wf|].
  split; [exact sample_collections_acyclic|].
  destruct (computeSortedCollections_acyclic sample_collections
              sample_collections_wf sample_collections_acyclic)
    as (prefix & batches & Hrun & _ & _ & _ & _ & _ & Hbefore & _).
  exists prefix, batches. split; [exact Hrun|].
  apply Hbefore.
  - exists (chained "z" ["a"; "m"]). split; [left|done].
  - right. left.
  - by_evaluation.
Defined.

(** ** Running monadic code *)

(** Unfolds the operations of the monad in the goal and evaluates. *)
Ltac run :=
  unfold mbind, M_bind, mret, M_ret, bind, ret, get, modify, raise, lift;
  cbn.

Section Monad.

Context {S : Type}.

Lemma bind_run {A B} (m : M S A) (k : A -> M S B) (s : S) :
  (m ≫= k) s
  = match m s with
    | (s', Ok a) => k a s'
    | (s', Raise e) => (s', Raise e)
    end.
Proof. reflexivity. Qed.

Lemma bind_Ok {A B} (m : M S A) (k : A -> M S B) (s s' : S) (a : A) :
  m s = (s', Ok a) -> (m ≫= k) s = k a s'.
Proof. intros Hm. by rewrite bind_run, Hm. Qed.

Lemma bind_Raise {A B} (m : M S A) (k : A -> M S B) (s s' : S) (e : Exc) :
  m s = (s', Raise e) -> (m ≫= k) s = (s', Raise e).
Proof. intros Hm. by rewrite bind_run, Hm. Qed.

Lemma for_nil {A} (body : A -> M S unit) (s : S) :
  for_ [] body s = (s, Ok tt).
Proof. reflexivity. Qed.

Lemma for_cons {A} (x : A) (l : list A) (body : A -> M S unit) (s : S) :
  for_ (x :: l) body s
  = match body x s with
    | (s', Ok _) => for_ l body s'
    | (s', Raise e) => (s', Raise e)
    end.
Proof. reflexivity. Qed.

Lemma foldM_cons {A B} (body : B -> A -> M S B) (acc : B) (x : A)
  (l : list A) (s : S) :
  foldM body acc (x :: l) s
  = match body acc x s with
    | (s', Ok acc') => foldM body acc' l s'
    | (s', Raise e) => (s', Raise e)
    end.
Proof. reflexivity. Qed.

(** A loop whose iterations leave the state alone leaves it alone. *)
Lemma for_unchanged {A} (l : list A) (body : A -> M S unit) (s : S) :
  (forall x, x ∈ l -> (body x s).1 = s) -> (for_ l body s).1 = s.
Proof.
  induction l as [|x l IH]; intros Hbody; [done|].
  rewrite for_cons. pose proof (Hbody x ltac:(left)) as Hx.
  destruct (body x s) as [s' [[]|e]]; simpl in Hx; subst s'; [|done].
  apply IH. intros y Hy. apply Hbody. by right.
Qed.

End Monad.

(** ** [saveDataIds] with explicit elements *)

Section ExportProperties.

Context {DataCoordinate FileDataset : Type}.
Context `{DataCoordinate_eq_dec : EqDecision DataCoordinate}.
Context {DataCoordinate_PyOrd : PyOrd DataCoordinate}.
Context {FileDataset_PyOrd : PyOrd FileDataset}.
Context {DatasetRef_PyOrd : PyOrd (@DatasetRef DataCoordinate)}.
Context {DatasetAssociation_PyOrd : PyOrd (@DatasetAssociation DataCoordinate)}.

Abbreviation ExportContext := (@RepoExportContext DataCoordinate FileDataset).

(** C2: whatever elements the caller names, [saveDataIds] with an explicit
    [elements] argument leaves the context as it found it: it rebinds
    [elements] to an empty set before it reads it, so no record of any data
    ID reaches the store of [saveDimensionData]. *)
Theorem saveDataIds_explicit_elements_saves_nothing
  (self : ExportContext) (dataIds : list DataCoordinate)
  (elements : list (string + DimensionElement)) :
  (saveDataIds dataIds (Some elements) self).1 = self.
Proof.
  unfold saveDataIds. rewrite bind_run. simpl.
  apply for_unchanged. intros dataId _.
  rewrite bind_run. simpl. rewrite bind_run. unfold lift.
  destruct (reg_expandDataId (_registry self) dataId) as [records|e];
    [|done].
  apply for_unchanged. intros record _. by destruct record.
Qed.

(** ** The association closure *)

Lemma dict_get_defaultdict_update {K V} `{EqDecision K} (default : V)
  (k k' : K) (f : V -> V) (d : dict K V) :
  dict_get k' (defaultdict_update default k f d)
  = if decide (k' = k) then Some (f (stdpp.option.default default (dict_get k d)))
    else dict_get k' d.
Proof.
  unfold defaultdict_update.
  destruct (dict_get k d) as [v|]; by rewrite dict_get_set.
Qed.

Lemma defaultdict_update_wf {K V} `{EqDecision K} (default : V) (k : K)
  (f : V -> V) (d : dict K V) :
  dict_wf d -> dict_wf (defaultdict_update default k f d).
Proof.
  unfold defaultdict_update. destruct (dict_get k d); apply dict_set_wf.
Qed.

(** The associations filed under a collection. *)
Definition filed (results : dict string (list (@DatasetAssociation DataCoordinate)))
  (collection : string) : list (@DatasetAssociation DataCoordinate) :=
  default [] (dict_get collection results).

Lemma filed_update (results : dict string (list DatasetAssociation))
  (association : @DatasetAssociation DataCoordinate) (collection : string) :
  filed (defaultdict_update [] (assoc_collection association)
           (fun l => l ++ [association]) results) collection
  = if decide (collection = assoc_collection association)
    then filed results collection ++ [association]
    else filed results collection.
Proof.
  unfold filed. rewrite dict_get_defaultdict_update.
  by destruct (decide (collection = assoc_collection association)) as [->|].
Qed.

Lemma elem_of_queryDatasetAssociations (registry : Registry)
  (datasetType : DatasetType) (collections : list string)
  (collectionTypes : list CollectionType)
  (association : @DatasetAssociation DataCoordinate) :
  association ∈ queryDatasetAssociations registry datasetType collections
                  collectionTypes <->
  association ∈ reg_associations registry /\
  assoc_collection association ∈ collections /\
  ref_datasetType (assoc_ref association) = datasetType /\
  exists record,
    find_collection registry (assoc_collection association) = Some record /\
    cr_type record ∈ collectionTypes.
Proof.
  unfold queryDatasetAssociations.
  rewrite list_elem_of_In, in_flat_map. split.
  - intros (collection & Hc%list_elem_of_In & Hin).
    destruct (find_collection registry collection) as [record|] eqn:Hfind;
      [|by apply in_nil in Hin].
    destruct (bool_decide (cr_type record ∈ collectionTypes)) eqn:Htype;
      [|by apply in_nil in Hin].
    apply filter_In in Hin as [Hin%list_elem_of_In Hf].
    apply andb_true_iff in Hf as [Hcol%bool_decide_eq_true Hdt%bool_decide_eq_true].
    apply bool_decide_eq_true in Htype. subst collection.
    split_and!; [done..|]. by exists record.
  - intros (Hin & Hc & Hdt & record & Hfind & Htype).
    exists (assoc_collection association).
    split; [by apply list_elem_of_In|].
    rewrite Hfind, (bool_decide_true _ Htype). apply filter_In.
    split; [by apply list_elem_of_In|].
    apply andb_true_iff. split; by apply bool_decide_eq_true_2.
Qed.

Lemma elem_of_filed_inner (ids : gset Z)
  (associationIter : list (@DatasetAssociation DataCoordinate))
  (results : dict string (list DatasetAssociation))
  (collection : string) (association : DatasetAssociation) :
  association ∈ filed
    (foldl (fun results association =>
              if id_in (ref_id (assoc_ref association)) ids
              then defaultdict_update [] (assoc_collection association)
                     (fun l => l ++ [association]) results
              else results)
       results associationIter) collection <->
  association ∈ filed results collection \/
  (association ∈ associationIter /\
   assoc_collection association = collection /\
   id_in (ref_id (assoc_ref association)) ids = true).
Proof.
  revert results. induction associationIter as [|a rest IH]; intros results.
  - simpl. split; [by left|]. intros [?|[?%elem_of_nil _]]; done.
  - simpl. rewrite IH. destruct (id_in (ref_id (assoc_ref a)) ids) eqn:Hid.
    + rewrite filed_update.
      destruct (decide (collection = assoc_collection a)) as [->|Hne].
      * rewrite elem_of_app, list_elem_of_singleton, elem_of_cons. split.
        -- intros [[Hin| ->]|(Hin & Hcol & Hi)]; [by left| |].
           ++ right. split_and!; [by left|done..].
           ++ right. split_and!; [by right|done..].
        -- intros [Hin|([->|Hin] & Hcol & Hi)];
             [by left; left|by left; right|by right].
      * rewrite elem_of_cons. split.
        -- intros [Hin|(Hin & Hcol & Hi)]; [by left|].
           right. split_and!; [by right|done..].
        -- intros [Hin|([->|Hin] & Hcol & Hi)]; [by left|done|by right].
    + rewrite elem_of_cons. split.
      * intros [Hin|(Hin & Hcol & Hi)]; [by left|].
        right. split_and!; [by right|done..].
      * intros [Hin|([->|Hin] & Hcol & Hi)]; [by left|congruence|by right].
Qed.

Lemma collectionTypes_elem_of (datasetType : DatasetType)
  (type : CollectionType) :
  type ∈ (if dt_isCalibration datasetType
          then [TAGGED; CALIBRATION] else [TAGGED]) <->
  type = TAGGED \/ type = CALIBRATION /\ dt_isCalibration datasetType = true.
Proof.
  destruct (dt_isCalibration datasetType); set_unfold; split.
  - intros [?|[?|[]]]; [by left|by right].
  - intros [?|[? _]]; [by left|by right; left].
  - intros [?|[]]; by left.
  - intros [?|[_ ?]]; [by left|done].
Qed.

(** The conditions on an association that do not depend on the dataset
    type being queried. *)
Definition in_scope (self : ExportContext) (collection : string)
  (association : @DatasetAssociation DataCoordinate) : Prop :=
  association ∈ reg_associations (_registry self) /\
  assoc_collection association = collection /\
  collection ∈ dict_keys (_collections self) /\
  (exists record,
     find_collection (_registry self) collection = Some record /\
     (cr_type record = TAGGED \/
      cr_type record = CALIBRATION /\
      dt_isCalibration (ref_datasetType (assoc_ref association)) = true)) /\
  id_in (ref_id (assoc_ref association)) (_dataset_ids self) = true.

(** What one dataset type adds to the closure. *)
Lemma elem_of_filed_step (self : ExportContext) (datasetType : DatasetType)
  (results : dict string (list DatasetAssociation))
  (collection : string) (association : @DatasetAssociation DataCoordinate) :
  association ∈ filed
    (foldl (fun results association =>
              if id_in (ref_id (assoc_ref association)) (_dataset_ids self)
              then defaultdict_update [] (assoc_collection association)
                     (fun l => l ++ [association]) results
              else results)
       results
       (queryDatasetAssociations (_registry self) datasetType
          (dict_keys (_collections self))
          (if dt_isCalibration datasetType
           then [TAGGED; CALIBRATION] else [TAGGED]))) collection <->
  association ∈ filed results collection \/
  (ref_datasetType (assoc_ref association) = datasetType /\
   in_scope self collection association).
Proof.
  unfold in_scope.
  rewrite elem_of_filed_inner, elem_of_queryDatasetAssociations. split.
  - intros [Hin|((Hin & Hkey & Hdt & record & Hfind & Htype) & Hcol & Hid)];
      [by left|].
    right. subst collection datasetType. split_and!; [done..| |done].
    exists record. split; [done|]. by apply collectionTypes_elem_of.
  - intros [Hin|(Hdt & Hin & Hcol & Hkey & (record & Hfind & Htype) & Hid)];
      [by left|].
    right. subst collection datasetType. split_and!; [done..| |done|done].
    exists record. split; [done|]. by apply collectionTypes_elem_of.
Qed.

Lemma elem_of_filed_fold (self : ExportContext)
  (datasetTypes : list DatasetType)
  (results : dict string (list DatasetAssociation))
  (collection : string) (association : @DatasetAssociation DataCoordinate) :
  association ∈ filed
    (foldl (fun results datasetType =>
       let collectionTypes :=
         if dt_isCalibration datasetType
         then [TAGGED; CALIBRATION] else [TAGGED] in
       let associationIter :=
         queryDatasetAssociations (_registry self) datasetType
           (dict_keys (_collections self)) collectionTypes in
       foldl (fun results association =>
                if id_in (ref_id (assoc_ref association)) (_dataset_ids self)
                then defaultdict_update [] (assoc_collection association)
                       (fun l => l ++ [association]) results
                else results)
             results associationIter)
       results datasetTypes) collection <->
  association ∈ filed results collection \/
  (ref_datasetType (assoc_ref association) ∈ datasetTypes /\
   in_scope self collection association).
Proof.
  revert results.
  induction datasetTypes as [|datasetType datasetTypes IH]; intros results.
  - simpl. split; [by left|]. intros [?|[?%elem_of_nil _]]; done.
  - cbn [foldl]. rewrite IH, elem_of_filed_step, elem_of_cons. split.
    + intros [[Hin|[Hdt Hscope]]|[Hdt Hscope]];
        [by left|right; split; [by left|done]|right; split; [by right|done]].
    + intros [Hin|[[Hdt|Hdt] Hscope]];
        [by left; left|by left; right|by right].
Qed.

(** C8: the closure [_computeDatasetAssociations] returns files under a
    collection exactly the associations of the repository with that
    collection which tie a dataset of an exported dataset type to an
    exported collection of type TAGGED, or of type CALIBRATION when the
    dataset type is a calibration type, and whose dataset id is among the
    exported ids.  The children of an exported chain are not looked into, and
    the function is total: an association with another dataset is left out
    without an error. *)
Theorem computeDatasetAssociations_exact (self : ExportContext)
  (collection : string) (association : @DatasetAssociation DataCoordinate) :
  association ∈ filed (_computeDatasetAssociations self) collection <->
  association ∈ reg_associations (_registry self) /\
  assoc_collection association = collection /\
  ref_datasetType (assoc_ref association) ∈ dict_keys (_datasets self) /\
  collection ∈ dict_keys (_collections self) /\
  (exists record,
     find_collection (_registry self) collection = Some record /\
     (cr_type record = TAGGED \/
      cr_type record = CALIBRATION /\
      dt_isCalibration (ref_datasetType (assoc_ref association)) = true)) /\
  id_in (ref_id (assoc_ref association)) (_dataset_ids self) = true.
Proof.
  unfold _computeDatasetAssociations.
  rewrite elem_of_filed_fold. unfold in_scope, filed at 1. simpl. split.
  - intros [?%elem_of_nil|?]; [done|tauto].
  - intros ?. right. tauto.
Qed.

End ExportProperties.

(** ** Registration of dataset types *)

(** Induction on a storage class with its components as hypotheses. *)
Lemma StorageClass_nested_ind (P : StorageClass -> Prop) :
  (forall name components,
     Forall (fun component => P component.2) components ->
     P (mkStorageClass name components)) ->
  forall storageClass, P storageClass.
Proof.
  intros Hstep. fix IH 1. intros [name components]. apply Hstep.
  induction components as [|[component storageClass] components IHc];
    constructor; [apply IH|apply IHc].
Qed.

Abbreviation Manager := ByDimensionsDatasetRecordStorageManager.
Abbreviation Storage := ByDimensionsDatasetRecordStorage.

Section ManagerProperties.

Context {DataCoordinate : Type} `{Collaborators DataCoordinate}.

(** The part of [register] that is not the recursion into components. *)
Definition register_one (storageClassName : string)
  (datasetType : DatasetType) : M Manager (Storage * bool) :=
  self ← get;
  match _byName self !! dt_name datasetType with
  | None =>
      synced ← db_sync (dt_name datasetType)
                 (DimensionGraph_encode (dt_dimensions datasetType))
                 storageClassName;
      let '(row, inserted) := synced in
      dynamic ← db_ensureTableExists (makeDynamicTableName datasetType);
      let storage :=
        {| st_datasetType := datasetType; st_dynamic := Some dynamic;
           _dataset_type_id := row_id row |} in
      modify (with_byName (<[dt_name datasetType := storage]>));;
      modify (with_byId (<[_dataset_type_id storage := storage]>));;
      mret (storage, inserted)
  | Some storage =>
      if decide (datasetType = st_datasetType storage)
      then mret (storage, false)
      else raise (ConflictingDefinitionError datasetType
                    (st_datasetType storage))
  end.

(** The loop of [register] over the components of a composite. *)
Definition register_components (datasetType : DatasetType)
  (components : list (string * StorageClass)) : M Manager unit :=
  for_ components
    (fun '(component, componentStorageClass) =>
       register_at componentStorageClass
         (makeComponentDatasetType datasetType component
            componentStorageClass);;
       mret tt).

Lemma register_components_fix (datasetType : DatasetType)
  (components : list (string * StorageClass)) (self : Manager) :
  (fix for_components (components : list (string * StorageClass))
     : M Manager unit :=
     match components with
     | [] => mret tt
     | (component, componentStorageClass) :: components' =>
         register_at componentStorageClass
           (makeComponentDatasetType datasetType component
              componentStorageClass);;
         for_components components'
     end) components self
  = register_components datasetType components self.
Proof.
  unfold register_components. revert self.
  induction components as [|[component storageClass] components IHc];
    intros self; [done|].
  rewrite for_cons, !bind_run.
  destruct (register_at storageClass _ self) as [self' [r|e]]; [|done].
  cbn. apply IHc.
Qed.

Lemma register_at_unfold (name : string)
  (components : list (string * StorageClass)) (datasetType : DatasetType)
  (self : Manager) :
  register_at (mkStorageClass name components) datasetType self
  = match register_one name datasetType self with
    | (self', Ok (storage, inserted)) =>
        if inserted && dt_isComposite datasetType
        then match register_components datasetType components self' with
             | (self'', Ok _) => (self'', Ok (storage, inserted))
             | (self'', Raise e) => (self'', Raise e)
             end
        else (self', Ok (storage, inserted))
    | (self', Raise e) => (self', Raise e)
    end.
Proof.
  cbn [register_at]. unfold register_one.
  rewrite !(bind_run get). cbn [get]. rewrite bind_run.
  match goal with
  | |- context [match ?m self with _ => _ end] =>
      destruct (m self) as [self' [[storage inserted]|e]]; [|done]
  end.
  rewrite bind_run.
  destruct (inserted && dt_isComposite datasetType); [|done].
  rewrite register_components_fix.
  by destruct (register_components datasetType components self')
    as [? [[]|?]].
Qed.

(** Calls on the database leave the caches alone. *)
Lemma db_sync_caches (name dimensions_encoded storage_class : string)
  (self self' : Manager) (r : Result (DatasetTypeRow * bool)) :
  db_sync name dimensions_encoded storage_class self = (self', r) ->
  _byName self' = _byName self /\ _byId self' = _byId self.
Proof.
  unfold db_sync. run.
  match goal with
  | |- context [List.find ?f ?l] => destruct (List.find f l) as [row|]
  end.
  - destruct (_ && _); intros [= <- <-]; done.
  - intros [= <- <-]. done.
Qed.

Lemma db_ensureTableExists_caches (table : string) (self self' : Manager)
  (r : Result string) :
  db_ensureTableExists table self = (self', r) ->
  _byName self' = _byName self /\ _byId self' = _byId self /\ r = Ok table.
Proof.
  unfold db_ensureTableExists. run.
  destruct (bool_decide _); intros [= <- <-]; done.
Qed.

(** What [register] does for the type named in its argument. *)
Lemma register_one_cases (storageClassName : string)
  (datasetType : DatasetType) (self : Manager) :
  match _byName self !! dt_name datasetType with
  | Some storage =>
      register_one storageClassName datasetType self
      = (self,
         if decide (datasetType = st_datasetType storage)
         then Ok (storage, false)
         else Raise (ConflictingDefinitionError datasetType
                       (st_datasetType storage)))
  | None =>
      exists self',
        (register_one storageClassName datasetType self).1 = self' /\
        match (register_one storageClassName datasetType self).2 with
        | Ok (storage, inserted) =>
            st_datasetType storage = datasetType /\
            _byName self' = <[dt_name datasetType := storage]> (_byName self) /\
            _byId self'
            = <[_dataset_type_id storage := storage]> (_byId self)
        | Raise e =>
            _byName self' = _byName self /\ _byId self' = _byId self
        end
  end.
Proof.
  unfold register_one. rewrite bind_run. cbn [get].
  destruct (_byName self !! dt_name datasetType) as [storage|] eqn:Hget.
  - by destruct (decide (datasetType = st_datasetType storage)).
  - eexists. split; [reflexivity|]. rewrite bind_run.
    destruct (db_sync _ _ _ self) as [self1 [[row inserted]|e]] eqn:Hsync;
      apply db_sync_caches in Hsync as [Hn1 Hi1]; [|done].
    rewrite bind_run.
    destruct (db_ensureTableExists _ self1) as [self2 r] eqn:Hens.
    apply db_ensureTableExists_caches in Hens as (Hn2 & Hi2 & ->).
    run. by rewrite Hn2, Hi2, Hn1, Hi1.
Qed.

(** A call keeps every entry that the name cache holds. *)
Definition keeps_names (self self' : Manager) : Prop :=
  forall name storage,
    _byName self !! name = Some storage ->
    _byName self' !! name = Some storage.

(** The dataset type is cached under its name as its own definition. *)
Definition registered (datasetType : DatasetType) (self : Manager) : Prop :=
  exists storage,
    (find (dt_name datasetType) self).2 = Ok (Some storage) /\
    st_datasetType storage = datasetType.

Lemma keeps_names_refl (self : Manager) : keeps_names self self.
Proof. by intros name storage. Qed.

Lemma keeps_names_trans (self1 self2 self3 : Manager) :
  keeps_names self1 self2 -> keeps_names self2 self3 ->
  keeps_names self1 self3.
Proof. intros H12 H23 name storage Hin. by apply H23, H12. Qed.

Lemma registered_keeps (datasetType : DatasetType) (self self' : Manager) :
  keeps_names self self' -> registered datasetType self ->
  registered datasetType self'.
Proof.
  intros Hkeeps (storage & Hfind & Hdt). exists storage. split; [|done].
  unfold find in *. rewrite bind_run in *. cbn in *.
  injection Hfind as Hfind. by rewrite (Hkeeps _ _ Hfind).
Qed.

Lemma register_one_keeps (storageClassName : string)
  (datasetType : DatasetType) (self : Manager) :
  keeps_names self (register_one storageClassName datasetType self).1.
Proof.
  pose proof (register_one_cases storageClassName datasetType self) as Hc.
  destruct (_byName self !! dt_name datasetType) as [storage|] eqn:Hget.
  - rewrite Hc. apply keeps_names_refl.
  - destruct Hc as (self' & <- & Hc).
    destruct (register_one _ _ _) as [self' [[storage inserted]|e]];
      simpl in *.
    + destruct Hc as (_ & Hn & _). intros name storage' Hin.
      rewrite Hn, lookup_insert_ne; [done|]. intros <-. congruence.
    + destruct Hc as [Hn _]. intros name storage' Hin. by rewrite Hn.
Qed.

Lemma register_one_registered (storageClassName : string)
  (datasetType : DatasetType) (self self' : Manager) (storage : Storage)
  (inserted : bool) :
  register_one storageClassName datasetType self
  = (self', Ok (storage, inserted)) ->
  _byName self' !! dt_name datasetType = Some storage /\
  st_datasetType storage = datasetType.
Proof.
  intros Hrun.
  pose proof (register_one_cases storageClassName datasetType self) as Hc.
  destruct (_byName self !! dt_name datasetType) as [cached|] eqn:Hget.
  - rewrite Hrun in Hc.
    destruct (decide (datasetType = st_datasetType cached)); [|done].
    by simplify_eq.
  - destruct Hc as (? & <- & Hc). rewrite Hrun in Hc. simpl in Hc.
    destruct Hc as (Hdt & Hn & _). split; [|done].
    by rewrite Hn, lookup_insert_eq.
Qed.

(** [register] keeps the entries of the name cache, whatever it returns. *)
Lemma register_at_keeps (storageClass : StorageClass) :
  forall datasetType self,
    keeps_names self (register_at storageClass datasetType self).1.
Proof.
  induction storageClass as [name components IH]
    using StorageClass_nested_ind.
  intros datasetType self. rewrite register_at_unfold.
  pose proof (register_one_keeps name datasetType self) as Hone.
  destruct (register_one name datasetType self)
    as [self' [[storage inserted]|e]]; [|done].
  destruct (inserted && dt_isComposite datasetType); [|done].
  simpl in Hone.
  assert (keeps_names self'
            (register_components datasetType components self').1) as Hloop.
  { clear Hone. unfold register_components. revert self'.
    induction IH as [|[component storageClass] components Hsc _ IHc];
      intros self'; [apply keeps_names_refl|].
    rewrite for_cons, bind_run. specialize (Hsc
      (makeComponentDatasetType datasetType component storageClass) self').
    simpl in Hsc.
    destruct (register_at storageClass _ self') as [self1 [r|e]];
      [|done].
    cbn. eapply keeps_names_trans; [exact Hsc|apply IHc]. }
  destruct (register_components datasetType components self')
    as [self'' [[]|e]]; simpl in *; by eapply keeps_names_trans.
Qed.

(** When [register] returns, the dataset type is cached under its name as
    the storage returned. *)
Lemma register_at_registered (storageClass : StorageClass)
  (datasetType : DatasetType) (self self' : Manager) (storage : Storage)
  (inserted : bool) :
  register_at storageClass datasetType self
  = (self', Ok (storage, inserted)) ->
  _byName self' !! dt_name datasetType = Some storage /\
  st_datasetType storage = datasetType.
Proof.
  destruct storageClass as [name components]. rewrite register_at_unfold.
  destruct (register_one name datasetType self)
    as [self1 [[storage1 inserted1]|e]] eqn:Hone; [|done].
  apply register_one_registered in Hone as [Hget Hdt].
  destruct (inserted1 && dt_isComposite datasetType).
  - assert (keeps_names self1
              (register_components datasetType components self1).1)
      as Hloop.
    { unfold register_components. generalize self1.
      induction components as [|[component storageClass] components IHc];
        intros s; [apply keeps_names_refl|].
      rewrite for_cons, bind_run.
      pose proof (register_at_keeps storageClass
                    (makeComponentDatasetType datasetType component
                       storageClass) s) as Hsc.
      destruct (register_at storageClass _ s) as [s1 [r|e]]; [|done].
      cbn. eapply keeps_names_trans; [exact Hsc|apply IHc]. }
    destruct (register_components datasetType components self1)
      as [self2 [[]|e]]; [|done].
    intros [= <- <- <-]. split; [|done]. by apply Hloop.
  - by intros [= <- <- <-].
Qed.

Lemma register_cached (datasetType : DatasetType) (self : Manager)
  (storage : Storage) :
  _byName self !! dt_name datasetType = Some storage ->
  register datasetType self
  = (self,
     if decide (datasetType = st_datasetType storage)
     then Ok (storage, false)
     else Raise (ConflictingDefinitionError datasetType
                   (st_datasetType storage))).
Proof.
  intros Hget. unfold register.
  destruct (dt_storageClass datasetType) as [name components].
  rewrite register_at_unfold.
  pose proof (register_one_cases name datasetType self) as Hc.
  rewrite Hget in Hc. rewrite Hc.
  by destruct (decide (datasetType = st_datasetType storage)).
Qed.

(** C6: when a dataset type of the same name is cached and the given one
    differs from it in its dimensions or in its storage class, [register]
    raises [ConflictingDefinitionError] with the two definitions and returns
    the manager it was given: caches and database are as before the
    call. *)
Theorem register_conflict (self : Manager) (datasetType : DatasetType)
  (storage : Storage) :
  _byName self !! dt_name datasetType = Some storage ->
  dt_dimensions datasetType <> dt_dimensions (st_datasetType storage) \/
  dt_storageClass datasetType <> dt_storageClass (st_datasetType storage) ->
  register datasetType self
  = (self,
     Raise (ConflictingDefinitionError datasetType (st_datasetType storage))).
Proof.
  intros Hget Hdiffer. rewrite (register_cached _ _ _ Hget).
  destruct (decide (datasetType = st_datasetType storage)) as [Heq|]; [|done].
  rewrite <- Heq in Hdiffer. by destruct Hdiffer.
Qed.

(** C10: after a call of [register] has returned, a second call with the
    same dataset type returns the same storage, so the same surrogate id,
    with [inserted = False], and returns the manager it was given: nothing is
    synchronized with the database, no table is created, the caches are as
    they were, and no component is registered. *)
Theorem register_idempotent (self self1 : Manager)
  (datasetType : DatasetType) (storage : Storage) (inserted : bool) :
  register datasetType self = (self1, Ok (storage, inserted)) ->
  register datasetType self1 = (self1, Ok (storage, false)).
Proof.
  intros Hfirst. apply register_at_registered in Hfirst as [Hget Hdt].
  rewrite (register_cached _ _ _ Hget).
  by rewrite decide_True.
Qed.

(** The dataset types of the components of a composite, and of their
    components. *)
Fixpoint component_family (storageClass : StorageClass)
  (datasetType : DatasetType) : list DatasetType :=
  match storageClass with
  | mkStorageClass _ components =>
      datasetType ::
      flat_map
        (fun '(component, componentStorageClass) =>
           component_family componentStorageClass
             (makeComponentDatasetType datasetType component
                componentStorageClass))
        components
  end.

(** The names a call has added to the cache are among [names]. *)
Definition adds_only (names : list string) (self self' : Manager) : Prop :=
  forall name,
    is_Some (_byName self' !! name) ->
    is_Some (_byName self !! name) \/ name ∈ names.

Lemma adds_only_trans (names1 names2 : list string)
  (self1 self2 self3 : Manager) :
  adds_only names1 self1 self2 -> adds_only names2 self2 self3 ->
  adds_only (names1 ++ names2) self1 self3.
Proof.
  intros H12 H23 name Hin. rewrite elem_of_app.
  apply H23 in Hin as [Hin|Hin]; [|by right; right].
  apply H12 in Hin as [Hin|Hin]; [by left|by right; left].
Qed.

Lemma register_one_adds (storageClassName : string)
  (datasetType : DatasetType) (self : Manager) :
  adds_only [dt_name datasetType] self
    (register_one storageClassName datasetType self).1.
Proof.
  pose proof (register_one_cases storageClassName datasetType self) as Hc.
  destruct (_byName self !! dt_name datasetType) as [storage|] eqn:Hget.
  - rewrite Hc. intros name Hin. by left.
  - destruct Hc as (self' & <- & Hc).
    destruct (register_one _ _ _) as [self' [[storage inserted]|e]];
      simpl in *.
    + destruct Hc as (_ & Hn & _). intros name. rewrite Hn.
      destruct (decide (name = dt_name datasetType)) as [->|Hne].
      * intros _. right. left.
      * rewrite lookup_insert_ne by done. by left.
    + destruct Hc as [Hn _]. intros name. rewrite Hn. by left.
Qed.

Lemma register_at_adds (storageClass : StorageClass) :
  forall datasetType self,
    adds_only (map dt_name (component_family storageClass datasetType))
      self (register_at storageClass datasetType self).1.
Proof.
  induction storageClass as [name components IH]
    using StorageClass_nested_ind.
  intros datasetType self. rewrite register_at_unfold.
  pose proof (register_one_adds name datasetType self) as Hone.
  cbn [component_family map].
  assert (forall self',
            adds_only
              (map dt_name
                 (flat_map
                    (fun '(component, componentStorageClass) =>
                       component_family componentStorageClass
                         (makeComponentDatasetType datasetType component
                            componentStorageClass))
                    components))
              self' (register_components datasetType components self').1)
    as Hloop.
  { unfold register_components.
    induction IH as [|[component storageClass] components Hsc _ IHc];
      intros self'; [by left|].
    rewrite for_cons, bind_run. cbn [flat_map]. rewrite map_app.
    specialize (Hsc
      (makeComponentDatasetType datasetType component storageClass) self').
    cbn [snd] in Hsc.
    destruct (register_at storageClass _ self') as [self1 [r|e]];
      simpl in Hsc.
    - cbn. eapply adds_only_trans; [exact Hsc|apply IHc].
    - intros n Hn. apply Hsc in Hn as [?|?]; [by left|right].
      apply elem_of_app. by left. }
  destruct (register_one name datasetType self)
    as [self' [[storage inserted]|e]]; simpl in Hone.
  - destruct (inserted && dt_isComposite datasetType).
    + specialize (Hloop self').
      pose proof (adds_only_trans _ _ _ _ _ Hone Hloop) as Hall.
      by destruct (register_components datasetType components self')
        as [self'' [[]|e]].
    + intros n Hn. apply Hone in Hn as [?|?]; [by left|right].
      set_solver.
  - intros n Hn. apply Hone in Hn as [?|?]; [by left|right]. set_solver.
Qed.

Lemma register_components_keeps (datasetType : DatasetType)
  (components : list (string * StorageClass)) (self : Manager) :
  keeps_names self (register_components datasetType components self).1.
Proof.
  unfold register_components. revert self.
  induction components as [|[component storageClass] components IHc];
    intros self; [apply keeps_names_refl|].
  rewrite for_cons, bind_run.
  pose proof (register_at_keeps storageClass
                (makeComponentDatasetType datasetType component storageClass)
                self) as Hsc.
  destruct (register_at storageClass _ self) as [self1 [r|e]]; [|done].
  cbn. eapply keeps_names_trans; [exact Hsc|apply IHc].
Qed.

Lemma registered_intro (datasetType : DatasetType) (self : Manager)
  (storage : Storage) :
  _byName self !! dt_name datasetType = Some storage ->
  st_datasetType storage = datasetType ->
  registered datasetType self.
Proof.
  intros Hget Hdt. exists storage. split; [|done].
  unfold find. run. by rewrite Hget.
Qed.

(** When the loop over the components returns, each component is cached as
    its own dataset type. *)
Lemma register_components_registered (datasetType : DatasetType)
  (components : list (string * StorageClass)) (self self' : Manager) :
  register_components datasetType components self = (self', Ok tt) ->
  forall component storageClass,
    (component, storageClass) ∈ components ->
    registered
      (makeComponentDatasetType datasetType component storageClass) self'.
Proof.
  revert self.
  induction components as [|[component0 storageClass0] components IHc];
    intros self Hrun component storageClass Hin.
  { by apply elem_of_nil in Hin. }
  unfold register_components in Hrun. rewrite for_cons, bind_run in Hrun.
  destruct (register_at storageClass0 _ self)
    as [self1 [[storage inserted]|e]] eqn:Hfirst; [|done].
  cbn in Hrun. fold (register_components datasetType components self1) in Hrun.
  apply elem_of_cons in Hin as [[= -> ->]|Hin].
  - apply register_at_registered in Hfirst as [Hget Hdt].
    pose proof (register_components_keeps datasetType components self1)
      as Hkeeps.
    rewrite Hrun in Hkeeps. simpl in Hkeeps.
    eapply registered_keeps; [exact Hkeeps|].
    by eapply registered_intro.
  - by apply (IHc self1).
Qed.

(** The rows of the directory that a call has added are rows of [name]. *)
Definition adds_rows_only (name : string) (self self' : Manager) : Prop :=
  forall row,
    row ∈ db_dataset_type (_db self') ->
    row ∈ db_dataset_type (_db self) \/ row_name row = name.

Lemma register_one_rows (storageClassName : string)
  (datasetType : DatasetType) (self : Manager) :
  adds_rows_only (dt_name datasetType) self
    (register_one storageClassName datasetType self).1.
Proof.
  unfold register_one, db_sync, db_ensureTableExists. run.
  destruct (_byName self !! dt_name datasetType) as [storage|].
  - destruct (decide _); run; intros row Hrow; by left.
  - run.
    match goal with
    | |- context [List.find ?f ?l] => destruct (List.find f l) as [row0|]
    end.
    + destruct (_ && _); run; [|intros row Hrow; by left].
      destruct (bool_decide _); run; intros row Hrow; by left.
    + run. destruct (bool_decide _); run; intros row Hrow;
        apply elem_of_app in Hrow as [?|Hrow%list_elem_of_singleton];
        (by left) || (subst row; by right).
Qed.

(** C7, as the code has it: when [register] returns, the dataset type is
    cached under its name; when it has inserted the row of the dataset type
    ([inserted = True]), every declared component is cached as its own
    dataset type and [find] returns it; the names the call has added to the
    cache are names of the dataset type, of its components and of their
    components; and when it has inserted no row or the dataset type is not
    a composite, the call has cached no name and added no directory row
    other than those of the dataset type named in the argument. *)
Theorem register_cascade (self self' : Manager) (datasetType : DatasetType)
  (storage : Storage) (inserted : bool) :
  register datasetType self = (self', Ok (storage, inserted)) ->
  registered datasetType self' /\
  (inserted = true ->
   forall component storageClass,
     (component, storageClass) ∈ sc_components (dt_storageClass datasetType) ->
     registered
       (makeComponentDatasetType datasetType component storageClass) self') /\
  adds_only
    (map dt_name (component_family (dt_storageClass datasetType) datasetType))
    self self' /\
  (inserted = false \/ dt_isComposite datasetType = false ->
   adds_only [dt_name datasetType] self self' /\
   adds_rows_only (dt_name datasetType) self self').
Proof.
  intros Hrun. split_and!.
  - apply register_at_registered in Hrun as [Hget Hdt].
    by eapply registered_intro.
  - intros -> component storageClass Hin. unfold register in Hrun.
    destruct (dt_storageClass datasetType) as [name components] eqn:Hsc.
    simpl in Hin. rewrite register_at_unfold in Hrun.
    destruct (register_one name datasetType self)
      as [self1 [[storage1 inserted1]|e]]; [|done].
    assert (dt_isComposite datasetType = true) as Hcomposite.
    { unfold dt_isComposite. rewrite Hsc. simpl.
      destruct components; [by apply elem_of_nil in Hin|done]. }
    rewrite Hcomposite, andb_true_r in Hrun.
    destruct inserted1; [|by simplify_eq].
    destruct (register_components datasetType components self1)
      as [self2 [[]|e]] eqn:Hloop; [|done].
    simplify_eq.
    by apply (register_components_registered _ _ _ _ Hloop).
  - pose proof (register_at_adds (dt_storageClass datasetType) datasetType
                  self) as Hadds.
    unfold register in Hrun. by rewrite Hrun in Hadds.
  - intros Hsingle. unfold register in Hrun.
    destruct (dt_storageClass datasetType) as [name components].
    rewrite register_at_unfold in Hrun.
    pose proof (register_one_adds name datasetType self) as Hadds.
    pose proof (register_one_rows name datasetType self) as Hrows.
    destruct (register_one name datasetType self)
      as [self1 [[storage1 inserted1]|e]]; [|done].
    destruct (inserted1 && dt_isComposite datasetType) eqn:Hboth.
    + exfalso. apply andb_true_iff in Hboth as [-> Hcomposite].
      destruct (register_components datasetType components self1)
        as [self2 [[]|e]]; [|done].
      simplify_eq. destruct Hsingle; congruence.
    + by simplify_eq.
Qed.

End ManagerProperties.

(** ** Resolving a dataset id *)

Section GetDatasetRef.

Context {DataCoordinate : Type} `{Collaborators DataCoordinate}.

(** The foreign key of the dataset table on the directory: the dataset
    type of every dataset row is a row of the directory. *)
Definition foreign_keys (self : Manager) : Prop :=
  forall row,
    row ∈ db_dataset (_db self) ->
    exists type_row,
      type_row ∈ db_dataset_type (_db self) /\
      row_id type_row = dataset_type_id row.

(** The number of times the directory has been read in full, which only
    [refresh] does. *)
Definition refreshes (self : Manager) : nat :=
  length (List.filter (fun call => bool_decide (call = Db_query_dataset_type))
            (db_calls (_db self))).

(** Two managers over the same tables. *)
Definition same_tables (self self' : Manager) : Prop :=
  db_dataset_type (_db self') = db_dataset_type (_db self) /\
  db_dataset (_db self') = db_dataset (_db self) /\
  db_tables (_db self') = db_tables (_db self) /\
  db_next_id (_db self') = db_next_id (_db self).

Lemma refreshes_log (call : DatabaseCall) (self : Manager) :
  refreshes (with_db (db_log call) self)
  = (refreshes self
     + if bool_decide (call = Db_query_dataset_type) then 1 else 0)%nat.
Proof.
  unfold refreshes. simpl. rewrite List.filter_app, length_app. simpl.
  by destruct (bool_decide (call = Db_query_dataset_type)).
Qed.

(** The storage that [refresh] builds from a row of the directory. *)
Definition row_storage (self : Manager) (row : DatasetTypeRow) : Storage :=
  let datasetType :=
    {| dt_name := row_name row;
       dt_dimensions := DimensionGraph_decode (row_dimensions_encoded row);
       dt_storageClass := getStorageClass (row_storage_class row);
       dt_isCalibration := false |} in
  {| st_datasetType := datasetType;
     st_dynamic :=
       if bool_decide (makeDynamicTableName datasetType
                       ∈ db_tables (_db self))
       then Some (makeDynamicTableName datasetType) else None;
     _dataset_type_id := row_id row |}.

Lemma refresh_row_run (byName : gmap string Storage) (byId : gmap Z Storage)
  (row : DatasetTypeRow) (self : Manager) :
  exists table,
    refresh_row (byName, byId) row self
    = (with_db (db_log (Db_getExistingTable table)) self,
       Ok (<[row_name row := row_storage self row]> byName,
           <[row_id row := row_storage self row]> byId)).
Proof.
  eexists. unfold refresh_row, db_getExistingTable, row_storage. run.
  destruct (bool_decide _); reflexivity.
Qed.

Lemma refresh_rows_spec (rows : list DatasetTypeRow) :
  forall caches self,
    exists self' caches',
      foldM refresh_row caches rows self = (self', Ok caches') /\
      _byName self' = _byName self /\ _byId self' = _byId self /\
      same_tables self self' /\ refreshes self' = refreshes self /\
      (forall id, is_Some (caches.2 !! id) -> is_Some (caches'.2 !! id)) /\
      (forall row, row ∈ rows -> is_Some (caches'.2 !! row_id row)).
Proof.
  induction rows as [|row rows IH]; intros [byName byId] self.
  - exists self, (byName, byId). split_and!; try done.
    by intros row ?%elem_of_nil.
  - rewrite foldM_cons.
    destruct (refresh_row_run byName byId row self) as [table ->].
    destruct (IH (<[row_name row := row_storage self row]> byName,
                  <[row_id row := row_storage self row]> byId)
                (with_db (db_log (Db_getExistingTable table)) self))
      as (self' & caches' & Hrun & Hn & Hi & Ht & Hr & Hkeep & Hrows).
    exists self', caches'. split_and!; try done.
    + rewrite Hr, refreshes_log.
      rewrite bool_decide_false by done. lia.
    + intros id Hid. apply Hkeep. simpl in *.
      destruct (decide (row_id row = id)) as [->|Hne];
        [by rewrite lookup_insert_eq|by rewrite lookup_insert_ne].
    + intros row' [->|Hin]%elem_of_cons; [|by apply Hrows].
      apply Hkeep. simpl. by rewrite lookup_insert_eq.
Qed.

(** [refresh] returns, reads the directory once, and caches a storage under
    the id of every row of the directory. *)
Lemma refresh_run (self : Manager) :
  exists self',
    refresh self = (self', Ok tt) /\
    same_tables self self' /\
    refreshes self' = S (refreshes self) /\
    forall row,
      row ∈ db_dataset_type (_db self) -> is_Some (_byId self' !! row_id row).
Proof.
  unfold refresh, db_query_dataset_type. rewrite !bind_run. run.
  destruct (refresh_rows_spec (db_dataset_type (_db self)) (∅, ∅)
              (with_db (db_log Db_query_dataset_type) self))
    as (self' & caches' & Hrun & Hn & Hi & Ht & Hr & _ & Hrows).
  simpl in Hrun. rewrite Hrun.
  eexists. split; [reflexivity|]. simpl. split_and!.
  - exact Ht.
  - unfold refreshes in *. simpl in *. rewrite Hr.
    rewrite List.filter_app, length_app. simpl. lia.
  - exact Hrows.
Qed.

Lemma db_query_dataset_run (id : Z) (self : Manager) :
  db_query_dataset id self
  = (with_db (db_log (Db_query_dataset id)) self,
     Ok (List.find (fun row => bool_decide (dataset_id row = id))
           (db_dataset (_db self)))).
Proof. reflexivity. Qed.

Lemma getDataId_run (storage : Storage) (id : Z) (self : Manager) :
  getDataId storage id self
  = (with_db (db_log (Db_query_dynamic (st_dynamic storage) id)) self,
     Ok (storage_getDataId (st_dynamic storage) id)).
Proof. reflexivity. Qed.

(** The end of [getDatasetRef], once the storage of the dataset type is
    known: the data ID is read from the dynamic table, and the run is looked
    up by its key, which raises [KeyError] for a key that the collection
    manager does not have. *)
Definition getDatasetRef_result (storage : Storage) (id : Z)
  (row : DatasetRow) : Result (option (@DatasetRef DataCoordinate)) :=
  match collections_getitem (dataset_run row) with
  | Some run =>
      Ok (Some {| ref_datasetType := st_datasetType storage;
                  ref_dataId := storage_getDataId (st_dynamic storage) id;
                  ref_id := Some id; ref_run := Some (cr_name run) |})
  | None => Raise (KeyError "runKey")
  end.

Lemma getDatasetRef_finish (storage : Storage) (id : Z)
  (row : DatasetRow) (self : Manager) :
  (dataId ← getDataId storage id;
   run ← match collections_getitem (dataset_run row) with
          | Some record => mret record
          | None => raise (KeyError "runKey")
          end;
   mret (Some {| ref_datasetType := st_datasetType storage;
                 ref_dataId := dataId; ref_id := Some id;
                 ref_run := Some (cr_name run) |})) self
  = (with_db (db_log (Db_query_dynamic (st_dynamic storage) id)) self,
     getDatasetRef_result storage id row).
Proof.
  rewrite bind_run, getDataId_run. unfold getDatasetRef_result.
  by destruct (collections_getitem (dataset_run row)).
Qed.

(** C9: [getDatasetRef] returns [None] for an id without a row, whatever
    the state of the manager.  For an id with a row, under the foreign key
    of the dataset table (the dataset type of every dataset row is a row of
    the directory): when the dataset type is cached the call answers from
    the cache without a refresh; when it is not, the call refreshes exactly
    once and finds the storage in the refreshed cache, so the assertion
    after the second lookup does not fail.  The call then returns the
    reference, or raises [KeyError] if the collection manager does not have
    the run of the row. *)
Theorem getDatasetRef_refresh_once (self : Manager) (id : Z) :
  match List.find (fun row => bool_decide (dataset_id row = id))
          (db_dataset (_db self)) with
  | None =>
      getDatasetRef id self
      = (with_db (db_log (Db_query_dataset id)) self, Ok None)
  | Some row =>
      foreign_keys self ->
      exists storage,
        _byId (getDatasetRef id self).1 !! dataset_type_id row
        = Some storage /\
        (getDatasetRef id self).2 = getDatasetRef_result storage id row /\
        (forall message,
           (getDatasetRef id self).2 <> Raise (AssertionError message)) /\
        match _byId self !! dataset_type_id row with
        | Some cached =>
            storage = cached /\
            refreshes (getDatasetRef id self).1 = refreshes self
        | None =>
            refreshes (getDatasetRef id self).1 = S (refreshes self)
        end
  end.
Proof.
  unfold getDatasetRef.
  rewrite bind_run, db_query_dataset_run.
  destruct (List.find _ (db_dataset (_db self))) as [row|] eqn:Hfind;
    [|done].
  intros Hfk.
  apply find_some in Hfind as [Hin%list_elem_of_In _].
  destruct (Hfk row Hin) as (type_row & Htype & Hid).
  set (self1 := with_db (db_log (Db_query_dataset id)) self).
  assert (forall storage message,
            getDatasetRef_result storage id row
            <> Raise (AssertionError message)) as Hassert.
  { intros storage message. unfold getDatasetRef_result.
    by destruct (collections_getitem (dataset_run row)). }
  rewrite (bind_run get). cbn [get]. rewrite bind_run.
  change (_byId self1) with (_byId self).
  destruct (_byId self !! dataset_type_id row) as [cached|] eqn:Hcached.
  - exists cached. cbn [mret M_ret ret].
    rewrite getDatasetRef_finish. cbn [fst snd].
    split_and!; try done.
    unfold self1. by rewrite !refreshes_log, !Nat.add_0_r.
  - destruct (refresh_run self1) as (self2 & Hrefresh & Ht & Hr & Hrows).
    rewrite bind_run, Hrefresh. rewrite (bind_run get). cbn [get].
    destruct (Hrows type_row) as [storage Hstorage]; [exact Htype|].
    rewrite Hid in Hstorage. rewrite Hstorage. cbn [mret M_ret ret].
    exists storage.
    rewrite getDatasetRef_finish. cbn [fst snd].
    split_and!; try done.
    rewrite refreshes_log, Nat.add_0_r, Hr. unfold self1.
    by rewrite refreshes_log, Nat.add_0_r.
Qed.

End GetDatasetRef.

(** ** The sample repository under the manager *)

Lemma register_conflict_witness :
  register calexp_by_visit registered_manager
  = (registered_manager,
     Raise (ConflictingDefinitionError calexp_by_visit calexp)).
Proof.
  apply (register_conflict registered_manager calexp_by_visit
           calexp_storage).
  - vm_compute. reflexivity.
  - left. discriminate.
Defined.

Lemma register_idempotent_witness :
  register calexp new_manager = (registered_manager, Ok (calexp_storage, true))
  /\ register calexp registered_manager
     = (registered_manager, Ok (calexp_storage, false)).
Proof.
  assert (register calexp new_manager
          = (registered_manager, Ok (calexp_storage, true))) as Hfirst
    by (vm_compute; reflexivity).
  split; [exact Hfirst|].
  exact (register_idempotent new_manager registered_manager calexp
           calexp_storage true Hfirst).
Defined.

Lemma register_cascade_witness :
  register calexp new_manager = (registered_manager, Ok (calexp_storage, true))
  /\ registered
       (makeComponentDatasetType calexp "wcs" (mkStorageClass "Wcs" []))
       registered_manager.
Proof.
  assert (register calexp new_manager
          = (registered_manager, Ok (calexp_storage, true))) as Hfirst
    by (vm_compute; reflexivity).
  split; [exact Hfirst|].
  destruct (register_cascade new_manager registered_manager calexp
              calexp_storage true Hfirst) as (_ & Hcomponents & _).
  apply Hcomponents; [reflexivity|]. left.
Defined.

(** The second process registers the composite [calexp]: the row exists, so
    nothing is inserted, no component is registered, and [find] does not
    return the components. *)
Lemma register_composite_without_cascade :
  (register calexp stale_manager).2 = Ok (calexp_storage, false) /\
  dt_isComposite calexp = true /\
  (find "calexp.wcs" (register calexp stale_manager).1).2 = Ok None /\
  (find "calexp.image" (register calexp stale_manager).1).2 = Ok None.
Proof. vm_compute. done. Qed.

Lemma stale_manager_foreign_keys : foreign_keys stale_manager.
Proof.
  intros row Hrow. vm_compute in Hrow.
  apply elem_of_cons in Hrow as [->|Hrow]; [|by apply elem_of_nil in Hrow].
  exists {| row_id := 1; row_name := "calexp";
            row_dimensions_encoded := "instrument";
            row_storage_class := "Exposure" |}.
  split; [|reflexivity]. vm_compute. left.
Qed.

(** The same repository with a dataset row whose run the collection
    manager does not have: the foreign key on the directory holds. *)
Definition no_run_manager : ByDimensionsDatasetRecordStorageManager :=
  {| _db := {| db_dataset_type := db_dataset_type (_db stale_manager);
               db_dataset := [{| dataset_id := 7; dataset_run := 2;
                                 dataset_type_id := 1 |}];
               db_tables := db_tables (_db stale_manager);
               db_next_id := db_next_id (_db stale_manager);
               db_calls := [] |};
     _byName := ∅; _byId := ∅ |}.

Lemma no_run_manager_foreign_keys : foreign_keys no_run_manager.
Proof.
  intros row Hrow. vm_compute in Hrow.
  apply elem_of_cons in Hrow as [->|Hrow]; [|by apply elem_of_nil in Hrow].
  exists {| row_id := 1; row_name := "calexp";
            row_dimensions_encoded := "instrument";
            row_storage_class := "Exposure" |}.
  split; [|reflexivity]. vm_compute. left.
Qed.

(** With the run of the row known, one refresh and the reference; with the
    run unknown, one refresh and [KeyError], not the assertion. *)
Lemma getDatasetRef_refresh_once_witness :
  foreign_keys stale_manager /\
  (exists ref, (getDatasetRef 7 stale_manager).2 = Ok (Some ref)) /\
  refreshes (getDatasetRef 7 stale_manager).1 = 1%nat /\
  foreign_keys no_run_manager /\
  (getDatasetRef 7 no_run_manager).2 = Raise (KeyError "runKey") /\
  refreshes (getDatasetRef 7 no_run_manager).1 = 1%nat.
Proof.
  split; [exact stale_manager_foreign_keys|].
  pose proof (getDatasetRef_refresh_once stale_manager 7) as Hspec.
  change (List.find _ (db_dataset (_db stale_manager)))
    with (Some {| dataset_id := 7; dataset_run := 1; dataset_type_id := 1 |})
    in Hspec.
  destruct (Hspec stale_manager_foreign_keys)
    as (storage & _ & Hresult & _ & Hcount).
  split; [by eexists|].
  change (_byId stale_manager !! _) with (@None Storage) in Hcount.
  split; [exact Hcount|].
  split; [exact no_run_manager_foreign_keys|].
  pose proof (getDatasetRef_refresh_once no_run_manager 7) as Hspec'.
  change (List.find _ (db_dataset (_db no_run_manager)))
    with (Some {| dataset_id := 7; dataset_run := 2; dataset_type_id := 1 |})
    in Hspec'.
  destruct (Hspec' no_run_manager_foreign_keys)
    as (storage' & _ & Hresult' & _ & Hcount').
  split; [exact Hresult'|].
  change (_byId no_run_manager !! _) with (@None Storage) in Hcount'.
  exact Hcount'.
Defined.

(** ** The calls of [_finish] *)

Section FinishProperties.

Context {DataCoordinate FileDataset : Type}.
Context `{DataCoordinate_eq_dec : EqDecision DataCoordinate}.
Context {DataCoordinate_PyOrd : PyOrd DataCoordinate}.
Context {FileDataset_PyOrd : PyOrd FileDataset}.
Context {DatasetAssociation_PyOrd : PyOrd (@DatasetAssociation DataCoordinate)}.

Abbreviation Ctx := (@RepoExportContext DataCoordinate FileDataset).
Abbreviation Call := (@BackendCall DataCoordinate FileDataset).

(** The context after the backend has received further calls. *)
Definition emit (calls : list Call) (self : Ctx) : Ctx :=
  with_backend (fun received => received ++ calls) self.

Lemma emit_nil (self : Ctx) : emit [] self = self.
Proof. destruct self. unfold emit, with_backend. simpl. by rewrite app_nil_r. Qed.

Lemma emit_emit (calls calls' : list Call) (self : Ctx) :
  emit calls' (emit calls self) = emit (calls ++ calls') self.
Proof. unfold emit, with_backend. simpl. by rewrite app_assoc. Qed.

Lemma backend_run (call : Call) (self : Ctx) :
  backend call self = (emit [call] self, Ok tt).
Proof. reflexivity. Qed.

Lemma for_app {S A} (l1 l2 : list A) (body : A -> M S unit) (s : S) :
  for_ (l1 ++ l2) body s
  = match for_ l1 body s with
    | (s', Ok _) => for_ l2 body s'
    | (s', Raise e) => (s', Raise e)
    end.
Proof.
  revert s. induction l1 as [|x l1 IH]; intros s; [done|].
  rewrite <- app_comm_cons, !for_cons.
  destruct (body x s) as [s' [[]|e]]; [apply IH|done].
Qed.

Lemma for_flat_map {S A B} (g : A -> list B) (l : list A)
  (body : B -> M S unit) (s : S) :
  for_ l (fun x => for_ (g x) body) s = for_ (flat_map g l) body s.
Proof.
  revert s. induction l as [|x l IH]; intros s; [done|].
  cbn [flat_map]. rewrite for_cons, for_app.
  destruct (for_ (g x) body s) as [s' [[]|e]]; [apply IH|done].
Qed.

(** A loop whose iterations only call the backend. *)
Lemma for_emit {A} (l : list A) (body : A -> M Ctx unit)
  (f : A -> list Call) (self : Ctx) :
  (forall x calls,
     x ∈ l ->
     body x (emit calls self) = (emit (calls ++ f x) self, Ok tt)) ->
  forall calls,
    for_ l body (emit calls self)
    = (emit (calls ++ flat_map f l) self, Ok tt).
Proof.
  induction l as [|x l IH]; intros Hbody calls.
  - simpl. by rewrite app_nil_r.
  - rewrite for_cons, Hbody by left. rewrite IH.
    + cbn [flat_map]. by rewrite app_assoc.
    + intros y calls' Hy. apply Hbody. by right.
Qed.

(** Reading the keys of a dictionary back from it. *)
Lemma mapM_getitem {S K V} `{EqDecision K} (what : K -> string)
  (keys : list K) (d : dict K V) (s : S) :
  (forall k, k ∈ keys -> k ∈ dict_keys d) ->
  mapM (fun k => getitem (what k) k d) keys s
  = (s, Ok (omap (fun k => dict_get k d) keys)).
Proof.
  induction keys as [|k keys IH]; intros Hkeys; [done|].
  cbn [mapM omap]. unfold bind at 1.
  destruct (proj2 (dict_get_is_Some k d) (Hkeys k ltac:(left)))
    as [v Hv].
  unfold getitem at 1. rewrite Hv. cbn [ret]. unfold bind at 1.
  rewrite IH by (intros k' Hk'; apply Hkeys; by right).
  cbn. by rewrite Hv.
Qed.

(** *** The phases, as lists of calls *)

(** The records of an element, in the order of their data IDs. *)
Definition dimension_data (self : Ctx) (element : DimensionElement)
  : list DimensionRecord :=
  let r := default [] (dict_get element (_records self)) in
  omap (fun dataId => dict_get dataId r) (sorted (dict_keys r)).

(** Phase 1: one call per element with accumulated records, the elements in
    the universe's dependency order. *)
Definition dimension_calls (self : Ctx) : list Call :=
  map (fun element =>
         Backend_saveDimensionData element (dimension_data self element))
    (dimensions_sorted (_registry self) (dict_keys (_records self))).

(** The runs of the exported datasets. *)
Definition dataset_runs (self : Ctx) : list string :=
  flat_map dict_keys (dict_values (_datasets self)).

(** Phase 2: the runs are resolved and added to the collections; a run that
    the repository does not have stops the export. *)
Fixpoint resolve_runs (registry : @Registry DataCoordinate)
  (runs : list string) (collections : dict string CollectionRecord)
  : dict string CollectionRecord * option Exc :=
  match runs with
  | [] => (collections, None)
  | run :: runs' =>
      match find_collection registry run with
      | Some record =>
          resolve_runs registry runs' (dict_set run record collections)
      | None => (collections, Some (MissingCollectionError run))
      end
  end.

(** Phase 3: one call per collection, with its documentation. *)
Definition collection_calls (registry : @Registry DataCoordinate)
  (collections : dict string CollectionRecord) (names : list string)
  : list Call :=
  omap (fun name =>
          (fun record =>
             Backend_saveCollection record (reg_documentation registry name))
          <$> dict_get name collections)
    names.

(** Phase 4: one call per dataset type and run, types and runs by name,
    the file datasets sorted. *)
Definition dataset_calls (self : Ctx) : list Call :=
  flat_map
    (fun datasetType =>
       let byRun := default [] (dict_get datasetType (_datasets self)) in
       omap (fun run =>
               (fun records =>
                  Backend_saveDatasets datasetType run (sorted records))
               <$> dict_get run byRun)
         (sorted (dict_keys byRun)))
    (sorted (dict_keys (_datasets self))).

(** Phase 5: one call per collection with associations, by name, the
    associations sorted. *)
Definition association_calls (self : Ctx) : list Call :=
  let datasetAssociations := _computeDatasetAssociations self in
  omap (fun collection =>
          record ← dict_get collection (_collections self);
          associations ← dict_get collection datasetAssociations;
          Some (Backend_saveDatasetAssociations collection (cr_type record)
                  (sorted associations)))
    (sorted (dict_keys datasetAssociations)).

(** *** The loops of [_finish] *)

Definition finish_dimensions (self : Ctx) : M Ctx unit :=
  for_ (dimensions_sorted (_registry self) (dict_keys (_records self)))
    (fun element =>
       r ← getitem "element" element (_records self);
       data ← mapM (fun dataId => getitem "dataId" dataId r)
                (sorted (dict_keys r));
       backend (Backend_saveDimensionData element data)).

Definition finish_runs (self : Ctx) : M Ctx unit :=
  for_ (dict_values (_datasets self))
    (fun datasetsByRun =>
       for_ (dict_keys datasetsByRun)
         (fun run =>
            record ← registry_collections_find run;
            modify (with_collections (dict_set run record)))).

Definition finish_collections (names : list string) : M Ctx unit :=
  for_ names
    (fun collectionName =>
       self ← get;
       let doc := reg_documentation (_registry self) collectionName in
       record ← getitem collectionName collectionName (_collections self);
       backend (Backend_saveCollection record doc)).

Definition finish_datasets (self : Ctx) : M Ctx unit :=
  for_ (sorted (dict_keys (_datasets self)))
    (fun datasetType =>
       byRun ← getitem (dt_name datasetType) datasetType (_datasets self);
       for_ (sorted (dict_keys byRun))
         (fun run =>
            records ← getitem run run byRun;
            backend (Backend_saveDatasets datasetType run (sorted records)))).

Definition finish_associations (self : Ctx) : M Ctx unit :=
  let datasetAssociations := _computeDatasetAssociations self in
  for_ (sorted (dict_keys datasetAssociations))
    (fun collection =>
       record ← getitem collection collection (_collections self);
       associations ← getitem collection collection datasetAssociations;
       backend (Backend_saveDatasetAssociations collection (cr_type record)
                  (sorted associations))).

Lemma finish_unfold (self : Ctx) :
  _finish self
  = (finish_dimensions self;;
     finish_runs self;;
     names ← _computeSortedCollections;
     finish_collections names;;
     self' ← get;
     finish_datasets self';;
     self'' ← get;
     finish_associations self'';;
     backend Backend_finish) self.
Proof. reflexivity. Qed.

Lemma flat_map_option_list {A B} (g : A -> option B) (l : list A) :
  flat_map (fun x => option_list (g x)) l = omap g l.
Proof.
  induction l as [|x l IH]; [done|]. cbn [flat_map omap list_omap].
  rewrite IH. by destruct (g x).
Qed.

Lemma flat_map_singleton {A B} (g : A -> B) (l : list A) :
  flat_map (fun x => [g x]) l = map g l.
Proof. induction l as [|x l IH]; [done|]. simpl. by rewrite IH. Qed.

Lemma getitem_Some {S K V} `{EqDecision K} (what : string) (k : K)
  (v : V) (d : dict K V) (s : S) :
  dict_get k d = Some v -> getitem what k d s = (s, Ok v).
Proof. intros Hget. unfold getitem. by rewrite Hget. Qed.

Lemma finish_dimensions_run (self : Ctx) (calls : list Call) :
  finish_dimensions self (emit calls self)
  = (emit (calls ++ dimension_calls self) self, Ok tt).
Proof.
  unfold finish_dimensions, dimension_calls.
  rewrite <- flat_map_singleton. apply for_emit.
  intros element calls' Hin.
  apply elem_of_filter_bool in Hin as [_ Hin%bool_decide_eq_true].
  apply dict_get_is_Some in Hin as [r Hr].
  rewrite bind_run, (getitem_Some _ _ _ _ _ Hr).
  rewrite bind_run, mapM_getitem.
  - rewrite backend_run, emit_emit. unfold dimension_data.
    by rewrite Hr.
  - intros dataId. by rewrite sorted_elem_of.
Qed.

Lemma with_collections_id (self : Ctx) :
  with_collections (fun _ => _collections self) self = self.
Proof. by destruct self. Qed.

(** The loop over the runs, from any state. *)
Lemma resolve_runs_run (runs : list string) (self : Ctx) :
  for_ runs
    (fun run =>
       record ← registry_collections_find run;
       modify (with_collections (dict_set run record))) self
  = (with_collections
       (fun _ => (resolve_runs (_registry self) runs (_collections self)).1)
       self,
     match (resolve_runs (_registry self) runs (_collections self)).2 with
     | None => Ok tt
     | Some e => Raise e
     end).
Proof.
  revert self. induction runs as [|run runs IH]; intros self.
  - simpl. by rewrite with_collections_id.
  - rewrite for_cons. cbn [resolve_runs].
    unfold registry_collections_find at 1. rewrite !bind_run. cbn [get].
    destruct (find_collection (_registry self) run) as [record|].
    + cbn [mret M_ret ret modify]. rewrite IH. reflexivity.
    + cbn. by rewrite with_collections_id.
Qed.

Lemma finish_runs_run (self : Ctx) (calls : list Call) :
  finish_runs self (emit calls self)
  = (emit calls
       (with_collections
          (fun _ => (resolve_runs (_registry self) (dataset_runs self)
                       (_collections self)).1) self),
     match (resolve_runs (_registry self) (dataset_runs self)
              (_collections self)).2 with
     | None => Ok tt
     | Some e => Raise e
     end).
Proof.
  unfold finish_runs. rewrite for_flat_map. fold (dataset_runs self).
  by rewrite resolve_runs_run.
Qed.

Lemma finish_collections_run (names : list string) (self : Ctx)
  (calls : list Call) :
  (forall name, name ∈ names -> name ∈ dict_keys (_collections self)) ->
  finish_collections names (emit calls self)
  = (emit (calls
           ++ collection_calls (_registry self) (_collections self) names)
       self, Ok tt).
Proof.
  intros Hnames. unfold finish_collections, collection_calls.
  rewrite <- flat_map_option_list. apply for_emit.
  intros name calls' Hin.
  apply Hnames, dict_get_is_Some in Hin as [record Hr].
  rewrite (bind_run get). cbn [get].
  change (_collections (emit calls' self)) with (_collections self).
  change (_registry (emit calls' self)) with (_registry self).
  rewrite bind_run, (getitem_Some _ _ _ _ _ Hr).
  rewrite backend_run, emit_emit. by rewrite Hr.
Qed.

Lemma finish_datasets_run (self : Ctx) (calls : list Call) :
  finish_datasets self (emit calls self)
  = (emit (calls ++ dataset_calls self) self, Ok tt).
Proof.
  unfold finish_datasets, dataset_calls. apply for_emit.
  intros datasetType calls' Hin. rewrite sorted_elem_of in Hin.
  apply dict_get_is_Some in Hin as [byRun Hr].
  rewrite bind_run, (getitem_Some _ _ _ _ _ Hr). rewrite Hr. cbn [default].
  rewrite <- flat_map_option_list. apply for_emit.
  intros run calls'' Hin. rewrite sorted_elem_of in Hin.
  apply dict_get_is_Some in Hin as [records Hrecords].
  rewrite bind_run, (getitem_Some _ _ _ _ _ Hrecords).
  rewrite backend_run, emit_emit. by rewrite Hrecords.
Qed.

Lemma elem_of_keys_defaultdict_update {K V} `{EqDecision K} (default : V)
  (k k' : K) (f : V -> V) (d : dict K V) :
  k' ∈ dict_keys (defaultdict_update default k f d) <->
  k' = k \/ k' ∈ dict_keys d.
Proof.
  rewrite <- !dict_get_is_Some, dict_get_defaultdict_update.
  destruct (decide (k' = k)) as [->|Hne].
  - split; [by left|by eexists].
  - split; [by right|]. by intros [?|?].
Qed.

(** Only collections of the context get a list of associations. *)
Lemma computeDatasetAssociations_keys (self : Ctx) (collection : string) :
  collection ∈ dict_keys (_computeDatasetAssociations self) ->
  collection ∈ dict_keys (_collections self).
Proof.
  unfold _computeDatasetAssociations.
  assert (forall k, k ∈ dict_keys (@nil (string * list (@DatasetAssociation DataCoordinate))) ->
                    k ∈ dict_keys (_collections self)) as Hnil
    by (by intros k ?%elem_of_nil).
  revert Hnil.
  generalize (@nil (string * list (@DatasetAssociation DataCoordinate))).
  generalize (dict_keys (_datasets self)). intros datasetTypes.
  induction datasetTypes as [|datasetType datasetTypes IH];
    intros results Hresults; [by apply Hresults|].
  cbn [foldl]. apply IH. clear IH.
  assert (forall association,
            association ∈ queryDatasetAssociations (_registry self)
                            datasetType (dict_keys (_collections self))
                            (if dt_isCalibration datasetType
                             then [TAGGED; CALIBRATION] else [TAGGED]) ->
            assoc_collection association ∈ dict_keys (_collections self))
    as Hquery.
  { intros association Hin.
    by apply elem_of_queryDatasetAssociations in Hin as (_ & ? & _). }
  revert Hquery Hresults.
  generalize (queryDatasetAssociations (_registry self) datasetType
                (dict_keys (_collections self))
                (if dt_isCalibration datasetType
                 then [TAGGED; CALIBRATION] else [TAGGED])).
  intros associationIter. revert results.
  induction associationIter as [|association associationIter IH];
    intros results Hquery Hresults; [done|].
  cbn [foldl]. apply IH.
  - intros a Ha. apply Hquery. by right.
  - destruct (id_in _ _); [|done].
    intros k [->|Hk]%elem_of_keys_defaultdict_update; [|by apply Hresults].
    apply Hquery. left.
Qed.

Lemma finish_associations_run (self : Ctx) (calls : list Call) :
  finish_associations self (emit calls self)
  = (emit (calls ++ association_calls self) self, Ok tt).
Proof.
  unfold finish_associations, association_calls. cbn zeta.
  rewrite <- flat_map_option_list. apply for_emit.
  intros collection calls' Hin. rewrite sorted_elem_of in Hin.
  pose proof (computeDatasetAssociations_keys _ _ Hin) as Hkey.
  apply dict_get_is_Some in Hin as [associations Ha].
  apply dict_get_is_Some in Hkey as [record Hr].
  rewrite bind_run, (getitem_Some _ _ _ _ _ Hr).
  rewrite bind_run, (getitem_Some _ _ _ _ _ Ha).
  rewrite backend_run, emit_emit. rewrite Hr, Ha. reflexivity.
Qed.

(** *** [_finish] as a whole *)

(** The collections once the runs of the datasets are added, and the error
    of the first run that the repository does not have. *)
Definition with_runs (self : Ctx) : dict string CollectionRecord :=
  (resolve_runs (_registry self) (dataset_runs self) (_collections self)).1.

Definition unresolved_run (self : Ctx) : option Exc :=
  (resolve_runs (_registry self) (dataset_runs self) (_collections self)).2.

Definition resolved (self : Ctx) : Ctx :=
  with_collections (fun _ => with_runs self) self.

(** The calls the backend receives from [_finish], and what [_finish]
    returns. *)
Definition finish_outcome (self : Ctx) : list Call * Result unit :=
  match unresolved_run self with
  | Some e => (dimension_calls self, Raise e)
  | None =>
      match computeSortedCollections (with_runs self) with
      | Raise e => (dimension_calls self, Raise e)
      | Ok names =>
          (dimension_calls self
           ++ collection_calls (_registry self) (with_runs self) names
           ++ dataset_calls self
           ++ association_calls (resolved self)
           ++ [Backend_finish],
           Ok tt)
      end
  end.

Lemma find_collection_name (registry : @Registry DataCoordinate)
  (name : string) (record : CollectionRecord) :
  find_collection registry name = Some record -> cr_name record = name.
Proof.
  unfold find_collection. intros Hfind.
  by apply find_some in Hfind as [_ Hname%bool_decide_eq_true].
Qed.

Lemma collections_wf_set (collections : dict string CollectionRecord)
  (record : CollectionRecord) :
  collections_wf collections ->
  collections_wf (dict_set (cr_name record) record collections).
Proof.
  intros [Hd Hname]. split; [by apply dict_set_wf|].
  intros name record' Hin.
  apply elem_of_dict_set in Hin as [[-> ->]|[_ Hin]]; [done| |done].
  by apply Hname.
Qed.

Lemma resolve_runs_wf (registry : @Registry DataCoordinate)
  (runs : list string) (collections : dict string CollectionRecord) :
  collections_wf collections ->
  collections_wf (resolve_runs registry runs collections).1.
Proof.
  revert collections. induction runs as [|run runs IH];
    intros collections Hwf; [done|].
  cbn [resolve_runs].
  destruct (find_collection registry run) as [record|] eqn:Hfind; [|done].
  apply IH. rewrite <- (find_collection_name _ _ _ Hfind).
  by apply collections_wf_set.
Qed.

Lemma computeSortedCollections_names
  (collections : dict string CollectionRecord) (names : list string) :
  collections_wf collections ->
  computeSortedCollections collections = Ok names ->
  forall name, name ∈ names -> name ∈ dict_keys collections.
Proof.
  intros Hwf Hrun name Hin.
  destruct (computeSortedCollections_cases collections Hwf)
    as [[Hraise _]|(batches & Hok & Hlevels)]; [congruence|].
  rewrite Hok in Hrun. injection Hrun as <-.
  apply elem_of_app in Hin as [Hin|Hin].
  - rewrite sorted_elem_of in Hin.
    by apply elem_of_others_of in Hin as [? _].
  - apply (levels_elem_of _ _ _ _ Hlevels) in Hin as (record & Hin & _).
    apply (list_elem_of_fmap_2 fst _ _ Hin).
Qed.

(** [_finish] on accumulated collections: the backend receives the calls of
    [finish_outcome], in this order, and [_finish] returns or raises as
    [finish_outcome] says. *)
Lemma finish_run (self : Ctx) :
  collections_wf (_collections self) ->
  _finish self
  = (emit (finish_outcome self).1 (resolved self), (finish_outcome self).2).
Proof.
  intros Hwf. rewrite finish_unfold.
  rewrite bind_run. rewrite <- (emit_nil self) at 2.
  rewrite finish_dimensions_run. cbn [app].
  rewrite bind_run, finish_runs_run.
  fold (with_runs self). fold (unresolved_run self). fold (resolved self).
  unfold finish_outcome.
  destruct (unresolved_run self) as [e|] eqn:Hruns; [done|].
  rewrite bind_run. unfold _computeSortedCollections.
  rewrite (bind_run get). cbn [get lift].
  change (_collections (emit (dimension_calls self) (resolved self)))
    with (with_runs self).
  pose proof (resolve_runs_wf (_registry self) (dataset_runs self) _ Hwf)
    as Hwf'. fold (with_runs self) in Hwf'.
  destruct (computeSortedCollections (with_runs self)) as [names|e] eqn:Hsort;
    [|done].
  rewrite bind_run, finish_collections_run
    by (apply (computeSortedCollections_names _ _ Hwf' Hsort)).
  rewrite (bind_run get). cbn [get].
  rewrite bind_run.
  match goal with
  | |- context [finish_datasets (emit ?c (resolved self))] =>
      change (finish_datasets (emit c (resolved self)))
        with (finish_datasets (resolved self))
  end.
  rewrite finish_datasets_run.
  rewrite (bind_run get). cbn [get].
  rewrite bind_run.
  match goal with
  | |- context [finish_associations (emit ?c (resolved self))] =>
      change (finish_associations (emit c (resolved self)))
        with (finish_associations (resolved self))
  end.
  rewrite finish_associations_run, backend_run, emit_emit.
  cbn [fst snd]. rewrite <- !app_assoc. reflexivity.
Qed.

(** X1: the phases of [_finish], in the conditions in which the code goes
    through all of them.  On accumulated collections, when every run of an
    exported dataset is a collection of the repository and the collections,
    with these runs added, have no cycle among their chains, [_finish]
    returns after the backend has received, in this order, the dimension
    records by element, the collections in the order of
    [_computeSortedCollections] with their documentation, the datasets by
    dataset type and run, the associations by collection, and
    [finish()]. *)
Theorem finish_phase_order (self : Ctx) :
  collections_wf (_collections self) ->
  (forall run,
     run ∈ dataset_runs self ->
     is_Some (find_collection (_registry self) run)) ->
  acyclic (with_runs self) ->
  exists names,
    computeSortedCollections (with_runs self) = Ok names /\
    _finish self
    = (emit (dimension_calls self
             ++ collection_calls (_registry self) (with_runs self) names
             ++ dataset_calls self
             ++ association_calls (resolved self)
             ++ [Backend_finish])
         (resolved self),
       Ok tt).
Proof.
  intros Hwf Hruns Hacyclic.
  assert (unresolved_run self = None) as Hnone.
  { unfold unresolved_run. revert Hruns.
    generalize (_collections self). generalize (dataset_runs self).
    intros runs. induction runs as [|run runs IH]; intros collections Hruns;
      [done|].
    cbn [resolve_runs].
    destruct (Hruns run ltac:(left)) as [record ->].
    apply IH. intros run' Hin. apply Hruns. by right. }
  pose proof (resolve_runs_wf (_registry self) (dataset_runs self) _ Hwf)
    as Hwf'. fold (with_runs self) in Hwf'.
  destruct (computeSortedCollections_cases _ Hwf')
    as [[_ (name & Hcycle)]|(batches & Hsort & _)];
    [by apply Hacyclic in Hcycle|].
  exists (sorted (others_of (with_runs self)) ++ concat batches).
  split; [done|].
  rewrite (finish_run self Hwf). unfold finish_outcome.
  by rewrite Hnone, Hsort.
Qed.

End FinishProperties.

(** ** Dictionaries up to the order of insertion *)

Section DictEquiv.

Context {K V : Type} `{EqDecision K}.
Implicit Types (d : dict K V) (R : V -> V -> Prop).

Lemma dict_equiv_elem_of_keys R d1 d2 (k : K) :
  dict_equiv R d1 d2 -> k ∈ dict_keys d1 <-> k ∈ dict_keys d2.
Proof.
  intros (_ & _ & Hget). rewrite <- !dict_get_is_Some.
  destruct (Hget k) as [v1 v2 _|]; split; intros [? ?]; done || by eexists.
Qed.

Lemma dict_equiv_keys R d1 d2 :
  dict_equiv R d1 d2 -> dict_keys d1 ≡ₚ dict_keys d2.
Proof.
  intros Hequiv. pose proof Hequiv as (Hd1 & Hd2 & _).
  apply NoDup_Permutation; [done..|].
  intros k. by apply (dict_equiv_elem_of_keys R).
Qed.

Lemma dict_wf_NoDup d : dict_wf d -> NoDup d.
Proof. unfold dict_wf, dict_keys. apply NoDup_fmap_1. Qed.

Lemma dict_equiv_eq_same d1 d2 : dict_equiv (=) d1 d2 -> dict_same d1 d2.
Proof.
  intros (Hd1 & Hd2 & Hget). split_and!; [done..|].
  apply NoDup_Permutation; [by apply dict_wf_NoDup..|].
  intros [k v]. split; intros Hin%dict_get_elem_of; try done;
    apply dict_get_Some_elem_of.
  - destruct (Hget k); congruence.
  - destruct (Hget k); congruence.
Qed.

Lemma dict_equiv_get_eq d1 d2 (k : K) :
  dict_equiv (=) d1 d2 -> dict_get k d1 = dict_get k d2.
Proof. intros (_ & _ & Hget). destruct (Hget k); congruence. Qed.

End DictEquiv.

Lemma omap_ext_in {A B} (f g : A -> option B) (l : list A) :
  (forall x, x ∈ l -> f x = g x) -> omap f l = omap g l.
Proof.
  induction l as [|x l IH]; intros Hfg; [done|].
  cbn [omap list_omap]. rewrite (Hfg x) by left.
  rewrite IH; [done|]. intros y Hy. apply Hfg. by right.
Qed.

Lemma filter_ext_elem_of {A} (f g : A -> bool) (l : list A) :
  (forall x, x ∈ l -> f x = g x) -> List.filter f l = List.filter g l.
Proof.
  intros Hfg. apply filter_ext_in. intros x Hx. apply Hfg.
  by apply list_elem_of_In.
Qed.

Lemma flat_map_Permutation_pointwise {A B} (f g : A -> list B)
  (l l' : list A) :
  l ≡ₚ l' -> (forall x, f x ≡ₚ g x) -> flat_map f l ≡ₚ flat_map g l'.
Proof.
  intros Hl Hfg. rewrite <- (Permutation_flat_map g Hl).
  clear Hl. induction l as [|x l IH]; [done|].
  simpl. by rewrite IH, Hfg.
Qed.

Lemma NoDup_fmap_inj_on {A B} (f : A -> B) (l : list A) (x y : A) :
  NoDup (map f l) -> x ∈ l -> y ∈ l -> f x = f y -> x = y.
Proof.
  induction l as [|z l IH]; [by intros _ ?%elem_of_nil|].
  simpl. rewrite NoDup_cons. intros [Hz Hl] Hx Hy Hxy.
  apply elem_of_cons in Hx as [->|Hx]; apply elem_of_cons in Hy as [->|Hy].
  - done.
  - exfalso. apply Hz. rewrite Hxy. by apply list_elem_of_fmap_2.
  - exfalso. apply Hz. rewrite <- Hxy. by apply list_elem_of_fmap_2.
  - by apply IH.
Qed.

(** ** Determinism of the export *)

Section Determinism.

Context {DataCoordinate FileDataset : Type}.
Context `{DataCoordinate_eq_dec : EqDecision DataCoordinate}.
Context {DataCoordinate_PyOrd : PyOrd DataCoordinate}.
Context {FileDataset_PyOrd : PyOrd FileDataset}.
Context {DatasetAssociation_PyOrd : PyOrd (@DatasetAssociation DataCoordinate)}.

Abbreviation Ctx := (@RepoExportContext DataCoordinate FileDataset).
Abbreviation Call := (@BackendCall DataCoordinate FileDataset).

(** Two contexts over the same repository that have accumulated the same
    sets: the same record per element and data ID, the same dataset ids,
    the same file datasets per dataset type and run, the same collections,
    in whatever order they were inserted. *)
Definition same_accumulated (self1 self2 : Ctx) : Prop :=
  _registry self1 = _registry self2 /\
  _backend self1 = _backend self2 /\
  dict_equiv (dict_equiv (=)) (_records self1) (_records self2) /\
  _dataset_ids self1 = _dataset_ids self2 /\
  dict_equiv (dict_equiv (≡ₚ)) (_datasets self1) (_datasets self2) /\
  dict_equiv (=) (_collections self1) (_collections self2).

Context `{!PyTotalOrder DataCoordinate} `{!PyTotalOrder FileDataset}.

Lemma dimension_calls_same (self1 self2 : Ctx) :
  same_accumulated self1 self2 ->
  dimension_calls self1 = dimension_calls self2.
Proof.
  intros (Hreg & _ & Hrecords & _). unfold dimension_calls.
  rewrite Hreg. unfold dimensions_sorted.
  rewrite (filter_ext_elem_of _
             (fun element =>
                bool_decide (element ∈ dict_keys (_records self2)))).
  - apply map_ext. intros element. f_equal. unfold dimension_data.
    destruct Hrecords as (_ & _ & Hget).
    destruct (Hget element) as [r1 r2 Hr|]; [|done]. simpl.
    rewrite (sorted_total_unique _ _ (dict_equiv_keys _ _ _ Hr)).
    apply omap_ext_in. intros dataId _. by apply dict_equiv_get_eq.
  - intros element _. apply bool_decide_ext.
    by apply (dict_equiv_elem_of_keys (dict_equiv (=))).
Qed.

Lemma elem_of_dataset_runs (self : Ctx) (run : string) :
  dict_wf (_datasets self) ->
  run ∈ dataset_runs self <->
  exists datasetType byRun,
    dict_get datasetType (_datasets self) = Some byRun /\
    run ∈ dict_keys byRun.
Proof.
  intros Hwf. unfold dataset_runs, dict_values.
  rewrite list_elem_of_In, in_flat_map. split.
  - intros (byRun & Hin%list_elem_of_In & Hrun%list_elem_of_In).
    apply list_elem_of_fmap in Hin as ([datasetType byRun'] & -> & Hin).
    exists datasetType, byRun'. split; [by apply dict_get_elem_of|done].
  - intros (datasetType & byRun & Hget%dict_get_Some_elem_of & Hrun).
    exists byRun. split; apply list_elem_of_In; [|done].
    apply (list_elem_of_fmap_2 snd _ _ Hget).
Qed.

Lemma dataset_runs_same (self1 self2 : Ctx) (run : string) :
  same_accumulated self1 self2 ->
  run ∈ dataset_runs self1 <-> run ∈ dataset_runs self2.
Proof.
  intros (_ & _ & _ & _ & (Hd1 & Hd2 & Hget) & _).
  rewrite !elem_of_dataset_runs by done.
  split; intros (datasetType & byRun & Hdt & Hrun);
    pose proof (Hget datasetType) as Hrel; rewrite Hdt in Hrel.
  - inversion Hrel as [? byRun2 Hequiv Heq1 Heq2|].
    exists datasetType, byRun2. split; [done|].
    by apply (dict_equiv_elem_of_keys _ _ _ _ Hequiv).
  - inversion Hrel as [byRun1 ? Hequiv Heq1 Heq2|].
    exists datasetType, byRun1. split; [done|].
    by apply (dict_equiv_elem_of_keys _ _ _ _ Hequiv).
Qed.

(** The runs all resolve exactly when no error comes out of the loop. *)
Lemma resolve_runs_None (registry : @Registry DataCoordinate)
  (runs : list string) (collections : dict string CollectionRecord) :
  (resolve_runs registry runs collections).2 = None <->
  forall run, run ∈ runs -> is_Some (find_collection registry run).
Proof.
  revert collections. induction runs as [|run runs IH]; intros collections.
  - split; [by intros _ run ?%elem_of_nil|done].
  - cbn [resolve_runs].
    destruct (find_collection registry run) as [record|] eqn:Hfind.
    + rewrite IH. split.
      * intros Hall run' [->|Hin]%elem_of_cons; [by eexists|by apply Hall].
      * intros Hall run' Hin. apply Hall. by right.
    + split; [done|]. intros Hall.
      destruct (Hall run ltac:(left)) as [? ?]. congruence.
Qed.

(** Once the runs are resolved, a run has its record in the repository and
    the other collections have the record they had. *)
Lemma resolve_runs_get (registry : @Registry DataCoordinate)
  (runs : list string) (collections : dict string CollectionRecord)
  (name : string) :
  (resolve_runs registry runs collections).2 = None ->
  dict_get name (resolve_runs registry runs collections).1
  = if decide (name ∈ runs) then find_collection registry name
    else dict_get name collections.
Proof.
  revert collections. induction runs as [|run runs IH]; intros collections.
  - intros _. cbn [resolve_runs fst].
    destruct (decide (name ∈ [])) as [?%elem_of_nil|]; done.
  - cbn [resolve_runs].
    destruct (find_collection registry run) as [record|] eqn:Hfind; [|done].
    intros Hnone. rewrite (IH _ Hnone), dict_get_set.
    destruct (decide (name ∈ runs)) as [Hin|Hnin].
    + rewrite decide_True; [done|by right].
    + destruct (decide (name = run)) as [->|Hne].
      * rewrite decide_True; [done|left].
      * rewrite decide_False; [done|].
        by intros [?|?]%elem_of_cons.
Qed.

Lemma unresolved_run_same (self1 self2 : Ctx) :
  same_accumulated self1 self2 ->
  unresolved_run self1 = None <-> unresolved_run self2 = None.
Proof.
  intros Hsame. unfold unresolved_run. rewrite !resolve_runs_None.
  destruct Hsame as (Hreg & Hrest). rewrite Hreg.
  assert (forall run, run ∈ dataset_runs self1 <-> run ∈ dataset_runs self2)
    as Hruns by (intros run; by apply dataset_runs_same).
  split; intros Hall run Hin; apply Hall; by apply Hruns.
Qed.

Lemma same_accumulated_wf (self1 self2 : Ctx) :
  same_accumulated self1 self2 ->
  collections_wf (_collections self1) -> collections_wf (_collections self2).
Proof.
  intros (_ & _ & _ & _ & _ & Hcollections) Hwf.
  apply (collections_wf_same _ _ Hwf). by apply dict_equiv_eq_same.
Qed.

Lemma with_runs_same (self1 self2 : Ctx) :
  same_accumulated self1 self2 ->
  collections_wf (_collections self1) ->
  unresolved_run self1 = None ->
  dict_same (with_runs self1) (with_runs self2).
Proof.
  intros Hsame Hwf1 Hnone1.
  pose proof (same_accumulated_wf _ _ Hsame Hwf1) as Hwf2.
  pose proof (proj1 (unresolved_run_same _ _ Hsame) Hnone1) as Hnone2.
  pose proof Hsame as (Hreg & _ & _ & _ & _ & Hc1 & Hc2 & Hget).
  apply dict_equiv_eq_same. unfold with_runs. split_and!.
  - by apply resolve_runs_wf.
  - by apply resolve_runs_wf.
  - intros name. unfold unresolved_run in *.
    rewrite !resolve_runs_get by done. rewrite Hreg.
    destruct (decide (name ∈ dataset_runs self1)) as [Hin|Hnin].
    + rewrite decide_True by (by apply (dataset_runs_same _ _ _ Hsame)).
      by destruct (find_collection _ _); constructor.
    + rewrite decide_False; [apply Hget|].
      by rewrite <- (dataset_runs_same _ _ _ Hsame).
Qed.

Lemma collection_calls_same (registry : @Registry DataCoordinate)
  (collections collections' : dict string CollectionRecord)
  (names : list string) :
  dict_same collections collections' ->
  collection_calls (FileDataset:=FileDataset) registry collections names
  = collection_calls registry collections' names.
Proof.
  intros Hsame. unfold collection_calls. apply omap_ext_in.
  intros name _. by rewrite (dict_same_get name _ _ Hsame).
Qed.

(** The dataset types of a context have different names. *)
Definition distinct_names (self : Ctx) : Prop :=
  NoDup (map dt_name (dict_keys (_datasets self))).

Lemma sorted_datasetTypes_same (self1 self2 : Ctx) :
  same_accumulated self1 self2 -> distinct_names self1 ->
  sorted (dict_keys (_datasets self1)) = sorted (dict_keys (_datasets self2)).
Proof.
  intros (_ & _ & _ & _ & Hdatasets & _) Hnames.
  apply sorted_unique; [|by apply (dict_equiv_keys (dict_equiv (≡ₚ)))].
  intros x y Hx Hy Hxy Hyx.
  apply (NoDup_fmap_inj_on dt_name _ x y Hnames Hx Hy).
  by apply (py_le_antisym (A:=string)).
Qed.

Lemma dataset_calls_same (self1 self2 : Ctx) :
  same_accumulated self1 self2 -> distinct_names self1 ->
  dataset_calls self1 = dataset_calls self2.
Proof.
  intros Hsame Hnames. unfold dataset_calls.
  rewrite (sorted_datasetTypes_same _ _ Hsame Hnames).
  destruct Hsame as (_ & _ & _ & _ & (_ & _ & Hget) & _).
  apply flat_map_ext. intros datasetType.
  destruct (Hget datasetType) as [byRun1 byRun2 Hequiv|]; [|done]. simpl.
  rewrite (sorted_total_unique _ _ (dict_equiv_keys _ _ _ Hequiv)).
  apply omap_ext_in. intros run _.
  destruct Hequiv as (_ & _ & Hruns).
  destruct (Hruns run) as [records1 records2 Hperm|]; [|done]. simpl.
  by rewrite (sorted_total_unique _ _ Hperm).
Qed.

(** *** The associations *)

Abbreviation Association := (@DatasetAssociation DataCoordinate).

(** The associations of an iteration that go under a collection. *)
Definition selected (ids : gset Z) (collection : string)
  (associationIter : list Association) : list Association :=
  List.filter
    (fun association =>
       id_in (ref_id (assoc_ref association)) ids
       && bool_decide (assoc_collection association = collection))
    associationIter.

Lemma filed_inner (ids : gset Z) (associationIter : list Association)
  (results : dict string (list Association)) (collection : string) :
  filed
    (foldl (fun results association =>
              if id_in (ref_id (assoc_ref association)) ids
              then defaultdict_update [] (assoc_collection association)
                     (fun l => l ++ [association]) results
              else results)
       results associationIter) collection
  = filed results collection ++ selected ids collection associationIter.
Proof.
  revert results. induction associationIter as [|a rest IH]; intros results.
  - simpl. by rewrite app_nil_r.
  - cbn [foldl]. rewrite IH. unfold selected. cbn [List.filter].
    destruct (id_in (ref_id (assoc_ref a)) ids); cbn [andb]; [|done].
    rewrite filed_update.
    destruct (decide (collection = assoc_collection a)) as [->|Hne].
    + rewrite bool_decide_true by done. by rewrite <- app_assoc.
    + rewrite bool_decide_false by done. done.
Qed.

(** The result of the inner loop is a dictionary whose keys all have
    associations. *)
Definition filled (results : dict string (list Association)) : Prop :=
  dict_wf results /\
  forall collection,
    collection ∈ dict_keys results -> filed results collection <> [].

Lemma filled_inner (ids : gset Z) (associationIter : list Association)
  (results : dict string (list Association)) :
  filled results ->
  filled
    (foldl (fun results association =>
              if id_in (ref_id (assoc_ref association)) ids
              then defaultdict_update [] (assoc_collection association)
                     (fun l => l ++ [association]) results
              else results)
       results associationIter).
Proof.
  revert results. induction associationIter as [|a rest IH];
    intros results Hfilled; [done|].
  cbn [foldl]. apply IH.
  destruct (id_in (ref_id (assoc_ref a)) ids); [|done].
  destruct Hfilled as [Hwf Hkeys]. split; [by apply defaultdict_update_wf|].
  intros collection Hin. rewrite filed_update.
  destruct (decide (collection = assoc_collection a)) as [->|Hne].
  - by destruct (filed results (assoc_collection a)).
  - apply Hkeys.
    by apply elem_of_keys_defaultdict_update in Hin as [?|?].
Qed.

(** The associations that a context files under a collection, dataset type
    by dataset type. *)
Definition closure (self : Ctx) (collection : string) : list Association :=
  flat_map
    (fun datasetType =>
       selected (_dataset_ids self) collection
         (queryDatasetAssociations (_registry self) datasetType
            (dict_keys (_collections self))
            (if dt_isCalibration datasetType
             then [TAGGED; CALIBRATION] else [TAGGED])))
    (dict_keys (_datasets self)).

Lemma computeDatasetAssociations_closure (self : Ctx) (collection : string) :
  filed (_computeDatasetAssociations self) collection
  = closure self collection.
Proof.
  unfold _computeDatasetAssociations, closure.
  change (flat_map _ (dict_keys (_datasets self)))
    with (filed (@nil (string * list Association)) collection
          ++ flat_map
               (fun datasetType =>
                  selected (_dataset_ids self) collection
                    (queryDatasetAssociations (_registry self) datasetType
                       (dict_keys (_collections self))
                       (if dt_isCalibration datasetType
                        then [TAGGED; CALIBRATION] else [TAGGED])))
               (dict_keys (_datasets self))).
  generalize (@nil (string * list Association)).
  induction (dict_keys (_datasets self)) as [|datasetType datasetTypes IH];
    intros results.
  - simpl. by rewrite app_nil_r.
  - cbn [foldl flat_map]. rewrite IH, filed_inner. by rewrite <- app_assoc.
Qed.

Lemma computeDatasetAssociations_filled (self : Ctx) :
  filled (_computeDatasetAssociations self).
Proof.
  unfold _computeDatasetAssociations.
  assert (filled (@nil (string * list Association))) as Hnil.
  { split; [constructor|]. by intros collection ?%elem_of_nil. }
  revert Hnil. generalize (@nil (string * list Association)).
  induction (dict_keys (_datasets self)) as [|datasetType datasetTypes IH];
    intros results Hfilled; [done|].
  cbn [foldl]. apply IH. by apply filled_inner.
Qed.

Lemma elem_of_keys_filed (results : dict string (list Association))
  (collection : string) :
  filled results ->
  collection ∈ dict_keys results <-> filed results collection <> [].
Proof.
  intros [_ Hkeys]. split; [apply Hkeys|].
  intros Hne. apply dict_get_is_Some. unfold filed in Hne.
  destruct (dict_get collection results); [by eexists|done].
Qed.

Lemma dict_get_filed (results : dict string (list Association))
  (collection : string) :
  collection ∈ dict_keys results ->
  dict_get collection results = Some (filed results collection).
Proof.
  intros [associations Hget]%dict_get_is_Some. unfold filed.
  by rewrite Hget.
Qed.

Lemma queryDatasetAssociations_Permutation
  (registry : @Registry DataCoordinate) (datasetType : DatasetType)
  (collections collections' : list string)
  (collectionTypes : list CollectionType) :
  collections ≡ₚ collections' ->
  queryDatasetAssociations registry datasetType collections collectionTypes
  ≡ₚ queryDatasetAssociations registry datasetType collections'
       collectionTypes.
Proof. intros Hperm. unfold queryDatasetAssociations. by apply Permutation_flat_map. Qed.

(** The closure of two contexts with the same sets holds the same
    associations. *)
Lemma closure_Permutation (self1 self2 : Ctx) (collection : string) :
  _registry self1 = _registry self2 ->
  _dataset_ids self1 = _dataset_ids self2 ->
  dict_keys (_datasets self1) ≡ₚ dict_keys (_datasets self2) ->
  dict_keys (_collections self1) ≡ₚ dict_keys (_collections self2) ->
  closure self1 collection ≡ₚ closure self2 collection.
Proof.
  intros Hreg Hids Hdatasets Hcollections. unfold closure.
  apply flat_map_Permutation_pointwise; [done|].
  intros datasetType. unfold selected. rewrite Hreg, Hids.
  apply filter_Permutation_bool.
  by apply queryDatasetAssociations_Permutation.
Qed.

Lemma closure_in_registry (self : Ctx) (collection : string)
  (association : Association) :
  association ∈ closure self collection ->
  association ∈ reg_associations (_registry self).
Proof.
  unfold closure. rewrite list_elem_of_In, in_flat_map.
  intros (datasetType & _ & Hin%list_elem_of_In).
  apply elem_of_filter_bool in Hin as [Hin _].
  by apply elem_of_queryDatasetAssociations in Hin as [? _].
Qed.

(** No two different associations of the repository tie in the order of
    associations. *)
Definition no_ties (registry : @Registry DataCoordinate) : Prop :=
  forall a b : Association,
    a ∈ reg_associations registry -> b ∈ reg_associations registry ->
    assoc_collection a = assoc_collection b ->
    py_le a b -> py_le b a -> a = b.

Lemma closure_collection (self : Ctx) (collection : string)
  (association : Association) :
  association ∈ closure self collection ->
  assoc_collection association = collection.
Proof.
  unfold closure. rewrite list_elem_of_In, in_flat_map.
  intros (datasetType & _ & Hin%list_elem_of_In).
  apply elem_of_filter_bool in Hin as [_ Hf].
  by apply andb_true_iff in Hf as [_ ?%bool_decide_eq_true].
Qed.

Context `{!PyWeakOrder Association}.

Lemma association_calls_same (self1 self2 : Ctx) :
  _registry self1 = _registry self2 ->
  _dataset_ids self1 = _dataset_ids self2 ->
  dict_keys (_datasets self1) ≡ₚ dict_keys (_datasets self2) ->
  dict_same (_collections self1) (_collections self2) ->
  no_ties (_registry self1) ->
  association_calls self1 = association_calls self2.
Proof.
  intros Hreg Hids Hdatasets Hcollections Hties.
  pose proof (computeDatasetAssociations_filled self1) as Hfilled1.
  pose proof (computeDatasetAssociations_filled self2) as Hfilled2.
  assert (forall collection,
            filed (_computeDatasetAssociations self1) collection
            ≡ₚ filed (_computeDatasetAssociations self2) collection)
    as Hfiled.
  { intros collection. rewrite !computeDatasetAssociations_closure.
    apply closure_Permutation; [done..|].
    by apply dict_same_keys. }
  assert (forall collection,
            collection ∈ dict_keys (_computeDatasetAssociations self1) <->
            collection ∈ dict_keys (_computeDatasetAssociations self2))
    as Hkeys.
  { intros collection. rewrite !elem_of_keys_filed by done.
    split; intros Hne Hnil; apply Hne.
    - apply Permutation_nil_r. by rewrite (Hfiled collection), Hnil.
    - apply Permutation_nil_r. by rewrite <- (Hfiled collection), Hnil. }
  unfold association_calls. cbn zeta.
  rewrite (sorted_total_unique
             (dict_keys (_computeDatasetAssociations self1))
             (dict_keys (_computeDatasetAssociations self2))).
  - apply omap_ext_in. intros collection Hin. rewrite sorted_elem_of in Hin.
    rewrite (dict_same_get collection _ _ Hcollections).
    destruct (dict_get collection (_collections self2)) as [record|];
      [|done].
    cbn. rewrite (dict_get_filed _ _ Hin).
    rewrite (dict_get_filed _ _ (proj2 (Hkeys _) Hin)). cbn.
    do 2 f_equal. apply sorted_unique; [|done].
    intros a b Ha Hb. rewrite computeDatasetAssociations_closure in Ha, Hb.
    apply Hties.
    + by apply closure_in_registry in Ha.
    + by apply closure_in_registry in Hb.
    + apply closure_collection in Ha, Hb. congruence.
  - apply NoDup_Permutation; [apply Hfilled1|apply Hfilled2|done].
Qed.

(** X2: [_finish] does not depend on the order in which a session has
    saved things.  Two contexts over the same repository that have
    accumulated the same records, dataset ids, file datasets and
    collections, inserted in whatever order, drive the backend with the
    same sequence of calls, and [_finish] returns for both or raises for
    both.  The orders of data IDs and of file datasets are total, the
    dataset types have different names, and no two associations of a
    collection tie. *)
Theorem finish_deterministic (self1 self2 : Ctx) :
  same_accumulated self1 self2 ->
  collections_wf (_collections self1) ->
  distinct_names self1 ->
  no_ties (_registry self1) ->
  _backend (_finish self1).1 = _backend (_finish self2).1 /\
  ((_finish self1).2 = Ok tt <-> (_finish self2).2 = Ok tt).
Proof.
  intros Hsame Hwf1 Hnames Hties.
  pose proof (same_accumulated_wf _ _ Hsame Hwf1) as Hwf2.
  rewrite (finish_run self1 Hwf1), (finish_run self2 Hwf2).
  cbn [fst snd]. unfold emit, with_backend. cbn [_backend].
  pose proof Hsame as (Hreg & Hbackend & _ & Hids & Hdatasets & _).
  change (_backend (resolved self1)) with (_backend self1).
  change (_backend (resolved self2)) with (_backend self2).
  rewrite Hbackend.
  assert ((finish_outcome self1).1 = (finish_outcome self2).1 /\
          ((finish_outcome self1).2 = Ok tt <->
           (finish_outcome self2).2 = Ok tt)) as [-> Hresult]; [|done].
  unfold finish_outcome.
  pose proof (unresolved_run_same _ _ Hsame) as Hruns.
  pose proof (dimension_calls_same _ _ Hsame) as Hdimensions.
  destruct (unresolved_run self1) as [e1|] eqn:Hrun1.
  { destruct (unresolved_run self2) as [e2|] eqn:Hrun2.
    - cbn [fst snd]. split; [done|]. by split.
    - destruct Hruns as [_ Hruns]. by specialize (Hruns eq_refl). }
  rewrite (proj1 Hruns eq_refl).
  pose proof (with_runs_same _ _ Hsame Hwf1 Hrun1) as Hcollections.
  pose proof (resolve_runs_wf (_registry self1) (dataset_runs self1) _ Hwf1)
    as Hwf1'. fold (with_runs self1) in Hwf1'.
  rewrite <- (computeSortedCollections_same _ _ Hwf1' Hcollections).
  destruct (computeSortedCollections (with_runs self1)) as [names|e];
    cbn [fst snd]; [|split; [done|by split]].
  split; [|done].
  rewrite Hdimensions, <- Hreg.
  rewrite (collection_calls_same _ _ _ names Hcollections).
  rewrite (dataset_calls_same _ _ Hsame Hnames).
  rewrite (association_calls_same (resolved self1) (resolved self2));
    [done|done|done| |done|done].
  by apply (dict_equiv_keys (dict_equiv (≡ₚ))).
Qed.

End Determinism.

(** ** The two sample sessions *)

(** Two dictionaries are equivalent when every item of the first has a
    related value in the second and the second has no other key. *)
Lemma dict_equiv_intro {K V} `{EqDecision K} (R : V -> V -> Prop)
  (d1 d2 : dict K V) :
  dict_wf d1 -> dict_wf d2 ->
  Forall (fun kv => exists v', dict_get kv.1 d2 = Some v' /\ R kv.2 v') d1 ->
  Forall (fun kv => kv.1 ∈ dict_keys d1) d2 ->
  dict_equiv R d1 d2.
Proof.
  intros Hwf1 Hwf2 Hall1 Hall2. split; [done|]. split; [done|].
  intros k. rewrite Forall_forall in Hall1, Hall2.
  destruct (dict_get k d1) as [v|] eqn:Hget1.
  - apply dict_get_Some_elem_of in Hget1.
    destruct (Hall1 _ Hget1) as (v' & Hget2 & HR). cbn in Hget2, HR.
    rewrite Hget2. by constructor.
  - destruct (dict_get k d2) as [v'|] eqn:Hget2; [|constructor].
    apply dict_get_Some_elem_of in Hget2.
    specialize (Hall2 _ Hget2). cbn in Hall2.
    apply dict_get_None in Hget1. done.
Qed.

#[global] Instance Z_PyTotalOrder : PyTotalOrder Z.
Proof.
  split; [split|]; unfold py_le, py_lt, Z_PyOrd.
  - intros x y Hxy%Z.ltb_lt. apply Z.ltb_ge. lia.
  - intros x y z Hxy%Z.ltb_ge Hyz%Z.ltb_ge. apply Z.ltb_ge. lia.
  - intros x y Hxy%Z.ltb_ge Hyx%Z.ltb_ge. lia.
Qed.

Lemma session_one_wf : collections_wf (_collections session_one).
Proof. apply collections_wf_intro; by_evaluation. Qed.

(** Splits a statement about every item of a closed list into one goal per
    item. *)
Ltac each_item :=
  match goal with
  | |- Forall ?P ?l =>
      let l' := eval vm_compute in l in
      change (Forall P l'); repeat first [apply Forall_nil_2|apply Forall_cons_2]
  end.

Lemma same_sessions : same_accumulated session_one session_two.
Proof.
  split_and!.
  - reflexivity.
  - reflexivity.
  - apply dict_equiv_intro; [by_evaluation|by_evaluation| |by_evaluation].
    each_item; (eexists; split; [vm_compute; reflexivity|]);
      (apply dict_equiv_intro; [by_evaluation|by_evaluation| |by_evaluation]);
      each_item; (eexists; split; [vm_compute; reflexivity|reflexivity]).
  - by_evaluation.
  - apply dict_equiv_intro; [by_evaluation|by_evaluation| |by_evaluation].
    each_item; (eexists; split; [vm_compute; reflexivity|]);
      (apply dict_equiv_intro; [by_evaluation|by_evaluation| |by_evaluation]);
      each_item; (eexists; split; [vm_compute; reflexivity|]).
    + apply Permutation_swap.
    + reflexivity.
  - apply dict_equiv_intro; [by_evaluation|by_evaluation| |by_evaluation].
    each_item; (eexists; split; [vm_compute; reflexivity|reflexivity]).
Qed.

Lemma session_one_distinct_names : distinct_names session_one.
Proof. unfold distinct_names. by_evaluation. Qed.

#[global] Instance Z_PyWeakOrder : PyWeakOrder Z :=
  @py_total_weak Z _ Z_PyTotalOrder.

#[global] Instance sample_DatasetAssociation_PyWeakOrder
  : PyWeakOrder (@DatasetAssociation Z).
Proof.
  split; unfold py_le, py_lt, sample_DatasetAssociation_PyOrd.
  - intros x y. apply (py_lt_asym (A:=Z)).
  - intros x y z. apply (py_le_trans (A:=Z)).
Qed.

Lemma sample_registry_no_ties : no_ties sample_registry.
Proof.
  intros a b Ha Hb. cbn [sample_registry reg_associations] in Ha, Hb.
  set_unfold in Ha. set_unfold in Hb.
  destruct_or!; subst; try done; intros Hc Hab Hba;
    solve [discriminate Hc | discriminate Hab | discriminate Hba].
Qed.

(** Sessions one and two accumulate the same sets in different orders, and
    the backend receives the same calls from both. *)
Lemma finish_deterministic_witness :
  same_accumulated session_one session_two /\
  _backend (_finish session_one).1 = _backend (_finish session_two).1.
Proof.
  split; [exact same_sessions|].
  apply (finish_deterministic session_one session_two same_sessions
           session_one_wf session_one_distinct_names
           sample_registry_no_ties).
Defined.

(** ** What a failed [_finish] has written *)

Section FinishFailure.

Context {DataCoordinate FileDataset : Type}.
Context `{DataCoordinate_eq_dec : EqDecision DataCoordinate}.
Context {DataCoordinate_PyOrd : PyOrd DataCoordinate}.
Context {FileDataset_PyOrd : PyOrd FileDataset}.
Context {DatasetAssociation_PyOrd : PyOrd (@DatasetAssociation DataCoordinate)}.

Abbreviation Ctx := (@RepoExportContext DataCoordinate FileDataset).

Lemma resolve_runs_error (registry : @Registry DataCoordinate)
  (runs : list string) (collections : dict string CollectionRecord)
  (e : Exc) :
  (resolve_runs registry runs collections).2 = Some e ->
  exists run,
    run ∈ runs /\ find_collection registry run = None /\
    e = MissingCollectionError run.
Proof.
  revert collections. induction runs as [|run runs IH]; intros collections;
    [done|].
  cbn [resolve_runs].
  destruct (find_collection registry run) as [record|] eqn:Hfind.
  - intros (run' & Hin & Hnone & He)%IH. exists run'. split; [by right|done].
  - cbn [snd]. intros [= <-]. exists run. split; [by left|done].
Qed.

Lemma computeSortedCollections_Ok_acyclic
  (collections : dict string CollectionRecord) (names : list string) :
  collections_wf collections ->
  computeSortedCollections collections = Ok names ->
  acyclic collections.
Proof.
  intros Hwf Hrun.
  destruct (computeSortedCollections_cases collections Hwf)
    as [[Hraise _]|(batches & _ & Hlevels)]; [congruence|].
  by apply (levels_acyclic _ batches).
Qed.

(** X3: when [_finish] raises on accumulated collections, the backend has
    received the dimension records and nothing else: no collection, no
    dataset, no association and no [finish()].  The error is the missing
    run of an exported dataset, or the cycle among the chains. *)
Theorem finish_failure_writes_dimensions_only (self : Ctx) (e : Exc) :
  collections_wf (_collections self) ->
  (_finish self).2 = Raise e ->
  _backend (_finish self).1 = _backend self ++ dimension_calls self /\
  ((exists run,
      run ∈ dataset_runs self /\
      find_collection (_registry self) run = None /\
      e = MissingCollectionError run) \/
   (e = RuntimeError cycle_message [] /\
    exists name, tc (chain_edge (with_runs self)) name name)).
Proof.
  intros Hwf. rewrite (finish_run self Hwf). cbn [fst snd].
  unfold finish_outcome.
  destruct (unresolved_run self) as [e'|] eqn:Hruns.
  - cbn [fst snd]. intros [= <-]. split; [done|]. left.
    by apply (resolve_runs_error _ _ (_collections self)).
  - pose proof (resolve_runs_wf (_registry self) (dataset_runs self) _ Hwf)
      as Hwf'. fold (with_runs self) in Hwf'.
    destruct (computeSortedCollections_cases _ Hwf')
      as [[-> Hcycle]|(batches & -> & _)]; cbn [fst snd]; [|done].
    intros [= <-]. split; [done|]. by right.
Qed.

End FinishFailure.

Lemma cyclic_session_wf : collections_wf (_collections cyclic_session).
Proof. apply collections_wf_intro; by_evaluation. Qed.

Lemma finish_failure_writes_dimensions_only_witness :
  (_finish cyclic_session).2 = Raise (RuntimeError cycle_message []) /\
  _backend (_finish cyclic_session).1
  = _backend cyclic_session ++ dimension_calls cyclic_session.
Proof.
  assert ((_finish cyclic_session).2 = Raise (RuntimeError cycle_message []))
    as Hraise by (vm_compute; reflexivity).
  split; [exact Hraise|].
  apply (finish_failure_writes_dimensions_only cyclic_session _
           cyclic_session_wf Hraise).
Defined.

Lemma session_one_runs (run : string) :
  run ∈ dataset_runs session_one ->
  is_Some (find_collection (_registry session_one) run).
Proof.
  revert run. apply Forall_forall. by_evaluation.
Qed.

Lemma session_one_acyclic : acyclic (with_runs session_one).
Proof.
  apply (computeSortedCollections_Ok_acyclic _
           ["calib"; "run1"; "tagged"; "chain"]).
  - apply collections_wf_intro; by_evaluation.
  - vm_compute. reflexivity.
Qed.

Lemma finish_phase_order_witness :
  (_finish session_one).2 = Ok tt /\
  last (_backend (_finish session_one).1) = Some Backend_finish.
Proof.
  destruct (finish_phase_order session_one session_one_wf session_one_runs
              session_one_acyclic) as (names & _ & ->).
  split; [reflexivity|].
  cbn [fst]. unfold emit, with_backend. cbn [_backend].
  rewrite !app_assoc. apply last_snoc.
Defined.

(** ** The store of dimension records *)

(** [a ∪ b] on options is [a] if it is there, else [b]. *)
Lemma option_union_Some {A} (x : A) (o : option A) : Some x ∪ o = Some x.
Proof. by destruct o. Qed.

Lemma option_union_None_l {A} (o : option A) : None ∪ o = o.
Proof. by destruct o. Qed.

Lemma option_union_None_r {A} (o : option A) : o ∪ None = o.
Proof. by destruct o. Qed.

Lemma option_union_assoc {A} (a b c : option A) : a ∪ (b ∪ c) = a ∪ b ∪ c.
Proof. by destruct a, b, c. Qed.

Lemma dict_get_setdefault {K V} `{EqDecision K} (k k' : K) (v : V)
  (d : dict K V) :
  dict_get k' (dict_setdefault k v d)
  = dict_get k' d ∪ (if decide (k' = k) then Some v else None).
Proof.
  unfold dict_setdefault. destruct (dict_get k d) as [v0|] eqn:Hget.
  - destruct (decide (k' = k)) as [->|].
    + by rewrite Hget, option_union_Some.
    + by rewrite option_union_None_r.
  - rewrite dict_get_set. destruct (decide (k' = k)) as [->|].
    + by rewrite Hget, option_union_None_l.
    + by rewrite option_union_None_r.
Qed.

Lemma dict_setdefault_wf {K V} `{EqDecision K} (k : K) (v : V)
  (d : dict K V) :
  dict_wf d -> dict_wf (dict_setdefault k v d).
Proof.
  unfold dict_setdefault. destruct (dict_get k d); [done|apply dict_set_wf].
Qed.

Lemma find_fmap {A B} (g : A -> B) (p : B -> bool) (l : list A) :
  List.find p (map g l) = g <$> List.find (fun x => p (g x)) l.
Proof.
  induction l as [|x l IH]; [done|]. cbn [map List.find].
  by destruct (p (g x)).
Qed.

Lemma find_app_union {A} (p : A -> bool) (l1 l2 : list A) :
  List.find p (l1 ++ l2) = List.find p l1 ∪ List.find p l2.
Proof.
  induction l1 as [|x l1 IH]; cbn [app List.find].
  - by rewrite option_union_None_l.
  - destruct (p x); [by rewrite option_union_Some|exact IH].
Qed.

Lemma find_ext_bool {A} (p q : A -> bool) (l : list A) :
  (forall x, p x = q x) -> List.find p l = List.find q l.
Proof.
  intros Hpq. induction l as [|x l IH]; [done|]. cbn [List.find].
  by rewrite Hpq, IH.
Qed.

Lemma find_filter {A} (p q : A -> bool) (l : list A) :
  List.find p (List.filter q l) = List.find (fun x => q x && p x) l.
Proof.
  induction l as [|x l IH]; [done|]. cbn [List.filter List.find].
  destruct (q x); cbn [List.find andb]; [by rewrite IH|done].
Qed.

Section Records.

Context {DataCoordinate FileDataset : Type}.
Context `{DataCoordinate_eq_dec : EqDecision DataCoordinate}.

Abbreviation Ctx := (@RepoExportContext DataCoordinate FileDataset).
Abbreviation Rec := (@DimensionRecord DataCoordinate).
Abbreviation Store := (dict DimensionElement (dict DataCoordinate Rec)).

(** [self._records[element][dataId]], when it is there. *)
Definition stored_record (self : Ctx) (element : DimensionElement)
  (dataId : DataCoordinate) : option Rec :=
  dict_get element (_records self) ≫= dict_get dataId.

(** The element that the first argument of [saveDimensionData] stands for. *)
Definition named_element (registry : @Registry DataCoordinate)
  (element : string + DimensionElement) : option DimensionElement :=
  match element with
  | inr element => Some element
  | inl name =>
      List.find (fun element => bool_decide (el_name element = name))
        (reg_dimensions registry)
  end.

(** The record that an item given to [saveDimensionData] stands for. *)
Definition as_record (registry : @Registry DataCoordinate)
  (element : DimensionElement) (record : list (string * string) + Rec)
  : Rec :=
  match record with
  | inl fields => reg_RecordClass registry element fields
  | inr record => record
  end.

(** An item that [saveDimensionData] accepts for the element. *)
Definition matches (element : DimensionElement)
  (record : list (string * string) + Rec) : Prop :=
  match record with
  | inl _ => True
  | inr record => rec_definition record = element
  end.

(** The effect on the store of one [setdefault], and of a sequence. *)
Definition store_record (item : DimensionElement * Rec) (store : Store)
  : Store :=
  defaultdict_update [] item.1 (dict_setdefault (rec_dataId item.2) item.2)
    store.

Definition store_all (items : list (DimensionElement * Rec)) (store : Store)
  : Store :=
  foldl (fun store item => store_record item store) store items.

Definition store_get (store : Store) (element : DimensionElement)
  (dataId : DataCoordinate) : option Rec :=
  dict_get element store ≫= dict_get dataId.

Lemma store_get_record (item : DimensionElement * Rec) (store : Store)
  (element : DimensionElement) (dataId : DataCoordinate) :
  store_get (store_record item store) element dataId
  = store_get store element dataId
    ∪ (if bool_decide (item.1 = element)
          && bool_decide (rec_dataId item.2 = dataId)
       then Some item.2 else None).
Proof.
  unfold store_get, store_record. rewrite dict_get_defaultdict_update.
  destruct (decide (element = item.1)) as [->|Hne].
  - rewrite bool_decide_true by done. cbn [andb option_bind mbind].
    change (Some ?d ≫= dict_get dataId) with (dict_get dataId d).
    rewrite dict_get_setdefault.
    assert ((if decide (dataId = rec_dataId item.2)
             then Some item.2 else None)
            = if bool_decide (rec_dataId item.2 = dataId)
              then Some item.2 else None) as ->.
    { destruct (decide (dataId = rec_dataId item.2)) as [->|Hd].
      - by rewrite bool_decide_true.
      - by rewrite bool_decide_false. }
    by destruct (dict_get item.1 store).
  - rewrite bool_decide_false by done. cbn [andb].
    by rewrite option_union_None_r.
Qed.

Lemma store_get_all (items : list (DimensionElement * Rec)) (store : Store)
  (element : DimensionElement) (dataId : DataCoordinate) :
  store_get (store_all items store) element dataId
  = store_get store element dataId
    ∪ (snd <$> List.find
                 (fun item => bool_decide (item.1 = element)
                              && bool_decide (rec_dataId item.2 = dataId))
                 items).
Proof.
  revert store. induction items as [|item items IH]; intros store.
  - cbn. by rewrite option_union_None_r.
  - cbn [store_all foldl]. fold (store_all items (store_record item store)).
    rewrite IH, store_get_record. cbn [List.find].
    destruct (bool_decide (item.1 = element)
              && bool_decide (rec_dataId item.2 = dataId)).
    + cbn [fmap option_fmap option_map snd].
      by rewrite <- option_union_assoc, option_union_Some.
    + by rewrite option_union_None_r.
Qed.

Lemma store_all_app (items items' : list (DimensionElement * Rec))
  (store : Store) :
  store_all (items ++ items') store = store_all items' (store_all items store).
Proof. apply foldl_app. Qed.

Lemma with_records_with_records (f g : Store -> Store) (self : Ctx) :
  with_records f (with_records g self) = with_records (fun s => f (g s)) self.
Proof. reflexivity. Qed.

Lemma with_records_id (self : Ctx) : with_records (fun s => s) self = self.
Proof. by destruct self. Qed.

Lemma with_records_ext (f g : Store -> Store) (self : Ctx) :
  f (_records self) = g (_records self) ->
  with_records f self = with_records g self.
Proof. intros Hfg. unfold with_records. by rewrite Hfg. Qed.

Lemma records_setdefault_run (element : DimensionElement) (record : Rec)
  (self : Ctx) :
  records_setdefault element (rec_dataId record) record self
  = (with_records (store_record (element, record)) self, Ok tt).
Proof. reflexivity. Qed.

(** The loop of [saveDimensionData]. *)
Definition saveDimensionData_loop (element : DimensionElement)
  (records : list (list (string * string) + Rec)) : M Ctx unit :=
  for_ records (fun record =>
    self ← get;
    record ← match record with
              | inl fields =>
                  mret (reg_RecordClass (_registry self) element fields)
              | inr record =>
                  if decide (rec_definition record = element)
                  then mret record
                  else raise (ValueError (el_name element)
                                (el_name (rec_definition record)))
              end;
    records_setdefault element (rec_dataId record) record).

Lemma saveDimensionData_unfold (element : string + DimensionElement)
  (records : list (list (string * string) + Rec)) (self : Ctx) :
  saveDimensionData element records self
  = match named_element (_registry self) element with
    | Some element => saveDimensionData_loop element records self
    | None =>
        (self, Raise (KeyError match element with
                               | inl name => name
                               | inr _ => ""
                               end))
    end.
Proof.
  unfold saveDimensionData. rewrite bind_run.
  destruct element as [name|element]; [|reflexivity].
  unfold registry_dimensions_getitem, named_element. rewrite bind_run.
  cbn [get]. by destruct (List.find _ _).
Qed.

Lemma saveDimensionData_loop_matches (element : DimensionElement)
  (records : list (list (string * string) + Rec)) (self : Ctx) :
  Forall (matches element) records ->
  saveDimensionData_loop element records self
  = (with_records
       (store_all (map (fun record =>
                          (element, as_record (_registry self) element record))
                     records)) self,
     Ok tt).
Proof.
  revert self. induction records as [|record records IH]; intros self Hall.
  - cbn. by rewrite with_records_id.
  - apply Forall_cons in Hall as [Hrecord Hall].
    unfold saveDimensionData_loop in *. rewrite for_cons.
    rewrite (bind_run get). cbn [get].
    assert ((match record with
             | inl fields =>
                 mret (reg_RecordClass (_registry self) element fields)
             | inr record =>
                 if decide (rec_definition record = element)
                 then mret record
                 else raise (ValueError (el_name element)
                               (el_name (rec_definition record)))
             end : M Ctx Rec) self
            = (self, Ok (as_record (_registry self) element record)))
      as Hconv.
    { destruct record as [fields|record]; [done|].
      cbn in Hrecord. by rewrite decide_True. }
    rewrite bind_run, Hconv, records_setdefault_run.
    rewrite IH by done. by rewrite with_records_with_records.
Qed.

Lemma saveDimensionData_loop_mismatch (element : DimensionElement)
  (good rest : list (list (string * string) + Rec)) (bad : Rec)
  (self : Ctx) :
  Forall (matches element) good ->
  rec_definition bad <> element ->
  saveDimensionData_loop element (good ++ inr bad :: rest) self
  = ((saveDimensionData_loop element good self).1,
     Raise (ValueError (el_name element) (el_name (rec_definition bad)))).
Proof.
  intros Hgood Hbad. unfold saveDimensionData_loop at 1. rewrite for_app.
  fold (saveDimensionData_loop element good).
  rewrite (saveDimensionData_loop_matches _ _ _ Hgood). cbn [fst].
  rewrite for_cons, (bind_run get). cbn [get]. rewrite bind_run.
  by rewrite decide_False.
Qed.

Lemma saveDimensionData_loop_Ok (element : DimensionElement)
  (records : list (list (string * string) + Rec)) (self self' : Ctx) :
  saveDimensionData_loop element records self = (self', Ok tt) ->
  Forall (matches element) records.
Proof.
  revert self. induction records as [|record records IH]; intros self Hrun;
    [constructor|].
  unfold saveDimensionData_loop in *.
  rewrite for_cons, (bind_run get) in Hrun. cbn [get] in Hrun.
  rewrite bind_run in Hrun. destruct record as [fields|record].
  - cbn [mret M_ret ret] in Hrun. rewrite records_setdefault_run in Hrun.
    apply Forall_cons_2; [done|]. by apply (IH _ Hrun).
  - destruct (decide (rec_definition record = element)) as [Heq|Hne];
      [|done].
    cbn [mret M_ret ret] in Hrun. rewrite records_setdefault_run in Hrun.
    apply Forall_cons_2; [done|]. by apply (IH _ Hrun).
Qed.

Lemma find_none_bool {A} (p : A -> bool) (l : list A) :
  (forall x, p x = false) -> List.find p l = None.
Proof.
  intros Hp. induction l as [|x l IH]; [done|]. cbn. by rewrite Hp.
Qed.

(** X7: [saveDimensionData] keeps the first record that is saved for an
    element and a data ID.  When it returns, the record stored for any
    element and data ID is the one that was stored before the call, if
    there was one, and otherwise the first of the given records with this
    data ID, if the element is the one of the call. *)
Theorem saveDimensionData_first_wins (element : string + DimensionElement)
  (records : list (list (string * string) + Rec)) (self self' : Ctx) :
  saveDimensionData element records self = (self', Ok tt) ->
  exists el,
    named_element (_registry self) element = Some el /\
    forall element' dataId,
      stored_record self' element' dataId
      = stored_record self element' dataId
        ∪ (if decide (element' = el)
           then List.find (fun record => bool_decide (rec_dataId record = dataId))
                  (map (as_record (_registry self) el) records)
           else None).
Proof.
  rewrite saveDimensionData_unfold.
  destruct (named_element (_registry self) element) as [el|]; [|done].
  intros Hrun. exists el. split; [done|].
  pose proof (saveDimensionData_loop_Ok _ _ _ _ Hrun) as Hall.
  rewrite (saveDimensionData_loop_matches _ _ _ Hall) in Hrun.
  injection Hrun as <-. intros element' dataId.
  unfold stored_record. cbn [with_records _records].
  fold (store_get (store_all
                     (map (fun record =>
                             (el, as_record (_registry self) el record))
                        records) (_records self)) element' dataId).
  rewrite store_get_all. f_equal.
  rewrite !find_fmap. cbn [fst snd].
  destruct (decide (element' = el)) as [->|Hne].
  - rewrite (find_ext_bool _
               (fun record =>
                  bool_decide
                    (rec_dataId (as_record (_registry self) el record)
                     = dataId))).
    + by destruct (List.find _ records).
    + intros record. by rewrite bool_decide_true.
  - rewrite find_none_bool; [done|].
    intros record. by rewrite bool_decide_false.
Qed.

(** X8: [saveDimensionData] stops at the first record whose definition is
    not the element of the call: it raises [ValueError] with the two names,
    and the records before that one have been stored. *)
Theorem saveDimensionData_mismatch (element : string + DimensionElement)
  (el : DimensionElement)
  (good rest : list (list (string * string) + Rec)) (bad : Rec)
  (self : Ctx) :
  named_element (_registry self) element = Some el ->
  Forall (matches el) good ->
  rec_definition bad <> el ->
  saveDimensionData element (good ++ inr bad :: rest) self
  = ((saveDimensionData element good self).1,
     Raise (ValueError (el_name el) (el_name (rec_definition bad)))).
Proof.
  intros Hel Hgood Hbad. rewrite !saveDimensionData_unfold, Hel.
  by apply saveDimensionData_loop_mismatch.
Qed.

(** *** [saveDataIds] without explicit elements *)

(** The elements [saveDataIds] selects when it is given none: the static
    elements with a table of their own. *)
Definition exportable (registry : @Registry DataCoordinate)
  (element : DimensionElement) : bool :=
  bool_decide (element ∈ reg_dimensions registry)
  && (el_hasTable element && bool_decide (el_viewOf element = None)).

(** The records of the expansions of the data IDs, in the order in which
    [saveDataIds] goes through them. *)
Definition expanded_records (registry : @Registry DataCoordinate)
  (dataIds : list DataCoordinate) : list Rec :=
  flat_map (fun dataId =>
              match reg_expandDataId registry dataId with
              | Ok records => omap id records
              | Raise _ => []
              end) dataIds.

Definition saveDataIds_records (elements : list DimensionElement)
  (records : list (option Rec)) : M Ctx unit :=
  for_ records (fun record =>
    match record with
    | Some record =>
        if bool_decide (rec_definition record ∈ elements)
        then records_setdefault (rec_definition record) (rec_dataId record)
               record
        else mret tt
    | None => mret tt
    end).

Definition saveDataIds_loop (elements : list DimensionElement)
  (dataIds : list DataCoordinate) : M Ctx unit :=
  for_ dataIds (fun dataId =>
    self ← get;
    records ← lift (reg_expandDataId (_registry self) dataId);
    saveDataIds_records elements records).

Definition selected_items (elements : list DimensionElement)
  (records : list Rec) : list (DimensionElement * Rec) :=
  map (fun record => (rec_definition record, record))
    (List.filter (fun record => bool_decide (rec_definition record ∈ elements))
       records).

Lemma saveDataIds_records_run (elements : list DimensionElement)
  (records : list (option Rec)) (self : Ctx) :
  saveDataIds_records elements records self
  = (with_records (store_all (selected_items elements (omap id records))) self,
     Ok tt).
Proof.
  revert self. induction records as [|record records IH]; intros self.
  - cbn. by rewrite with_records_id.
  - unfold saveDataIds_records in *. rewrite for_cons.
    destruct record as [record|].
    + change (omap id (Some record :: records))
        with (record :: omap id records).
      unfold selected_items. cbn [List.filter].
      destruct (bool_decide (rec_definition record ∈ elements)).
      * by rewrite records_setdefault_run, IH.
      * cbn [mret M_ret ret]. by rewrite IH.
    + change (omap id (None :: records)) with (omap id records).
      cbn [mret M_ret ret]. by rewrite IH.
Qed.

Lemma selected_items_app (elements : list DimensionElement)
  (records records' : list Rec) :
  selected_items elements (records ++ records')
  = selected_items elements records ++ selected_items elements records'.
Proof. unfold selected_items. by rewrite List.filter_app, map_app. Qed.

Lemma saveDataIds_loop_Ok (elements : list DimensionElement)
  (dataIds : list DataCoordinate) (self self' : Ctx) :
  saveDataIds_loop elements dataIds self = (self', Ok tt) ->
  self'
  = with_records
      (store_all (selected_items elements
                    (expanded_records (_registry self) dataIds))) self.
Proof.
  revert self. induction dataIds as [|dataId dataIds IH]; intros self.
  - cbn. intros [= <-]. by rewrite with_records_id.
  - unfold saveDataIds_loop in *. rewrite for_cons, (bind_run get).
    cbn [get]. rewrite bind_run. unfold lift at 1.
    unfold expanded_records. cbn [flat_map].
    destruct (reg_expandDataId (_registry self) dataId) as [records|e];
      [|done].
    fold (saveDataIds_records elements records).
    rewrite saveDataIds_records_run. intros Hrun.
    apply IH in Hrun as ->. cbn [with_records _registry].
    rewrite with_records_with_records.
    fold (expanded_records (_registry self) dataIds).
    apply with_records_ext. by rewrite selected_items_app, store_all_app.
Qed.

Lemma saveDataIds_unfold_None (dataIds : list DataCoordinate) (self : Ctx) :
  saveDataIds dataIds None self
  = saveDataIds_loop
      (List.filter (fun element =>
                      el_hasTable element
                      && bool_decide (el_viewOf element = None))
         (reg_dimensions (_registry self)))
      dataIds self.
Proof. reflexivity. Qed.

(** X9: without explicit elements, [saveDataIds] stores for each data ID
    the records of its expansion that belong to a static element with a
    table of its own, and nothing else.  When it returns, the record stored
    for an element and a data ID is the one stored before the call, if there
    was one, and otherwise the first such record of the expansions for this
    element and data ID. *)
Theorem saveDataIds_all_elements (dataIds : list DataCoordinate)
  (self self' : Ctx) :
  saveDataIds dataIds None self = (self', Ok tt) ->
  forall element dataId,
    stored_record self' element dataId
    = stored_record self element dataId
      ∪ List.find
          (fun record =>
             exportable (_registry self) (rec_definition record)
             && (bool_decide (rec_definition record = element)
                 && bool_decide (rec_dataId record = dataId)))
          (expanded_records (_registry self) dataIds).
Proof.
  rewrite saveDataIds_unfold_None. intros Hrun%saveDataIds_loop_Ok.
  subst self'. intros element dataId.
  unfold stored_record. cbn [with_records _records].
  match goal with
  | |- dict_get element (store_all ?items ?store) ≫= _ = _ =>
      fold (store_get (store_all items store) element dataId)
  end.
  rewrite store_get_all. f_equal. unfold selected_items.
  rewrite find_fmap, find_filter. cbn [fst snd].
  rewrite (find_ext_bool _
             (fun record =>
                exportable (_registry self) (rec_definition record)
                && (bool_decide (rec_definition record = element)
                    && bool_decide (rec_dataId record = dataId)))).
  - by destruct (List.find _ _).
  - intros record. f_equal. unfold exportable.
    apply eq_true_iff_eq.
    rewrite andb_true_iff, !bool_decide_eq_true, elem_of_filter_bool.
    reflexivity.
Qed.

End Records.

(** Two records of the same visit, and a record of another element. *)
Definition first_visit : @DimensionRecord Z :=
  {| rec_definition := visit; rec_dataId := 5;
     rec_fields := [("name", "first")] |}.

Definition second_visit : @DimensionRecord Z :=
  {| rec_definition := visit; rec_dataId := 5;
     rec_fields := [("name", "second")] |}.

Lemma saveDimensionData_first_wins_witness :
  stored_record
    (saveDimensionData (inl "visit") [inr first_visit; inr second_visit]
       new_export).1 visit 5
  = Some first_visit.
Proof.
  destruct (saveDimensionData_first_wins (inl "visit")
              [inr first_visit; inr second_visit] new_export
              (saveDimensionData (inl "visit")
                 [inr first_visit; inr second_visit] new_export).1)
    as (el & Hel & Hstored); [vm_compute; reflexivity|].
  injection Hel as <-. rewrite Hstored. vm_compute. reflexivity.
Defined.

Lemma saveDimensionData_mismatch_witness :
  saveDimensionData (inr visit)
    ([inr first_visit] ++ inr (sample_record instrument 1)
                       :: [inr second_visit]) new_export
  = ((saveDimensionData (inr visit) [inr first_visit] new_export).1,
     Raise (ValueError "visit" "instrument")).
Proof.
  apply (saveDimensionData_mismatch (inr visit) visit [inr first_visit]
           [inr second_visit] (sample_record instrument 1) new_export).
  - reflexivity.
  - apply Forall_cons_2; [reflexivity|apply Forall_nil_2].
  - discriminate.
Defined.

Lemma saveDataIds_all_elements_witness :
  stored_record (saveDataIds [101; 102] None new_export).1 visit 102
  = Some (sample_record visit 102).
Proof.
  rewrite (saveDataIds_all_elements [101; 102] new_export
             (saveDataIds [101; 102] None new_export).1);
    [|vm_compute; reflexivity].
  vm_compute. reflexivity.
Defined.

(** ** Invariants of loops *)

Section Invariants.

Context {S : Type} (P : S -> Prop).

Lemma bind_invariant {A B} (m : M S A) (k : A -> M S B) (s : S) :
  P (m s).1 -> (forall a s', P s' -> P (k a s').1) -> P ((m ≫= k) s).1.
Proof.
  intros Hm Hk. rewrite bind_run.
  destruct (m s) as [s' [a|e]]; [by apply Hk|done].
Qed.

Lemma for_invariant {A} (l : list A) (body : A -> M S unit) :
  (forall x s, P s -> P (body x s).1) ->
  forall s, P s -> P (for_ l body s).1.
Proof.
  intros Hbody. induction l as [|x l IH]; intros s Hs; [done|].
  rewrite for_cons. specialize (Hbody x s Hs).
  destruct (body x s) as [s' [[]|e]]; [by apply IH|done].
Qed.

Lemma foldM_invariant {A B} (l : list A) (body : B -> A -> M S B) :
  (forall acc x s, P s -> P (body acc x s).1) ->
  forall acc s, P s -> P (foldM body acc l s).1.
Proof.
  intros Hbody. induction l as [|x l IH]; intros acc s Hs; [done|].
  rewrite foldM_cons. specialize (Hbody acc x s Hs).
  destruct (body acc x s) as [s' [acc'|e]]; [by apply IH|done].
Qed.

End Invariants.

(** ** The store of datasets *)

Section Datasets.

Context {DataCoordinate FileDataset : Type}.
Context `{DataCoordinate_eq_dec : EqDecision DataCoordinate}.
Context {DatasetRef_PyOrd : PyOrd (@DatasetRef DataCoordinate)}.

Abbreviation Ctx := (@RepoExportContext DataCoordinate FileDataset).
Abbreviation Ref := (@DatasetRef DataCoordinate).

(** [self._datasets[datasetType][run]], empty when it is not there. *)
Definition filed_datasets (self : Ctx) (datasetType : DatasetType)
  (run : string) : list FileDataset :=
  default [] (dict_get datasetType (_datasets self) ≫= dict_get run).

(** The exports of a dataset after the optional [rewrite]. *)
Definition rewritten (rewrite : option (FileDataset -> FileDataset))
  (exports : list FileDataset) : list FileDataset :=
  match rewrite with
  | Some rewrite => map rewrite exports
  | None => exports
  end.

(** A call changes nothing but the store of records. *)
Definition only_records (self self' : Ctx) : Prop :=
  _registry self' = _registry self /\
  _datastore self' = _datastore self /\
  _backend self' = _backend self /\
  _dataset_ids self' = _dataset_ids self /\
  _datasets self' = _datasets self /\
  _collections self' = _collections self.

Lemma saveDataIds_only_records (dataIds : list DataCoordinate)
  (elements : option (list (string + DimensionElement))) (self : Ctx) :
  only_records self (saveDataIds dataIds elements self).1.
Proof.
  unfold saveDataIds.
  apply (bind_invariant (only_records self)); [done|].
  intros self0 s1 H1.
  apply (bind_invariant (only_records self)).
  { destruct elements; exact H1. }
  intros elements' s2 H2.
  apply (for_invariant (only_records self)); [|done].
  intros dataId s3 H3.
  apply (bind_invariant (only_records self)); [done|].
  intros self3 s4 H4.
  apply (bind_invariant (only_records self)); [done|].
  intros records s5 H5.
  apply (for_invariant (only_records self)); [|done].
  intros [record|] s6 H6; [|done].
  destruct (bool_decide _); done.
Qed.

Lemma saveDataIds_nil (elements : option (list (string + DimensionElement)))
  (self : Ctx) :
  saveDataIds [] elements self = (self, Ok tt).
Proof. by destruct elements. Qed.

(** The body of the loop of [saveDatasets]. *)
Definition saveDatasets_step (rewrite : option (FileDataset -> FileDataset))
  (dataIds : list DataCoordinate) (ref : Ref)
  : M Ctx (list DataCoordinate) :=
  self ← get;
  if id_in (ref_id ref) (_dataset_ids self) then mret dataIds
  else
    let dataIds := set_add (ref_dataId ref) dataIds in
    exports ← lift (_datastore self ref);
    let exports := match rewrite with
                   | Some rewrite => map rewrite exports
                   | None => exports
                   end in
    id ← match ref_id ref with
          | Some id => mret id
          | None => raise AmbiguousDatasetError
          end;
    modify (with_dataset_ids (fun ids => ids ∪ {[id]}));;
    run ← match ref_run ref with
           | Some run => mret run
           | None => raise (AssertionError "ref.run is not None")
           end;
    modify (with_datasets
              (defaultdict_update [] (ref_datasetType ref)
                 (defaultdict_update [] run (fun l => l ++ exports))));;
    mret dataIds.

Lemma saveDatasets_unfold (refs : list Ref)
  (elements : option (list (string + DimensionElement)))
  (rewrite : option (FileDataset -> FileDataset)) (self : Ctx) :
  saveDatasets refs elements rewrite self
  = (dataIds ← foldM (saveDatasets_step rewrite) [] (sorted refs);
     saveDataIds dataIds elements) self.
Proof. reflexivity. Qed.

(** The context after the dataset of a ref is filed. *)
Definition file_dataset (id : Z) (datasetType : DatasetType) (run : string)
  (exports : list FileDataset) (self : Ctx) : Ctx :=
  with_datasets
    (defaultdict_update [] datasetType
       (defaultdict_update [] run (fun l => l ++ exports)))
    (with_dataset_ids (fun ids => ids ∪ {[id]}) self).

Lemma saveDatasets_step_run (rewrite : option (FileDataset -> FileDataset))
  (dataIds : list DataCoordinate) (ref : Ref) (self : Ctx) :
  saveDatasets_step rewrite dataIds ref self
  = if id_in (ref_id ref) (_dataset_ids self) then (self, Ok dataIds)
    else
      match _datastore self ref with
      | Raise e => (self, Raise e)
      | Ok exports =>
          match ref_id ref with
          | None => (self, Raise AmbiguousDatasetError)
          | Some id =>
              match ref_run ref with
              | None =>
                  (with_dataset_ids (fun ids => ids ∪ {[id]}) self,
                   Raise (AssertionError "ref.run is not None"))
              | Some run =>
                  (file_dataset id (ref_datasetType ref) run
                     (rewritten rewrite exports) self,
                   Ok (set_add (ref_dataId ref) dataIds))
              end
          end
      end.
Proof.
  unfold saveDatasets_step. rewrite (bind_run get). cbn [get].
  destruct (id_in (ref_id ref) (_dataset_ids self)); [done|].
  rewrite bind_run. unfold lift at 1.
  destruct (_datastore self ref) as [exports|e]; [|done].
  rewrite bind_run. destruct (ref_id ref) as [id|]; [|done].
  cbn [mret M_ret ret]. rewrite bind_run. cbn [modify].
  rewrite bind_run. destruct (ref_run ref) as [run|]; [|done].
  reflexivity.
Qed.

Lemma filed_datasets_file (id : Z) (datasetType datasetType' : DatasetType)
  (run run' : string) (exports : list FileDataset) (self : Ctx) :
  filed_datasets (file_dataset id datasetType run exports self)
    datasetType' run'
  = filed_datasets self datasetType' run'
    ++ (if decide (datasetType' = datasetType /\ run' = run)
        then exports else []).
Proof.
  unfold filed_datasets, file_dataset. cbn [with_datasets _datasets].
  cbn [with_dataset_ids _datasets].
  rewrite dict_get_defaultdict_update.
  destruct (decide (datasetType' = datasetType)) as [->|Hne].
  - cbn [mbind option_bind]. rewrite dict_get_defaultdict_update.
    destruct (decide (run' = run)) as [->|Hr].
    + rewrite decide_True by done.
      by destruct (dict_get datasetType (_datasets self)).
    + rewrite decide_False by (by intros [_ ?]). rewrite app_nil_r.
      by destruct (dict_get datasetType (_datasets self)).
  - rewrite decide_False by (by intros [? _]). by rewrite app_nil_r.
Qed.

Lemma id_in_Some (id : Z) (ids : gset Z) :
  id_in (Some id) ids = true <-> id ∈ ids.
Proof. apply bool_decide_eq_true. Qed.

(** Refs with the same dataset id are the same ref. *)
Definition ids_identify (refs : list Ref) : Prop :=
  forall ref1 ref2,
    ref1 ∈ refs -> ref2 ∈ refs -> ref_id ref1 = ref_id ref2 -> ref1 = ref2.

(** The dataset of [ref] is filed under the type and the run with [fd]
    among its exports. *)
Definition exports_to (rewrite : option (FileDataset -> FileDataset))
  (self : Ctx) (ref : Ref) (datasetType : DatasetType) (run : string)
  (fd : FileDataset) : Prop :=
  id_in (ref_id ref) (_dataset_ids self) = false /\
  ref_datasetType ref = datasetType /\ ref_run ref = Some run /\
  exists exports,
    _datastore self ref = Ok exports /\ fd ∈ rewritten rewrite exports.

Lemma saveDatasets_loop_known
  (rewrite : option (FileDataset -> FileDataset)) (l : list Ref)
  (acc : list DataCoordinate) (self : Ctx) :
  (forall ref, ref ∈ l -> id_in (ref_id ref) (_dataset_ids self) = true) ->
  foldM (saveDatasets_step rewrite) acc l self = (self, Ok acc).
Proof.
  induction l as [|ref l IH]; intros Hknown; [done|].
  rewrite foldM_cons, saveDatasets_step_run, (Hknown ref) by left.
  apply IH. intros ref' Hin. apply Hknown. by right.
Qed.

Lemma saveDatasets_loop_spec
  (rewrite : option (FileDataset -> FileDataset)) (l : list Ref) :
  forall (acc acc' : list DataCoordinate) (self self' : Ctx),
    foldM (saveDatasets_step rewrite) acc l self = (self', Ok acc') ->
    _registry self' = _registry self /\
    _datastore self' = _datastore self /\
    _records self' = _records self /\
    _collections self' = _collections self /\
    _backend self' = _backend self /\
    (forall id,
       id ∈ _dataset_ids self' <->
       id ∈ _dataset_ids self \/ exists ref, ref ∈ l /\ ref_id ref = Some id) /\
    (ids_identify l ->
     forall datasetType run fd,
       fd ∈ filed_datasets self' datasetType run <->
       fd ∈ filed_datasets self datasetType run \/
       exists ref, ref ∈ l /\ exports_to rewrite self ref datasetType run fd).
Proof.
  induction l as [|ref l IH]; intros acc acc' self self'.
  - intros [= <- <-]. split_and!; try done.
    + intros id. split; [by left|]. intros [?|(? & ?%elem_of_nil & _)]; done.
    + intros _ datasetType run fd. split; [by left|].
      intros [?|(? & ?%elem_of_nil & _)]; done.
  - rewrite foldM_cons, saveDatasets_step_run.
    destruct (id_in (ref_id ref) (_dataset_ids self)) eqn:Hknown.
    { intros Hrun. apply IH in Hrun
        as (Hreg & Hds & Hrec & Hcol & Hb & Hids & Hfiles).
      split_and!; try done.
      - intros id. rewrite Hids. split.
        + intros [?|(ref' & Hin & Hid)]; [by left|].
          right. exists ref'. split; [by right|done].
        + intros [?|(ref' & Hin & Hid)]; [by left|].
          apply elem_of_cons in Hin as [->|Hin].
          * left. rewrite Hid in Hknown. by apply id_in_Some.
          * right. by exists ref'.
      - intros Hdistinct datasetType run fd. rewrite Hfiles.
        + split.
          * intros [?|(ref' & Hin & Hex)]; [by left|].
            right. exists ref'. split; [by right|done].
          * intros [?|(ref' & Hin & Hex)]; [by left|].
            apply elem_of_cons in Hin as [->|Hin].
            -- destruct Hex as (Hnew & _). congruence.
            -- right. by exists ref'.
        + intros r1 r2 H1 H2. apply Hdistinct; by right. }
    destruct (_datastore self ref) as [exports|e] eqn:Hexport; [|done].
    destruct (ref_id ref) as [id|] eqn:Hid; [|done].
    destruct (ref_run ref) as [run|] eqn:Hrun'; [|done].
    intros Hrun. apply IH in Hrun
      as (Hreg & Hds & Hrec & Hcol & Hb & Hids & Hfiles).
    split_and!; try done.
    + intros id'. rewrite Hids. cbn [file_dataset with_datasets
        with_dataset_ids _dataset_ids]. rewrite elem_of_union,
        elem_of_singleton. split.
      * intros [[?| ->]|(ref' & Hin & Hid')].
        -- by left.
        -- right. exists ref. split; [left|done].
        -- right. exists ref'. split; [by right|done].
      * intros [?|(ref' & Hin & Hid')]; [by left; left|].
        apply elem_of_cons in Hin as [->|Hin].
        -- left. right. congruence.
        -- right. by exists ref'.
    + intros Hdistinct datasetType run0 fd.
      rewrite Hfiles by (intros r1 r2 H1 H2; apply Hdistinct; by right).
      rewrite filed_datasets_file, elem_of_app. split.
      * intros [[?|Hfd]|(ref' & Hin & Hnew & Hdt & Hr & ex & Hex & Hfd)].
        -- by left.
        -- right. exists ref. split; [left|].
           destruct (decide (datasetType = ref_datasetType ref /\ run0 = run))
             as [[-> ->]|]; [|by apply elem_of_nil in Hfd].
           unfold exports_to.
           split_and!; [by rewrite Hid|done|done|by exists exports].
        -- right. exists ref'. split; [by right|].
           cbn [file_dataset with_datasets with_dataset_ids _dataset_ids
                  _datastore] in Hnew, Hex.
           split_and!; try done; [|by exists ex].
           destruct (ref_id ref') as [id'|]; [|done]. cbn in Hnew |- *.
           apply bool_decide_eq_false in Hnew.
           apply bool_decide_eq_false. intros Hin'. apply Hnew.
           apply elem_of_union. by left.
      * intros [?|(ref' & Hin & Hnew & Hdt & Hr & ex & Hex & Hfd)];
          [by left; left|].
        assert (ref' = ref ->
                fd ∈ (if decide (datasetType = ref_datasetType ref /\
                                 run0 = run)
                      then rewritten rewrite exports else [])) as Hsame.
        { intros ->. rewrite decide_True by (split; congruence).
          congruence. }
        apply elem_of_cons in Hin as [->|Hin]; [left; right; by apply Hsame|].
        destruct (decide (ref_id ref' = Some id)) as [Heq|Hne].
        -- left. right. apply Hsame. apply Hdistinct;
             [by right|left|congruence].
        -- right. exists ref'. split; [done|].
           cbn [file_dataset with_datasets with_dataset_ids _dataset_ids
                  _datastore].
           split_and!; try done; [|by exists ex].
           destruct (ref_id ref') as [id'|]; [|done]. cbn in Hnew |- *.
           apply bool_decide_eq_false in Hnew.
           apply bool_decide_eq_false. intros Hin'.
           apply elem_of_union in Hin' as [?|?%elem_of_singleton];
             [done|congruence].
Qed.

Lemma saveDatasets_loop_marks
  (rewrite : option (FileDataset -> FileDataset)) (l : list Ref) :
  forall (acc acc' : list DataCoordinate) (self self' : Ctx),
    foldM (saveDatasets_step rewrite) acc l self = (self', Ok acc') ->
    forall ref, ref ∈ l -> id_in (ref_id ref) (_dataset_ids self') = true.
Proof.
  induction l as [|ref l IH]; intros acc acc' self self' Hrun ref' Hin;
    [by apply elem_of_nil in Hin|].
  rewrite foldM_cons, saveDatasets_step_run in Hrun.
  assert (forall self1 acc1,
            foldM (saveDatasets_step rewrite) acc1 l self1 = (self', Ok acc') ->
            id_in (ref_id ref) (_dataset_ids self1) = true ->
            id_in (ref_id ref') (_dataset_ids self') = true) as Hrest.
  { intros self1 acc1 Hrun1 Hmarked.
    apply elem_of_cons in Hin as [->|Hin]; [|by apply (IH _ _ _ _ Hrun1)].
    apply saveDatasets_loop_spec in Hrun1 as (_ & _ & _ & _ & _ & Hids & _).
    destruct (ref_id ref) as [id|]; [|done].
    apply id_in_Some, Hids. left. by apply id_in_Some. }
  destruct (id_in (ref_id ref) (_dataset_ids self)) eqn:Hknown;
    [by apply (Hrest _ _ Hrun)|].
  destruct (_datastore self ref) as [exports|e]; [|done].
  destruct (ref_id ref) as [id|] eqn:Hid; [|done].
  destruct (ref_run ref) as [run|]; [|done].
  apply (Hrest _ _ Hrun). apply id_in_Some.
  cbn [file_dataset with_datasets with_dataset_ids _dataset_ids].
  apply elem_of_union. right. by apply elem_of_singleton.
Qed.

(** X10: [saveDatasets] ignores the refs whose dataset has been exported:
    when every given ref has its id among the exported ids, the call
    returns and leaves the context as it found it; the datastore is not
    asked for anything and no record is stored. *)
Theorem saveDatasets_ignores_exported (refs : list Ref)
  (elements : option (list (string + DimensionElement)))
  (rewrite : option (FileDataset -> FileDataset)) (self : Ctx) :
  (forall ref, ref ∈ refs -> id_in (ref_id ref) (_dataset_ids self) = true) ->
  saveDatasets refs elements rewrite self = (self, Ok tt).
Proof.
  intros Hknown. rewrite saveDatasets_unfold, bind_run.
  rewrite saveDatasets_loop_known; [apply saveDataIds_nil|].
  intros ref Hin. apply Hknown. by apply sorted_elem_of.
Qed.

(** X11: a call of [saveDatasets] that has returned can be repeated: the
    second call with the same refs returns and changes nothing. *)
Theorem saveDatasets_idempotent (refs : list Ref)
  (elements : option (list (string + DimensionElement)))
  (rewrite : option (FileDataset -> FileDataset)) (self self' : Ctx) :
  saveDatasets refs elements rewrite self = (self', Ok tt) ->
  saveDatasets refs elements rewrite self' = (self', Ok tt).
Proof.
  rewrite !saveDatasets_unfold, !bind_run.
  destruct (foldM (saveDatasets_step rewrite) [] (sorted refs) self)
    as [self1 [dataIds|e]] eqn:Hloop; [|done].
  intros Hsave.
  pose proof (saveDatasets_loop_marks _ _ _ _ _ _ Hloop) as Hmarked.
  pose proof (saveDataIds_only_records dataIds elements self1) as Honly.
  rewrite Hsave in Honly. destruct Honly as (_ & _ & _ & Hids' & _).
  cbn [fst] in Hids'. rewrite <- Hids' in Hmarked.
  rewrite saveDatasets_loop_known by done. apply saveDataIds_nil.
Qed.

(** X12: when [saveDatasets] returns, the ids of the given refs are among
    the exported ids, and so are the ids exported before and no other; and,
    if refs with the same id are the same ref, a file dataset is filed
    under a dataset type and a run exactly if it was filed there before, or
    it is one of the exports of the datastore, after [rewrite], for a given
    ref of this type and run whose dataset had not been exported. *)
Theorem saveDatasets_files_exports (refs : list Ref)
  (elements : option (list (string + DimensionElement)))
  (rewrite : option (FileDataset -> FileDataset)) (self self' : Ctx) :
  saveDatasets refs elements rewrite self = (self', Ok tt) ->
  (forall id,
     id ∈ _dataset_ids self' <->
     id ∈ _dataset_ids self \/
     exists ref, ref ∈ refs /\ ref_id ref = Some id) /\
  (ids_identify refs ->
   forall datasetType run fd,
     fd ∈ filed_datasets self' datasetType run <->
     fd ∈ filed_datasets self datasetType run \/
     exists ref,
       ref ∈ refs /\ exports_to rewrite self ref datasetType run fd).
Proof.
  rewrite saveDatasets_unfold, bind_run.
  destruct (foldM (saveDatasets_step rewrite) [] (sorted refs) self)
    as [self1 [dataIds|e]] eqn:Hloop; [|done].
  intros Hsave.
  apply saveDatasets_loop_spec in Hloop
    as (_ & _ & _ & _ & _ & Hids & Hfiles).
  pose proof (saveDataIds_only_records dataIds elements self1) as Honly.
  rewrite Hsave in Honly.
  destruct Honly as (_ & _ & _ & Hids' & Hdatasets & _).
  cbn [fst] in Hids', Hdatasets. split.
  - intros id. rewrite Hids', Hids.
    by setoid_rewrite sorted_elem_of.
  - intros Hdistinct datasetType run fd.
    unfold filed_datasets at 1. rewrite Hdatasets.
    fold (filed_datasets self1 datasetType run). rewrite Hfiles.
    + by setoid_rewrite sorted_elem_of.
    + intros r1 r2 H1 H2. apply Hdistinct; by apply sorted_elem_of.
Qed.

(** X13: [saveDatasets] adds the id of a ref to the exported ids before it
    checks that the ref has a run.  For a ref with an id that has not been
    exported and without a run, the call raises [AssertionError] and files
    nothing, and from then on [saveDatasets] ignores every ref with this id:
    the dataset is not exported by a later call either. *)
Theorem saveDatasets_failed_run_blocks_retry (ref : Ref) (id : Z)
  (exports : list FileDataset)
  (elements : option (list (string + DimensionElement)))
  (rewrite : option (FileDataset -> FileDataset)) (self : Ctx) :
  ref_id ref = Some id -> id ∉ _dataset_ids self ->
  ref_run ref = None -> _datastore self ref = Ok exports ->
  exists self1,
    saveDatasets [ref] elements rewrite self
    = (self1, Raise (AssertionError "ref.run is not None")) /\
    _datasets self1 = _datasets self /\
    forall ref' elements' rewrite',
      ref_id ref' = Some id ->
      saveDatasets [ref'] elements' rewrite' self1 = (self1, Ok tt).
Proof.
  intros Hid Hnew Hrun Hexport. eexists. split_and!.
  - rewrite saveDatasets_unfold, bind_run.
    change (sorted [ref]) with [ref].
    rewrite foldM_cons, saveDatasets_step_run, Hid, Hexport, Hrun.
    cbn [id_in]. by rewrite bool_decide_false.
  - reflexivity.
  - intros ref' elements' rewrite' Hid'.
    rewrite saveDatasets_unfold, bind_run.
    change (sorted [ref']) with [ref'].
    rewrite saveDatasets_loop_known; [apply saveDataIds_nil|].
    intros ? ->%list_elem_of_singleton. rewrite Hid'.
    apply id_in_Some. cbn [with_dataset_ids _dataset_ids].
    apply elem_of_union. right. by apply elem_of_singleton.
Qed.

End Datasets.

Lemma saveDatasets_ignores_exported_witness :
  saveDatasets [sample_ref flat 4; sample_ref raw 1] None None session_one
  = (session_one, Ok tt).
Proof.
  apply saveDatasets_ignores_exported.
  intros ref Hin. set_unfold in Hin.
  destruct Hin as [->|[->|[]]]; vm_compute; reflexivity.
Defined.

Lemma saveDatasets_idempotent_witness :
  let refs := [sample_ref raw 2; sample_ref raw 1] in
  let self' := (saveDatasets refs None None new_export).1 in
  saveDatasets refs None None new_export = (self', Ok tt) /\
  saveDatasets refs None None self' = (self', Ok tt).
Proof.
  intros refs self'.
  assert (saveDatasets refs None None new_export = (self', Ok tt)) as Hfirst
    by (vm_compute; reflexivity).
  split; [exact Hfirst|].
  exact (saveDatasets_idempotent refs None None new_export self' Hfirst).
Defined.

(** The same ref given twice, and a ref of another dataset type. *)
Lemma saveDatasets_files_exports_witness :
  let refs := [sample_ref raw 1; sample_ref flat 4; sample_ref raw 1] in
  let self' := (saveDatasets refs None None new_export).1 in
  ids_identify refs /\
  "a.fits" ∈ filed_datasets self' raw "run1".
Proof.
  intros refs self'.
  assert (ids_identify refs) as Hdistinct.
  { intros ref1 ref2 H1 H2. unfold refs in H1, H2.
    set_unfold in H1. set_unfold in H2.
    destruct H1 as [->|[->|[->|[]]]]; destruct H2 as [->|[->|[->|[]]]];
      first [reflexivity|discriminate]. }
  split; [exact Hdistinct|].
  destruct (saveDatasets_files_exports refs None None new_export self')
    as [_ Hfiles]; [vm_compute; reflexivity|].
  apply (Hfiles Hdistinct). right. exists (sample_ref raw 1).
  split; [left|]. split_and!; try reflexivity.
  exists ["a.fits"]. split; [reflexivity|left].
Defined.

Lemma saveDatasets_failed_run_blocks_retry_witness :
  let ref := {| ref_datasetType := raw; ref_dataId := 101;
                ref_id := Some 1; ref_run := None |} in
  exists self1,
    saveDatasets [ref] None None new_export
    = (self1, Raise (AssertionError "ref.run is not None")) /\
    saveDatasets [sample_ref raw 1] None None self1 = (self1, Ok tt).
Proof.
  intros ref.
  destruct (saveDatasets_failed_run_blocks_retry ref 1 ["a.fits"] None None
              new_export)
    as (self1 & Hraise & _ & Hretry);
    [reflexivity|apply not_elem_of_empty|reflexivity|reflexivity|].
  exists self1. split; [exact Hraise|]. by apply Hretry.
Defined.

(** ** Sessions of an export *)

Lemma elem_of_defaultdict_update {K V} `{EqDecision K} (default : V)
  (k k' : K) (v' : V) (f : V -> V) (d : dict K V) :
  dict_wf d ->
  (k', v') ∈ defaultdict_update default k f d ->
  (k' <> k /\ (k', v') ∈ d) \/
  (k' = k /\ v' = f (stdpp.option.default default (dict_get k d))).
Proof.
  intros Hwf Hin.
  apply dict_get_elem_of in Hin; [|by apply defaultdict_update_wf].
  rewrite dict_get_defaultdict_update in Hin.
  destruct (decide (k' = k)) as [->|Hne].
  - right. split; [done|]. congruence.
  - left. split; [done|]. by apply dict_get_Some_elem_of.
Qed.

Lemma elem_of_dict_setdefault {K V} `{EqDecision K} (k k' : K) (v v' : V)
  (d : dict K V) :
  dict_wf d ->
  (k', v') ∈ dict_setdefault k v d -> (k', v') ∈ d \/ (k' = k /\ v' = v).
Proof.
  intros Hwf Hin.
  apply dict_get_elem_of in Hin; [|by apply dict_setdefault_wf].
  rewrite dict_get_setdefault in Hin.
  destruct (dict_get k' d) as [v0|] eqn:Hget.
  - rewrite option_union_Some in Hin. injection Hin as <-.
    left. by apply dict_get_Some_elem_of.
  - rewrite option_union_None_l in Hin.
    destruct (decide (k' = k)) as [->|]; [|done].
    right. split; [done|]. congruence.
Qed.

Lemma dict_set_set {K V} `{EqDecision K} (k : K) (v : V) (d : dict K V) :
  dict_set k v (dict_set k v d) = dict_set k v d.
Proof.
  induction d as [|[k' v'] d IH]; cbn [dict_set].
  - by rewrite decide_True.
  - destruct (decide (k = k')) as [->|Hne]; cbn [dict_set].
    + by rewrite decide_True.
    + rewrite decide_False by done. by rewrite IH.
Qed.

Section Sessions.

Context {DataCoordinate FileDataset : Type}.
Context `{DataCoordinate_eq_dec : EqDecision DataCoordinate}.
Context {DatasetRef_PyOrd : PyOrd (@DatasetRef DataCoordinate)}.

Abbreviation Ctx := (@RepoExportContext DataCoordinate FileDataset).
Abbreviation Ref := (@DatasetRef DataCoordinate).
Abbreviation Rec := (@DimensionRecord DataCoordinate).

(** The calls a session makes on the context before [_finish]. *)
Inductive Operation : Type :=
| SaveCollection (name : string)
| SaveDimensionData (element : string + DimensionElement)
    (records : list (list (string * string) + Rec))
| SaveDataIds (dataIds : list DataCoordinate)
    (elements : option (list (string + DimensionElement)))
| SaveDatasets (refs : list Ref)
    (elements : option (list (string + DimensionElement)))
    (rewrite : option (FileDataset -> FileDataset)).

Definition perform (op : Operation) : M Ctx unit :=
  match op with
  | SaveCollection name => saveCollection name
  | SaveDimensionData element records => saveDimensionData element records
  | SaveDataIds dataIds elements => saveDataIds dataIds elements
  | SaveDatasets refs elements rewrite => saveDatasets refs elements rewrite
  end.

(** The context after a sequence of calls, each of which has returned or
    raised an exception that the session has caught. *)
Definition after (ops : list Operation) (self : Ctx) : Ctx :=
  foldl (fun self op => (perform op self).1) self ops.

(** The accumulated state is well formed: a collection, an element, a data
    ID, a dataset type and a run are each filed once, a collection under
    its own name, a record under its own data ID; and nothing has been
    written to the backend. *)
Definition accumulated_wf (self : Ctx) : Prop :=
  collections_wf (_collections self) /\
  dict_wf (_records self) /\
  (forall element store,
     (element, store) ∈ _records self ->
     dict_wf store /\
     forall dataId record,
       (dataId, record) ∈ store -> rec_dataId record = dataId) /\
  dict_wf (_datasets self) /\
  (forall datasetType byRun,
     (datasetType, byRun) ∈ _datasets self -> dict_wf byRun) /\
  _backend self = [].

Lemma accumulated_wf_init (registry : @Registry DataCoordinate)
  (datastore : Ref -> Result (list FileDataset)) :
  accumulated_wf (__init__ registry datastore).
Proof.
  unfold accumulated_wf, __init__. cbn. split_and!; try done.
  - split; [apply NoDup_nil_2|]. by intros ? ? ?%elem_of_nil.
  - apply NoDup_nil_2.
  - by intros ? ? ?%elem_of_nil.
  - apply NoDup_nil_2.
  - by intros ? ? ?%elem_of_nil.
Qed.

Lemma accumulated_wf_records_setdefault (element : DimensionElement)
  (record : Rec) (self : Ctx) :
  accumulated_wf self ->
  accumulated_wf
    (records_setdefault element (rec_dataId record) record self).1.
Proof.
  intros (Hc & Hr & Hstores & Hd & Hruns & Hb).
  unfold accumulated_wf. cbn. split_and!; try done.
  - by apply defaultdict_update_wf.
  - intros element' store Hin.
    apply elem_of_defaultdict_update in Hin as [[_ Hin]|[-> ->]];
      [by apply (Hstores element')| |done].
    assert (dict_wf (default [] (dict_get element (_records self))) /\
            forall dataId record',
              (dataId, record')
              ∈ default [] (dict_get element (_records self)) ->
              rec_dataId record' = dataId) as [Hwf Hids].
    { destruct (dict_get element (_records self)) as [store|] eqn:Hget.
      - apply Hstores with element. by apply dict_get_Some_elem_of.
      - split; [apply NoDup_nil_2|]. by intros ? ? ?%elem_of_nil. }
    split; [by apply dict_setdefault_wf|].
    intros dataId record' Hin.
    apply elem_of_dict_setdefault in Hin as [Hin|[-> ->]];
      [by apply Hids|done|done].
Qed.

Lemma accumulated_wf_saveDataIds (dataIds : list DataCoordinate)
  (elements : option (list (string + DimensionElement))) (self : Ctx) :
  accumulated_wf self -> accumulated_wf (saveDataIds dataIds elements self).1.
Proof.
  intros Hwf. unfold saveDataIds.
  apply (bind_invariant accumulated_wf); [done|].
  intros self0 s1 H1.
  apply (bind_invariant accumulated_wf).
  { destruct elements; exact H1. }
  intros elements' s2 H2.
  apply (for_invariant accumulated_wf); [|done].
  intros dataId s3 H3.
  apply (bind_invariant accumulated_wf); [done|].
  intros self3 s4 H4.
  apply (bind_invariant accumulated_wf).
  { unfold lift. by destruct (reg_expandDataId _ _). }
  intros records s5 H5.
  apply (for_invariant accumulated_wf); [|done].
  intros [record|] s6 H6; [|done].
  destruct (bool_decide _); [|done].
  by apply accumulated_wf_records_setdefault.
Qed.

Lemma accumulated_wf_saveDimensionData
  (element : string + DimensionElement)
  (records : list (list (string * string) + Rec)) (self : Ctx) :
  accumulated_wf self ->
  accumulated_wf (saveDimensionData element records self).1.
Proof.
  intros Hwf. unfold saveDimensionData.
  apply (bind_invariant accumulated_wf).
  { destruct element as [name|element]; [|done].
    unfold registry_dimensions_getitem. rewrite bind_run. cbn [get].
    by destruct (List.find _ _). }
  intros el s1 H1.
  apply (for_invariant accumulated_wf); [|done].
  intros record s2 H2.
  apply (bind_invariant accumulated_wf); [done|].
  intros self2 s3 H3.
  apply (bind_invariant accumulated_wf).
  { destruct record as [fields|record]; [done|].
    by destruct (decide (rec_definition record = el)). }
  intros record' s4 H4.
  by apply accumulated_wf_records_setdefault.
Qed.

Lemma accumulated_wf_saveCollection (name : string) (self : Ctx) :
  accumulated_wf self -> accumulated_wf (saveCollection name self).1.
Proof.
  intros Hwf. unfold saveCollection, registry_collections_find.
  rewrite !bind_run. cbn [get].
  destruct (find_collection (_registry self) name) as [record|] eqn:Hfind;
    [|done].
  destruct Hwf as (Hc & Hrest). split; [|done]. cbn.
  rewrite <- (find_collection_name _ _ _ Hfind).
  by apply collections_wf_set.
Qed.

Lemma accumulated_wf_saveDatasets (refs : list Ref)
  (elements : option (list (string + DimensionElement)))
  (rewrite : option (FileDataset -> FileDataset)) (self : Ctx) :
  accumulated_wf self ->
  accumulated_wf (saveDatasets refs elements rewrite self).1.
Proof.
  intros Hwf. rewrite saveDatasets_unfold.
  apply (bind_invariant accumulated_wf);
    [|intros; by apply accumulated_wf_saveDataIds].
  apply (foldM_invariant accumulated_wf); [|done].
  intros acc ref s Hs. rewrite saveDatasets_step_run.
  destruct (id_in _ _); [done|].
  destruct (_datastore s ref) as [exports|e]; [|done].
  destruct (ref_id ref) as [id|]; [|done].
  destruct (ref_run ref) as [run|]; [|done].
  destruct Hs as (Hc & Hr & Hstores & Hd & Hruns & Hb).
  unfold accumulated_wf. cbn. split_and!; try done.
  - by apply defaultdict_update_wf.
  - intros datasetType byRun Hin.
    apply elem_of_defaultdict_update in Hin as [[_ Hin]|[-> ->]];
      [by apply (Hruns datasetType)| |done].
    apply defaultdict_update_wf.
    destruct (dict_get (ref_datasetType ref) (_datasets s)) as [byRun|]
      eqn:Hget; [|apply NoDup_nil_2].
    apply (Hruns (ref_datasetType ref)). by apply dict_get_Some_elem_of.
Qed.

(** X5: whatever calls a session makes on a new context, in whatever
    order, and whether they return or raise, the accumulated state stays
    well formed, and nothing is written to the backend before [_finish]. *)
Theorem session_state_wf (registry : @Registry DataCoordinate)
  (datastore : Ref -> Result (list FileDataset)) (ops : list Operation) :
  accumulated_wf (after ops (__init__ registry datastore)).
Proof.
  unfold after.
  generalize (accumulated_wf_init registry datastore).
  generalize (__init__ registry datastore).
  induction ops as [|op ops IH]; intros self Hwf; [done|].
  cbn [foldl]. apply IH. destruct op; cbn [perform].
  - by apply accumulated_wf_saveCollection.
  - by apply accumulated_wf_saveDimensionData.
  - by apply accumulated_wf_saveDataIds.
  - by apply accumulated_wf_saveDatasets.
Qed.

(** X6: a collection that is saved again is ignored: two calls of
    [saveCollection] with a name have the effect and the result of one. *)
Theorem saveCollection_twice (name : string) (self : Ctx) :
  (saveCollection name;; saveCollection name) self = saveCollection name self.
Proof.
  rewrite bind_run. unfold saveCollection, registry_collections_find.
  rewrite !bind_run. cbn [get].
  destruct (find_collection (_registry self) name) as [record|] eqn:Hfind;
    [|done].
  cbn [mret M_ret ret modify]. rewrite !bind_run. cbn [get with_collections _registry].
  rewrite Hfind. unfold mret, M_ret, ret, modify, with_collections.
  cbn [_registry _datastore _backend _records _dataset_ids _datasets
         _collections].
  by rewrite dict_set_set.
Qed.

End Sessions.

(** ** What [refresh] caches *)

(** A map filled by a loop of [m[key(x)] = val(x)]: the last [x] with a key
    is the one the map holds. *)
Lemma lookup_foldl_insert {A K V} `{Countable K} (key : A -> K)
  (val : A -> V) (l : list A) (m : gmap K V) (k : K) :
  foldl (fun m x => <[key x := val x]> m) m l !! k
  = match last (List.filter (fun x => bool_decide (key x = k)) l) with
    | Some x => Some (val x)
    | None => m !! k
    end.
Proof.
  revert m. induction l as [|x l IH]; intros m; [done|].
  cbn [foldl List.filter]. rewrite IH.
  destruct (decide (key x = k)) as [Hk|Hk].
  - rewrite bool_decide_true by done.
    destruct (List.filter _ l) as [|y l'] eqn:Hl.
    + cbn. by rewrite <- Hk, lookup_insert_eq.
    + rewrite last_cons_cons.
      destruct (last (y :: l')) eqn:Hlast; [done|].
      by apply last_None in Hlast.
  - rewrite bool_decide_false by done.
    destruct (last (List.filter _ l)); [done|].
    by rewrite lookup_insert_ne.
Qed.

Lemma filter_none {A} (f : A -> bool) (l : list A) :
  (forall x, x ∈ l -> f x = false) -> List.filter f l = [].
Proof.
  induction l as [|x l IH]; intros Hf; [done|]. cbn [List.filter].
  rewrite (Hf x) by left. apply IH. intros y Hy. apply Hf. by right.
Qed.

Section ManagerCaches.

Context {DataCoordinate : Type} `{Collaborators DataCoordinate}.

Lemma refresh_rows_caches (rows : list DatasetTypeRow) :
  forall (byName : gmap string Storage) (byId : gmap Z Storage)
         (self : Manager),
    exists self',
      foldM refresh_row (byName, byId) rows self
      = (self',
         Ok (foldl (fun m row => <[row_name row := row_storage self row]> m)
               byName rows,
             foldl (fun m row => <[row_id row := row_storage self row]> m)
               byId rows)) /\
      _byName self' = _byName self /\ _byId self' = _byId self /\
      same_tables self self' /\ refreshes self' = refreshes self.
Proof.
  induction rows as [|row rows IH]; intros byName byId self.
  - exists self. by split_and!.
  - rewrite foldM_cons.
    destruct (refresh_row_run byName byId row self) as [table ->].
    destruct (IH (<[row_name row := row_storage self row]> byName)
                (<[row_id row := row_storage self row]> byId)
                (with_db (db_log (Db_getExistingTable table)) self))
      as (self' & Hrun & Hn & Hi & Ht & Hr).
    exists self'. split_and!; try done.
    rewrite Hr, refreshes_log, bool_decide_false by done. lia.
Qed.

Lemma refresh_exact (self : Manager) :
  exists self',
    refresh self = (self', Ok tt) /\
    same_tables self self' /\
    _byName self'
    = foldl (fun m row => <[row_name row := row_storage self row]> m) ∅
        (db_dataset_type (_db self)) /\
    _byId self'
    = foldl (fun m row => <[row_id row := row_storage self row]> m) ∅
        (db_dataset_type (_db self)).
Proof.
  unfold refresh, db_query_dataset_type. rewrite !bind_run. run.
  destruct (refresh_rows_caches (db_dataset_type (_db self)) ∅ ∅
              (with_db (db_log Db_query_dataset_type) self))
    as (self' & Hrun & _ & _ & Ht & _).
  simpl in Hrun. rewrite Hrun.
  eexists. split; [reflexivity|]. cbn. by split_and!.
Qed.

(** X15: [refresh] forgets what was cached and caches the directory: it
    returns, leaves the tables as they are, and afterwards the name cache
    holds under a name, and the id cache under an id, the storage built
    from the last row of the directory with this name or id, and nothing
    when there is no such row. *)
Theorem refresh_rebuilds_caches (self : Manager) :
  exists self',
    refresh self = (self', Ok tt) /\
    same_tables self self' /\
    (forall name,
       _byName self' !! name
       = row_storage self
         <$> last (List.filter (fun row => bool_decide (row_name row = name))
                     (db_dataset_type (_db self)))) /\
    (forall id,
       _byId self' !! id
       = row_storage self
         <$> last (List.filter (fun row => bool_decide (row_id row = id))
                     (db_dataset_type (_db self)))).
Proof.
  destruct (refresh_exact self) as (self' & Hrun & Ht & Hn & Hi).
  exists self'. split_and!; [done|done| |].
  - intros name. rewrite Hn, lookup_foldl_insert. by destruct (last _).
  - intros id. rewrite Hi, lookup_foldl_insert. by destruct (last _).
Qed.

(** X16: when the dataset table refers to a dataset type that the
    directory does not have, so that a foreign key is broken,
    [getDatasetRef] finds no storage for the dataset of an id, refreshes
    once, finds none again and fails its assertion. *)
Theorem getDatasetRef_broken_foreign_key (self : Manager) (id : Z)
  (row : DatasetRow) :
  List.find (fun row => bool_decide (dataset_id row = id))
    (db_dataset (_db self)) = Some row ->
  _byId self !! dataset_type_id row = None ->
  (forall type_row,
     type_row ∈ db_dataset_type (_db self) ->
     row_id type_row <> dataset_type_id row) ->
  (getDatasetRef id self).2
  = Raise (AssertionError "Should be guaranteed by foreign key constraints.")
  /\ refreshes (getDatasetRef id self).1 = S (refreshes self).
Proof.
  intros Hfind Hcached Hbroken. unfold getDatasetRef.
  rewrite bind_run, db_query_dataset_run, Hfind.
  set (self1 := with_db (db_log (Db_query_dataset id)) self).
  rewrite (bind_run get). cbn [get]. rewrite bind_run.
  change (_byId self1) with (_byId self). rewrite Hcached.
  destruct (refresh_exact self1) as (self2 & Hrefresh & _ & _ & Hids).
  destruct (refresh_run self1) as (self2' & Hrefresh' & _ & Hr & _).
  rewrite Hrefresh in Hrefresh'. injection Hrefresh' as <-.
  rewrite bind_run, Hrefresh. rewrite (bind_run get). cbn [get].
  rewrite Hids, lookup_foldl_insert.
  assert (List.filter
            (fun type_row =>
               bool_decide (row_id type_row = dataset_type_id row))
            (db_dataset_type (_db self1)) = []) as ->.
  { apply filter_none. intros type_row Hin.
    apply bool_decide_eq_false. by apply Hbroken. }
  cbn [last lookup]. rewrite lookup_empty. unfold raise.
  cbn [fst snd]. split; [done|].
  rewrite Hr. unfold self1. by rewrite refreshes_log, Nat.add_0_r.
Qed.

(** *** An invariant of the caches *)

(** The calls on a manager. *)
Inductive ManagerCall : Type :=
| Register (datasetType : DatasetType)
| Refresh
| Find (name : string)
| GetDatasetRef (id : Z).

(** The manager after a call, whether it has returned or raised. *)
Definition called (call : ManagerCall) (self : Manager) : Manager :=
  match call with
  | Register datasetType => (register datasetType self).1
  | Refresh => (refresh self).1
  | Find name => (find name self).1
  | GetDatasetRef id => (getDatasetRef id self).1
  end.

(** A storage is cached under the name of its dataset type and under its
    own id, and the id of a storage cached by name is cached. *)
Definition caches_keyed (self : Manager) : Prop :=
  (forall name storage,
     _byName self !! name = Some storage ->
     dt_name (st_datasetType storage) = name /\
     is_Some (_byId self !! _dataset_type_id storage)) /\
  (forall id storage,
     _byId self !! id = Some storage -> _dataset_type_id storage = id).

Lemma caches_keyed_with_db (f : Database -> Database) (self : Manager) :
  caches_keyed self -> caches_keyed (with_db f self).
Proof. done. Qed.

Lemma caches_keyed_insert (storage : Storage) (self self' : Manager) :
  _byName self'
  = <[dt_name (st_datasetType storage) := storage]> (_byName self) ->
  _byId self' = <[_dataset_type_id storage := storage]> (_byId self) ->
  caches_keyed self -> caches_keyed self'.
Proof.
  intros Hn Hi [Hnames Hids]. split.
  - intros name storage'. rewrite Hn, Hi.
    destruct (decide (dt_name (st_datasetType storage) = name)) as [<-|Hne].
    + rewrite lookup_insert_eq. intros [= <-]. split; [done|].
      by rewrite lookup_insert_eq.
    + rewrite lookup_insert_ne by done. intros [Hname Hid]%Hnames.
      split; [done|].
      destruct (decide (_dataset_type_id storage
                        = _dataset_type_id storage')) as [->|Hd].
      * by rewrite lookup_insert_eq.
      * by rewrite lookup_insert_ne.
  - intros id storage'. rewrite Hi.
    destruct (decide (_dataset_type_id storage = id)) as [<-|Hne].
    + rewrite lookup_insert_eq. by intros [= <-].
    + rewrite lookup_insert_ne by done. apply Hids.
Qed.

Lemma caches_keyed_register_one (storageClassName : string)
  (datasetType : DatasetType) (self : Manager) :
  caches_keyed self ->
  caches_keyed (register_one storageClassName datasetType self).1.
Proof.
  intros Hkeyed.
  pose proof (register_one_cases storageClassName datasetType self) as Hc.
  destruct (_byName self !! dt_name datasetType) as [storage|];
    [by rewrite Hc|].
  destruct Hc as (self' & <- & Hc).
  destruct (register_one _ _ _) as [self' [[storage inserted]|e]];
    cbn [fst snd] in *.
  - destruct Hc as (Hdt & Hn & Hi). rewrite <- Hdt in Hn.
    by apply (caches_keyed_insert storage self).
  - destruct Hc as [Hn Hi]. unfold caches_keyed. by rewrite Hn, Hi.
Qed.

(** A property that the registration of one type keeps is kept by
    [register], with its recursion into the components. *)
Lemma register_at_invariant (P : Manager -> Prop) :
  (forall storageClassName datasetType self,
     P self -> P (register_one storageClassName datasetType self).1) ->
  forall storageClass datasetType self,
    P self -> P (register_at storageClass datasetType self).1.
Proof.
  intros Hone storageClass.
  induction storageClass as [name components IH]
    using StorageClass_nested_ind.
  intros datasetType self Hself. rewrite register_at_unfold.
  specialize (Hone name datasetType self Hself).
  destruct (register_one name datasetType self)
    as [self' [[storage inserted]|e]]; [|done].
  destruct (inserted && dt_isComposite datasetType); [|done].
  cbn [fst] in Hone.
  assert (P (register_components datasetType components self').1) as Hloop.
  { unfold register_components. revert self' Hone.
    induction IH as [|[component storageClass] components Hsc _ IHc];
      intros self' Hself'; [done|].
    rewrite for_cons, bind_run.
    specialize (Hsc (makeComponentDatasetType datasetType component
                       storageClass) self' Hself').
    cbn [snd] in Hsc.
    destruct (register_at storageClass _ self') as [self1 [r|e]]; [|done].
    cbn. by apply IHc. }
  by destruct (register_components datasetType components self')
    as [self'' [[]|e]].
Qed.

Lemma caches_keyed_refresh (self : Manager) :
  caches_keyed (refresh self).1.
Proof.
  destruct (refresh_exact self) as (self' & -> & _ & Hn & Hi).
  cbn [fst]. split.
  - intros name storage. rewrite Hn, Hi, lookup_foldl_insert.
    destruct (last _) as [row|] eqn:Hlast; [|by rewrite lookup_empty].
    intros [= <-]. apply last_Some in Hlast as [l' Hl'].
    assert (row ∈ List.filter
                    (fun row => bool_decide (row_name row = name))
                    (db_dataset_type (_db self))) as Hin.
    { rewrite Hl'. apply elem_of_app. right. left. }
    apply elem_of_filter_bool in Hin as [Hin Hname%bool_decide_eq_true].
    split; [done|]. rewrite lookup_foldl_insert. cbn.
    destruct (last _) eqn:Hlast'; [done|].
    apply last_None in Hlast'.
    assert (row ∈ List.filter
                    (fun row' => bool_decide (row_id row' = row_id row))
                    (db_dataset_type (_db self))) as Hin'.
    { apply elem_of_filter_bool. split; [done|].
      by apply bool_decide_eq_true. }
    rewrite Hlast' in Hin'. by apply elem_of_nil in Hin'.
  - intros id storage. rewrite Hi, lookup_foldl_insert.
    destruct (last _) as [row|] eqn:Hlast; [|by rewrite lookup_empty].
    intros [= <-]. apply last_Some in Hlast as [l' Hl'].
    assert (row ∈ List.filter
                    (fun row => bool_decide (row_id row = id))
                    (db_dataset_type (_db self))) as Hin.
    { rewrite Hl'. apply elem_of_app. right. left. }
    by apply elem_of_filter_bool in Hin as [_ Hid%bool_decide_eq_true].
Qed.

Lemma caches_keyed_getDatasetRef (id : Z) (self : Manager) :
  caches_keyed self -> caches_keyed (getDatasetRef id self).1.
Proof.
  intros Hkeyed. unfold getDatasetRef.
  apply (bind_invariant caches_keyed); [done|].
  intros [row|] s1 H1; [|done].
  apply (bind_invariant caches_keyed); [done|].
  intros self1 s2 H2.
  apply (bind_invariant caches_keyed).
  { destruct (_byId self1 !! dataset_type_id row); [done|].
    apply (bind_invariant caches_keyed); [apply caches_keyed_refresh|].
    intros [] s3 H3.
    apply (bind_invariant caches_keyed); [done|].
    intros self3 s4 H4. by destruct (_byId self3 !! dataset_type_id row). }
  intros storage s3 H3.
  apply (bind_invariant caches_keyed); [done|].
  intros dataId s4 H4.
  apply (bind_invariant caches_keyed); [|done].
  by destruct (collections_getitem (dataset_run row)).
Qed.

(** X17: whatever calls are made on a manager that starts with empty
    caches, whether they return or raise, every storage in the name cache
    is filed under the name of its dataset type, every storage in the id
    cache under its own id, and the id of every storage in the name cache is
    a key of the id cache. *)
Theorem manager_caches_keyed (db : Database) (calls : list ManagerCall) :
  caches_keyed
    (foldl (fun self call => called call self)
       {| _db := db; _byName := ∅; _byId := ∅ |} calls).
Proof.
  assert (caches_keyed {| _db := db; _byName := ∅; _byId := ∅ |}) as Hinit.
  { split; intros ? ?; cbn; by rewrite lookup_empty. }
  revert Hinit. generalize {| _db := db; _byName := ∅; _byId := ∅ |}.
  induction calls as [|call calls IH]; intros self Hself; [done|].
  cbn [foldl]. apply IH. destruct call; cbn [called].
  - unfold register.
    apply (register_at_invariant caches_keyed); [|done].
    apply caches_keyed_register_one.
  - apply caches_keyed_refresh.
  - done.
  - by apply caches_keyed_getDatasetRef.
Qed.

(** *** A registration that fails among the components *)

(** The errors that the registration of the dataset type itself raises. *)
Definition raised_for (datasetType : DatasetType) (e : Exc) : Prop :=
  match e with
  | ConflictingDefinitionError given _ => given = datasetType
  | DatabaseConflictError name => name = dt_name datasetType
  | _ => False
  end.

Lemma register_one_raised_for (storageClassName : string)
  (datasetType : DatasetType) (self self' : Manager) (e : Exc) :
  register_one storageClassName datasetType self = (self', Raise e) ->
  raised_for datasetType e.
Proof.
  unfold register_one, db_sync, db_ensureTableExists. run.
  destruct (_byName self !! dt_name datasetType) as [storage|].
  - destruct (decide _); run; [done|]. by intros [= <- <-].
  - run.
    match goal with
    | |- context [List.find ?f ?l] => destruct (List.find f l) as [row0|]
    end.
    + destruct (_ && _); run; [|by intros [= <- <-]].
      by destruct (bool_decide _).
    + run. by destruct (bool_decide _).
Qed.

(** X18: [register] does not undo what it has done when the registration
    of a component fails.  When it raises an error that is not about the
    dataset type of the call itself, this dataset type has been registered:
    [find] returns its storage in the manager that the failed call
    leaves. *)
Theorem register_cascade_not_atomic (datasetType : DatasetType)
  (self self' : Manager) (e : Exc) :
  register datasetType self = (self', Raise e) ->
  ~ raised_for datasetType e ->
  registered datasetType self'.
Proof.
  unfold register.
  destruct (dt_storageClass datasetType) as [name components].
  rewrite register_at_unfold.
  destruct (register_one name datasetType self)
    as [self1 [[storage inserted]|e1]] eqn:Hone.
  - apply register_one_registered in Hone as [Hget Hdt].
    destruct (inserted && dt_isComposite datasetType); [|done].
    pose proof (register_components_keeps datasetType components self1)
      as Hkeeps.
    destruct (register_components datasetType components self1)
      as [self2 [[]|e2]]; [done|].
    intros [= <- <-] _. cbn [fst] in Hkeeps.
    apply (registered_intro _ _ storage); [|done]. by apply Hkeeps.
  - intros [= <- <-] Hother. exfalso. apply Hother.
    by apply (register_one_raised_for _ _ _ _ _ Hone).
Qed.

End ManagerCaches.

(** A dataset table that refers to a dataset type that is not in the
    directory. *)
Definition orphan_manager : ByDimensionsDatasetRecordStorageManager :=
  {| _db := {| db_dataset_type := [];
               db_dataset := [{| dataset_id := 7; dataset_run := 1;
                                 dataset_type_id := 99 |}];
               db_tables := []; db_next_id := 1; db_calls := [] |};
     _byName := ∅; _byId := ∅ |}.

Lemma getDatasetRef_broken_foreign_key_witness :
  (getDatasetRef 7 orphan_manager).2
  = Raise (AssertionError "Should be guaranteed by foreign key constraints.")
  /\ refreshes (getDatasetRef 7 orphan_manager).1 = 1%nat.
Proof.
  apply (getDatasetRef_broken_foreign_key orphan_manager 7
           {| dataset_id := 7; dataset_run := 1; dataset_type_id := 99 |}).
  - reflexivity.
  - reflexivity.
  - by intros type_row ?%elem_of_nil.
Defined.

(** A manager that has cached another definition of a component of
    [calexp]. *)
Definition calexp_image_by_visit : DatasetType :=
  {| dt_name := "calexp.image"; dt_dimensions := ["visit"];
     dt_storageClass := mkStorageClass "Image" [];
     dt_isCalibration := false |}.

Definition component_conflict_manager
  : ByDimensionsDatasetRecordStorageManager :=
  (register calexp_image_by_visit new_manager).1.

Lemma register_cascade_not_atomic_witness :
  (exists e, (register calexp component_conflict_manager).2 = Raise e) /\
  registered calexp (register calexp component_conflict_manager).1.
Proof.
  set (e := ConflictingDefinitionError
              (makeComponentDatasetType calexp "image"
                 (mkStorageClass "Image" []))
              calexp_image_by_visit).
  assert (register calexp component_conflict_manager
          = ((register calexp component_conflict_manager).1, Raise e))
    as Hrun by (vm_compute; reflexivity).
  split; [exists e; by rewrite Hrun|].
  apply (register_cascade_not_atomic calexp component_conflict_manager _ e
           Hrun).
  cbn. discriminate.
Defined.

(** ** The references inside what [_finish] writes *)

Section Consistency.

Context {DataCoordinate FileDataset : Type}.
Context `{DataCoordinate_eq_dec : EqDecision DataCoordinate}.
Context {DataCoordinate_PyOrd : PyOrd DataCoordinate}.
Context {FileDataset_PyOrd : PyOrd FileDataset}.
Context {DatasetAssociation_PyOrd : PyOrd (@DatasetAssociation DataCoordinate)}.

Abbreviation Ctx := (@RepoExportContext DataCoordinate FileDataset).
Abbreviation Call := (@BackendCall DataCoordinate FileDataset).

(** When [_computeSortedCollections] returns, it returns the accumulated
    names in some order. *)
Lemma computeSortedCollections_Permutation
  (collections : dict string CollectionRecord) (names : list string) :
  collections_wf collections ->
  computeSortedCollections collections = Ok names ->
  names ≡ₚ dict_keys collections.
Proof.
  intros Hwf Hrun.
  destruct (computeSortedCollections_cases collections Hwf)
    as [[Hraise _]|(batches & Hok & Hlevels)]; [congruence|].
  rewrite Hok in Hrun. injection Hrun as <-.
  pose proof (chains_of_wf _ Hwf) as Hcwf.
  rewrite (levels_Permutation _ _ (dict_keys (chains_of collections))
             _ Hcwf ltac:(intros name; by apply elem_of_keys_chains_of)
             Hlevels).
  rewrite sorted_Permutation. symmetry. by apply keys_partition.
Qed.

Lemma elem_of_collection_calls (registry : @Registry DataCoordinate)
  (collections : dict string CollectionRecord) (names : list string)
  (name : string) (record : CollectionRecord) :
  name ∈ names -> dict_get name collections = Some record ->
  (Backend_saveCollection record (reg_documentation registry name) : Call)
  ∈ collection_calls registry collections names.
Proof.
  intros Hin Hget. unfold collection_calls.
  apply list_elem_of_omap. exists name. split; [done|]. by rewrite Hget.
Qed.

Lemma elem_of_dataset_calls (self : Ctx) (datasetType : DatasetType)
  (run : string) (files : list FileDataset) :
  dict_wf (_datasets self) ->
  (Backend_saveDatasets datasetType run files : Call) ∈ dataset_calls self ->
  run ∈ dataset_runs self.
Proof.
  intros Hwf. unfold dataset_calls.
  rewrite list_elem_of_In, in_flat_map.
  intros (datasetType' & Hdt%list_elem_of_In & Hin%list_elem_of_In).
  apply list_elem_of_omap in Hin as (run' & Hrun & Hcall).
  rewrite sorted_elem_of in Hrun.
  destruct (dict_get datasetType' (_datasets self)) as [byRun|] eqn:Hget;
    [|by apply elem_of_nil in Hrun].
  cbn [default from_option id] in *.
  destruct (dict_get run' byRun) as [records|]; [|done].
  injection Hcall as -> -> _.
  apply elem_of_dataset_runs; [done|]. by exists datasetType, byRun.
Qed.

Lemma elem_of_association_calls (self : Ctx) (collection : string)
  (type : CollectionType)
  (associations : list (@DatasetAssociation DataCoordinate)) :
  (Backend_saveDatasetAssociations collection type associations : Call)
  ∈ association_calls self ->
  associations <> [] /\
  exists record,
    dict_get collection (_collections self) = Some record /\
    cr_type record = type.
Proof.
  unfold association_calls.
  intros (collection' & Hin & Hcall)%list_elem_of_omap.
  rewrite sorted_elem_of in Hin.
  destruct (dict_get collection' (_collections self)) as [record|]
    eqn:Hrecord; [|done].
  cbn [mbind option_bind] in Hcall.
  destruct (dict_get collection' (_computeDatasetAssociations self))
    as [found|] eqn:Hfound; [|done].
  cbn in Hcall. injection Hcall as -> <- <-. split; [|by exists record].
  destruct (computeDatasetAssociations_filled self) as [_ Hfilled].
  specialize (Hfilled _ Hin). unfold filed in Hfilled.
  rewrite Hfound in Hfilled. cbn in Hfilled.
  intros Hnil. apply Hfilled.
  apply Permutation_nil_r. rewrite <- (sorted_Permutation found).
  by rewrite Hnil.
Qed.

(** X4: what [_finish] writes is closed under the references it makes.
    When [_finish] returns, every call that writes the datasets of a run
    comes after a call that writes the collection of that name, and every
    call that writes the associations of a collection comes after a call
    that writes this collection, with the type the association call states;
    no association call has an empty list. *)
Theorem finish_writes_collections_first (self : Ctx) :
  collections_wf (_collections self) -> dict_wf (_datasets self) ->
  (_finish self).2 = Ok tt ->
  exists calls,
    _backend (_finish self).1 = _backend self ++ calls /\
    (forall datasetType run files,
       Backend_saveDatasets datasetType run files ∈ calls ->
       exists record doc,
         cr_name record = run /\
         before (Backend_saveCollection record doc)
           (Backend_saveDatasets datasetType run files) calls) /\
    (forall collection type associations,
       Backend_saveDatasetAssociations collection type associations ∈ calls ->
       associations <> [] /\
       exists record doc,
         cr_name record = collection /\ cr_type record = type /\
         before (Backend_saveCollection record doc)
           (Backend_saveDatasetAssociations collection type associations)
           calls).
Proof.
  intros Hwf Hdatasets. rewrite (finish_run self Hwf). cbn [fst snd].
  unfold finish_outcome.
  destruct (unresolved_run self) as [e|] eqn:Hruns; [done|].
  pose proof (resolve_runs_wf (_registry self) (dataset_runs self) _ Hwf)
    as Hwf'. fold (with_runs self) in Hwf'.
  destruct (computeSortedCollections (with_runs self)) as [names|e]
    eqn:Hsort; [|done].
  intros _. cbn [fst]. eexists. split; [reflexivity|].
  pose proof (computeSortedCollections_Permutation _ _ Hwf' Hsort) as Hnames.
  assert (forall name record,
            dict_get name (with_runs self) = Some record ->
            cr_name record = name /\
            (Backend_saveCollection record
               (reg_documentation (_registry self) name) : Call)
            ∈ collection_calls (_registry self) (with_runs self) names)
    as Hwritten.
  { intros name record Hget. split.
    - apply Hwf'. by apply dict_get_Some_elem_of.
    - apply elem_of_collection_calls; [|done].
      rewrite Hnames. apply dict_get_is_Some. by rewrite Hget. }
  split.
  - intros datasetType run files Hin.
    assert (Backend_saveDatasets datasetType run files ∈ dataset_calls self)
      as Hcall.
    { apply elem_of_app in Hin as [Hin|Hin].
      { unfold dimension_calls in Hin.
        by apply list_elem_of_fmap in Hin as (? & ? & _). }
      apply elem_of_app in Hin as [Hin|Hin].
      { unfold collection_calls in Hin.
        apply list_elem_of_omap in Hin as (name & _ & Hc).
        by destruct (dict_get name (with_runs self)). }
      apply elem_of_app in Hin as [Hin|Hin]; [done|].
      apply elem_of_app in Hin as [Hin|Hin].
      { unfold association_calls in Hin.
        apply list_elem_of_omap in Hin as (name & _ & Hc).
        destruct (dict_get name (_collections (resolved self)));
          cbn in Hc; [|done].
        by destruct (dict_get name _). }
      by apply list_elem_of_singleton in Hin. }
    pose proof (elem_of_dataset_calls _ _ _ _ Hdatasets Hcall) as Hrun.
    pose proof (resolve_runs_get (_registry self) (dataset_runs self)
                  (_collections self) run Hruns) as Hget.
    rewrite decide_True in Hget by done.
    pose proof (proj1 (resolve_runs_None _ _ _) Hruns run Hrun)
      as [record Hfind].
    rewrite Hfind in Hget. fold (with_runs self) in Hget.
    destruct (Hwritten run record Hget) as [Hname Hcollection].
    exists record, (reg_documentation (_registry self) run).
    split; [done|].
    apply before_app_l. apply before_app; [done|].
    apply elem_of_app. by left.
  - intros collection type associations Hin.
    assert (Backend_saveDatasetAssociations collection type associations
            ∈ association_calls (resolved self)) as Hcall.
    { apply elem_of_app in Hin as [Hin|Hin].
      { unfold dimension_calls in Hin.
        by apply list_elem_of_fmap in Hin as (? & ? & _). }
      apply elem_of_app in Hin as [Hin|Hin].
      { unfold collection_calls in Hin.
        apply list_elem_of_omap in Hin as (name & _ & Hc).
        by destruct (dict_get name (with_runs self)). }
      apply elem_of_app in Hin as [Hin|Hin].
      { unfold dataset_calls in Hin.
        apply list_elem_of_In, in_flat_map in Hin
          as (datasetType & _ & Hin%list_elem_of_In).
        apply list_elem_of_omap in Hin as (run & _ & Hc).
        by destruct (dict_get run _). }
      apply elem_of_app in Hin as [Hin|Hin]; [done|].
      by apply list_elem_of_singleton in Hin. }
    destruct (elem_of_association_calls _ _ _ _ Hcall)
      as (Hfilled & record & Hget & Htype).
    split; [done|].
    change (_collections (resolved self)) with (with_runs self) in Hget.
    destruct (Hwritten collection record Hget) as [Hname Hcollection].
    exists record, (reg_documentation (_registry self) collection).
    split_and!; [done|done|].
    apply before_app_l. apply before_app; [done|].
    apply elem_of_app. right. apply elem_of_app. by left.
Qed.

End Consistency.

Lemma session_one_datasets_wf : dict_wf (_datasets session_one).
Proof. by_evaluation. Qed.

(** The run of the datasets of session one was not saved by the session,
    and is written before them. *)
Lemma finish_writes_collections_first_witness :
  exists calls record doc,
    _backend (_finish session_one).1 = calls /\
    cr_name record = "run1" /\
    before (Backend_saveCollection record doc)
      (Backend_saveDatasets raw "run1" ["a.fits"; "b.fits"]) calls.
Proof.
  destruct (finish_writes_collections_first session_one session_one_wf
              session_one_datasets_wf)
    as (calls & Hcalls & Hdatasets & _); [vm_compute; reflexivity|].
  change (_backend session_one) with (@nil (@BackendCall Z string))
    in Hcalls.
  cbn [app] in Hcalls.
  destruct (Hdatasets raw "run1" ["a.fits"; "b.fits"])
    as (record & doc & Hname & Hbefore).
  { rewrite <- Hcalls. apply list_elem_of_In. vm_compute. auto 20. }
  by exists calls, record, doc.
Defined.

(** ** The dimension records of exported datasets *)

Lemma elem_of_set_add {A} `{EqDecision A} (x y : A) (s : list A) :
  x ∈ set_add y s <-> x = y \/ x ∈ s.
Proof.
  unfold set_add. destruct (decide (y ∈ s)) as [Hin|Hnin].
  - split; [by right|]. by intros [->|?].
  - rewrite elem_of_app, list_elem_of_singleton. tauto.
Qed.

Section DatasetRecords.

Context {DataCoordinate FileDataset : Type}.
Context `{DataCoordinate_eq_dec : EqDecision DataCoordinate}.
Context {DatasetRef_PyOrd : PyOrd (@DatasetRef DataCoordinate)}.

Abbreviation Ctx := (@RepoExportContext DataCoordinate FileDataset).
Abbreviation Ref := (@DatasetRef DataCoordinate).
Abbreviation Rec := (@DimensionRecord DataCoordinate).

(** The data IDs that the loop of [saveDatasets] hands to [saveDataIds]
    include those of the refs whose dataset had not been exported. *)
Lemma saveDatasets_loop_dataIds
  (rewrite : option (FileDataset -> FileDataset)) (l : list Ref) :
  forall (acc acc' : list DataCoordinate) (self self' : Ctx),
    foldM (saveDatasets_step rewrite) acc l self = (self', Ok acc') ->
    (forall dataId, dataId ∈ acc -> dataId ∈ acc') /\
    (ids_identify l ->
     forall ref,
       ref ∈ l -> id_in (ref_id ref) (_dataset_ids self) = false ->
       ref_dataId ref ∈ acc').
Proof.
  induction l as [|ref l IH]; intros acc acc' self self'.
  - intros [= <- <-]. split; [done|]. by intros _ ? ?%elem_of_nil.
  - rewrite foldM_cons, saveDatasets_step_run.
    destruct (id_in (ref_id ref) (_dataset_ids self)) eqn:Hknown.
    { intros [Hacc Hnew]%IH. split; [done|].
      intros Hdistinct ref' [->|Hin]%elem_of_cons Hfresh; [congruence|].
      apply Hnew; [|done|done].
      intros r1 r2 H1 H2. apply Hdistinct; by right. }
    destruct (_datastore self ref) as [exports|e]; [|done].
    destruct (ref_id ref) as [id|] eqn:Hid; [|done].
    destruct (ref_run ref) as [run|]; [|done].
    intros [Hacc Hnew]%IH.
    assert (ref_dataId ref ∈ acc') as Hhead.
    { apply Hacc. apply elem_of_set_add. by left. }
    split.
    + intros dataId Hin. apply Hacc. apply elem_of_set_add. by right.
    + intros Hdistinct ref' [->|Hin]%elem_of_cons Hfresh; [done|].
      destruct (decide (ref_id ref' = Some id)) as [Heq|Hne].
      * assert (ref' = ref) as ->; [|done].
        apply Hdistinct; [by right|left|congruence].
      * apply Hnew; [|done|].
        { intros r1 r2 H1 H2. apply Hdistinct; by right. }
        cbn [file_dataset with_datasets with_dataset_ids _dataset_ids].
        destruct (ref_id ref') as [id'|]; [|done]. cbn in Hfresh |- *.
        apply bool_decide_eq_false in Hfresh.
        apply bool_decide_eq_false. intros Hin'.
        apply elem_of_union in Hin' as [?|?%elem_of_singleton];
          [done|congruence].
Qed.

Lemma find_is_Some {A} (p : A -> bool) (l : list A) (x : A) :
  x ∈ l -> p x = true -> is_Some (List.find p l).
Proof.
  intros Hin Hp. destruct (List.find p l) as [y|] eqn:Hfind; [done|].
  apply list_elem_of_In in Hin.
  pose proof (find_none _ _ Hfind x Hin). congruence.
Qed.

(** X14: [saveDatasets] without explicit elements saves the dimension
    records of the datasets it exports.  When it returns, and refs with
    the same id are the same ref, then for every given ref whose dataset
    had not been exported, every record of the expansion of its data ID
    that belongs to a static element with a table of its own has a record
    stored for its element and data ID. *)
Theorem saveDatasets_saves_dimension_records (refs : list Ref)
  (rewrite : option (FileDataset -> FileDataset)) (self self' : Ctx)
  (ref : Ref) (records : list (option Rec)) (record : Rec) :
  saveDatasets refs None rewrite self = (self', Ok tt) ->
  ids_identify refs ->
  ref ∈ refs -> id_in (ref_id ref) (_dataset_ids self) = false ->
  reg_expandDataId (_registry self) (ref_dataId ref) = Ok records ->
  Some record ∈ records ->
  exportable (_registry self) (rec_definition record) = true ->
  is_Some (stored_record self' (rec_definition record) (rec_dataId record)).
Proof.
  rewrite saveDatasets_unfold, bind_run.
  destruct (foldM (saveDatasets_step rewrite) [] (sorted refs) self)
    as [self1 [dataIds|e]] eqn:Hloop; [|done].
  intros Hsave Hdistinct Hin Hfresh Hexpand Hrecord Hexportable.
  pose proof (saveDatasets_loop_dataIds _ _ _ _ _ _ Hloop) as [_ HdataIds].
  apply saveDatasets_loop_spec in Hloop as (Hreg & _).
  assert (ref_dataId ref ∈ dataIds) as HdataId.
  { apply HdataIds; [|by apply sorted_elem_of|done].
    intros r1 r2 H1 H2. apply Hdistinct; by apply sorted_elem_of. }
  rewrite saveDataIds_unfold_None in Hsave.
  apply saveDataIds_loop_Ok in Hsave. subst self'.
  unfold stored_record. cbn [with_records _records].
  match goal with
  | |- is_Some (dict_get ?element (store_all ?items ?store) ≫= _) =>
      fold (store_get (store_all items store) element (rec_dataId record))
  end.
  rewrite store_get_all.
  match goal with
  | |- is_Some (?stored ∪ (snd <$> ?found)) =>
      assert (is_Some found) as [item ->];
      [|destruct stored; by eexists]
  end.
  apply (find_is_Some _ _ (rec_definition record, record)).
  - unfold selected_items. apply list_elem_of_fmap.
    exists record. split; [done|].
    apply elem_of_filter_bool. split.
    + unfold expanded_records. apply list_elem_of_In, in_flat_map.
      exists (ref_dataId ref). split; [by apply list_elem_of_In|].
      rewrite Hreg, Hexpand. apply list_elem_of_In.
      apply list_elem_of_omap. by exists (Some record).
    + apply bool_decide_eq_true, elem_of_filter_bool.
      unfold exportable in Hexportable. rewrite Hreg.
      apply andb_true_iff in Hexportable as [Hstatic Htable].
      split; [by apply bool_decide_eq_true in Hstatic|done].
  - cbn [fst snd]. by rewrite !bool_decide_true.
Qed.

End DatasetRecords.

Lemma saveDatasets_saves_dimension_records_witness :
  is_Some (stored_record
             (saveDatasets [sample_ref raw 2] None None new_export).1
             visit 102).
Proof.
  apply (saveDatasets_saves_dimension_records [sample_ref raw 2] None
           new_export _ (sample_ref raw 2)
           [Some (sample_record instrument 1);
            Some (sample_record visit 102)]
           (sample_record visit 102)).
  - vm_compute. reflexivity.
  - by intros ref1 ref2 ->%list_elem_of_singleton ->%list_elem_of_singleton.
  - left.
  - reflexivity.
  - reflexivity.
  - right. left.
  - vm_compute. reflexivity.
Defined.

(** ** Nothing that was accumulated is left out *)

Section Completeness.

Context {DataCoordinate FileDataset : Type}.
Context `{DataCoordinate_eq_dec : EqDecision DataCoordinate}.
Context {DataCoordinate_PyOrd : PyOrd DataCoordinate}.
Context {FileDataset_PyOrd : PyOrd FileDataset}.
Context {DatasetAssociation_PyOrd : PyOrd (@DatasetAssociation DataCoordinate)}.

Abbreviation Ctx := (@RepoExportContext DataCoordinate FileDataset).
Abbreviation Call := (@BackendCall DataCoordinate FileDataset).

Lemma stored_record_dimension_calls (self : Ctx)
  (element : DimensionElement) (dataId : DataCoordinate)
  (record : @DimensionRecord DataCoordinate) :
  stored_record self element dataId = Some record ->
  element ∈ reg_dimensions (_registry self) ->
  exists data,
    (Backend_saveDimensionData element data : Call) ∈ dimension_calls self /\
    record ∈ data.
Proof.
  unfold stored_record. intros Hstored Hstatic.
  destruct (dict_get element (_records self)) as [store|] eqn:Hstore;
    [|done].
  cbn [mbind option_bind] in Hstored.
  exists (dimension_data self element). split.
  - unfold dimension_calls. apply list_elem_of_fmap.
    exists element. split; [done|]. unfold dimensions_sorted.
    apply elem_of_filter_bool. split; [done|].
    apply bool_decide_eq_true, dict_get_is_Some. by rewrite Hstore.
  - unfold dimension_data. rewrite Hstore. cbn [default from_option id].
    apply list_elem_of_omap. exists dataId. split; [|done].
    apply sorted_elem_of, dict_get_is_Some. by rewrite Hstored.
Qed.

Lemma filed_dataset_calls (self : Ctx) (datasetType : DatasetType)
  (run : string) (fd : FileDataset) :
  fd ∈ filed_datasets self datasetType run ->
  exists files,
    (Backend_saveDatasets datasetType run files : Call) ∈ dataset_calls self
    /\ fd ∈ files.
Proof.
  unfold filed_datasets. intros Hfd.
  destruct (dict_get datasetType (_datasets self)) as [byRun|] eqn:HbyRun;
    [|by apply elem_of_nil in Hfd].
  cbn [mbind option_bind] in Hfd.
  destruct (dict_get run byRun) as [files|] eqn:Hfiles;
    [|by apply elem_of_nil in Hfd].
  cbn [default from_option id] in Hfd.
  exists (sorted files). split; [|by apply sorted_elem_of].
  unfold dataset_calls. apply list_elem_of_In, in_flat_map.
  exists datasetType. split.
  - apply list_elem_of_In, sorted_elem_of, dict_get_is_Some.
    by rewrite HbyRun.
  - apply list_elem_of_In. rewrite HbyRun. cbn [default from_option id].
    apply list_elem_of_omap. exists run. split; [|by rewrite Hfiles].
    apply sorted_elem_of, dict_get_is_Some. by rewrite Hfiles.
Qed.

(** X19: when [_finish] returns, what the session has accumulated has
    been written.  The backend has received a call for every accumulated
    collection; every file dataset that is filed under a dataset type and
    a run is in a call for this type and run; and every record stored for
    a static element is in the call for this element. *)
Theorem finish_writes_everything (self : Ctx) :
  collections_wf (_collections self) ->
  (_finish self).2 = Ok tt ->
  exists calls,
    _backend (_finish self).1 = _backend self ++ calls /\
    (forall name,
       name ∈ dict_keys (_collections self) ->
       exists record doc,
         cr_name record = name /\ Backend_saveCollection record doc ∈ calls) /\
    (forall datasetType run fd,
       fd ∈ filed_datasets self datasetType run ->
       exists files,
         Backend_saveDatasets datasetType run files ∈ calls /\ fd ∈ files) /\
    (forall element dataId record,
       stored_record self element dataId = Some record ->
       element ∈ reg_dimensions (_registry self) ->
       exists data,
         Backend_saveDimensionData element data ∈ calls /\ record ∈ data).
Proof.
  intros Hwf. rewrite (finish_run self Hwf). cbn [fst snd].
  unfold finish_outcome.
  destruct (unresolved_run self) as [e|] eqn:Hruns; [done|].
  pose proof (resolve_runs_wf (_registry self) (dataset_runs self) _ Hwf)
    as Hwf'. fold (with_runs self) in Hwf'.
  destruct (computeSortedCollections (with_runs self)) as [names|e]
    eqn:Hsort; [|done].
  intros _. cbn [fst]. eexists. split; [reflexivity|].
  pose proof (computeSortedCollections_Permutation _ _ Hwf' Hsort) as Hnames.
  split_and!.
  - intros name Hin.
    pose proof (resolve_runs_get (_registry self) (dataset_runs self)
                  (_collections self) name Hruns) as Hget.
    fold (with_runs self) in Hget.
    assert (is_Some (dict_get name (with_runs self))) as [record Hrecord].
    { rewrite Hget. destruct (decide (name ∈ dataset_runs self)) as [Hrun|_].
      - by apply (proj1 (resolve_runs_None _ _ _) Hruns).
      - by apply dict_get_is_Some. }
    exists record, (reg_documentation (_registry self) name). split.
    + apply Hwf'. by apply dict_get_Some_elem_of.
    + apply elem_of_app. right. apply elem_of_app. left.
      apply elem_of_collection_calls; [|done].
      rewrite Hnames. apply dict_get_is_Some. by rewrite Hrecord.
  - intros datasetType run fd Hfd.
    destruct (filed_dataset_calls _ _ _ _ Hfd) as (files & Hcall & Hin).
    exists files. split; [|done].
    apply elem_of_app. right. apply elem_of_app. right.
    apply elem_of_app. by left.
  - intros element dataId record Hstored Hstatic.
    destruct (stored_record_dimension_calls _ _ _ _ Hstored Hstatic)
      as (data & Hcall & Hin).
    exists data. split; [|done]. apply elem_of_app. by left.
Qed.

End Completeness.

Lemma finish_writes_everything_witness :
  exists calls files,
    _backend (_finish session_one).1 = calls /\
    Backend_saveDatasets flat "run1" files ∈ calls /\ "d.fits" ∈ files.
Proof.
  destruct (finish_writes_everything session_one session_one_wf)
    as (calls & Hcalls & _ & Hdatasets & _); [vm_compute; reflexivity|].
  change (_backend session_one) with (@nil (@BackendCall Z string))
    in Hcalls.
  cbn [app] in Hcalls.
  destruct (Hdatasets flat "run1" "d.fits") as (files & Hcall & Hin).
  { apply list_elem_of_In. vm_compute. auto. }
  by exists calls, files.
Defined.

(** ** What [register] leaves alone *)

Section RegisterKeeps.

Context {DataCoordinate : Type} `{Collaborators DataCoordinate}.

(** X20: [register] never replaces or drops a cached storage.  Whatever
    dataset type it is called with, and whether it returns or raises, a
    name that [find] answered before the call gets the same answer after
    it. *)
Theorem register_never_replaces (datasetType : DatasetType)
  (self : Manager) (name : string) (storage : Storage) :
  (find name self).2 = Ok (Some storage) ->
  (find name (register datasetType self).1).2 = Ok (Some storage).
Proof.
  unfold find. rewrite !bind_run. cbn [get mret M_ret ret snd].
  intros [= Hcached]. f_equal.
  by apply (register_at_keeps (dt_storageClass datasetType) datasetType
              self).
Qed.

End RegisterKeeps.

Lemma register_never_replaces_witness :
  exists storage,
    (find "calexp.wcs" registered_manager).2 = Ok (Some storage) /\
    (find "calexp.wcs" (register raw registered_manager).1).2
    = Ok (Some storage).
Proof.
  assert (exists storage,
            (find "calexp.wcs" registered_manager).2 = Ok (Some storage))
    as [storage Hfind] by (eexists; vm_compute; reflexivity).
  exists storage. split; [exact Hfind|].
  exact (register_never_replaces raw registered_manager "calexp.wcs"
           storage Hfind).
Defined.
